(** * API notes writer: a shallow embedding of APINotesWriter.cpp

    The writer accumulates API notes in memory (identifier and selector
    interning, one map per entity kind) and serialises them as an LLVM
    bitstream whose blocks carry on-disk hash tables.  This file embeds
    the accumulation interface ([getIdentifier], [getSelector], the
    [add*] members), the payload encoders and the block writers, and
    proves the properties the design document states about them.

    Conventions.
    - [unsigned], [uint32_t], [uint16_t], [uint8_t] values are numbers
      in [N]; every store into a fixed-width object is written with its
      wrap-around ([wrap32], [write_uint16], ...).
    - [llvm::StringMap] and [llvm::DenseMap] are finite maps ([gmap]).
    - A [raw_ostream] is the list of bytes written so far.
    - [assert] is taken as enabled: a failing assertion stops the call
      with [AssertionFailed], carrying the state reached at that point. *)

From Stdlib Require Import NArith String Ascii List Lia.
From stdpp Require Import base gmap strings list fin_maps.

Local Open Scope string_scope.
Local Open Scope list_scope.
Local Open Scope N_scope.

(** ** Fixed-width integers *)

Definition wrap8 (n : N) : N := n mod 2 ^ 8.
Definition wrap16 (n : N) : N := n mod 2 ^ 16.
Definition wrap32 (n : N) : N := n mod 2 ^ 32.
Definition wrap64 (n : N) : N := n mod 2 ^ 64.

(** ** Entity model (clang/APINotes/Types.h)

    The header that declares the info classes is not part of the
    sources at hand; the records below carry exactly the members the
    writer reads or writes. *)

Abbreviation IdentifierID := N.
Abbreviation SelectorID := N.

(** The value of a [NullabilityKind] enumerator, as [static_cast<uint8_t>]
    sees it. *)
Abbreviation NullabilityKind := N.

Record ContextID := mkContextID { Value : N }.

Record ObjCSelectorRef := mkObjCSelectorRef {
  NumPieces : N;
  Identifiers : list string
}.

(** [StoredObjCSelector]: the piece count and the identifier IDs of the
    pieces.  Modelled from the spec: its [DenseMapInfo] (APINotesFormat.h)
    is missing; two stored selectors are equal iff their piece sequences
    and counts match, which is equality of the pair. *)
Abbreviation StoredObjCSelector := (N * list N)%type.

Record CommonEntityInfo := mkCommonEntityInfo {
  UnavailableMsg : string;
  Unavailable : bool;
  UnavailableInSwift : bool;
  SwiftPrivate : bool;
  SwiftName : string
}.

Record CommonTypeInfo := mkCommonTypeInfo {
  type_entity : CommonEntityInfo;
  getSwiftBridge : string;
  getNSErrorDomain : string
}.

Record ObjCContextInfo := mkObjCContextInfo {
  context_type : CommonTypeInfo;
  getDefaultNullability : option NullabilityKind;
  hasDesignatedInits : bool
}.

Record VariableInfo := mkVariableInfo {
  variable_entity : CommonEntityInfo;
  getNullability : option NullabilityKind
}.

Abbreviation ObjCPropertyInfo := VariableInfo.
Abbreviation GlobalVariableInfo := VariableInfo.

Record ParamInfo := mkParamInfo {
  isNoEscape : bool;
  param_getNullability : option NullabilityKind
}.

Record FunctionInfo := mkFunctionInfo {
  function_entity : CommonEntityInfo;
  NullabilityAudited : bool;
  NumAdjustedNullable : N;
  NullabilityPayload : N;
  Params : list ParamInfo
}.

Record ObjCMethodInfo := mkObjCMethodInfo {
  method_function : FunctionInfo;
  DesignatedInit : bool;
  FactoryAsInit : bool;
  Required : bool
}.

Abbreviation GlobalFunctionInfo := FunctionInfo.
Abbreviation EnumConstantInfo := CommonEntityInfo.
Abbreviation TagInfo := CommonTypeInfo.
Abbreviation TypedefInfo := CommonTypeInfo.

Definition setHasDesignatedInits (value : bool) (info : ObjCContextInfo)
  : ObjCContextInfo :=
  {| context_type := context_type info;
     getDefaultNullability := getDefaultNullability info;
     hasDesignatedInits := value |}.

(** ** The writer state (APINotesWriter::Implementation) *)

Record Implementation := mkImplementation {
  IdentifierIDs : gmap string IdentifierID;
  SelectorIDs : gmap StoredObjCSelector SelectorID;
  ModuleName : string;
  SwiftInferImportAsMember : bool;
  (* keyed by the identifier ID and class (false, 0) or protocol (true, 1) *)
  ObjCContexts : gmap (N * bool) (N * ObjCContextInfo);
  ObjCContextNames : gmap N N;
  ObjCProperties : gmap (N * N * bool) ObjCPropertyInfo;
  ObjCMethods : gmap (N * N * bool) ObjCMethodInfo;
  GlobalVariables : gmap N GlobalVariableInfo;
  GlobalFunctions : gmap N GlobalFunctionInfo;
  EnumConstants : gmap N EnumConstantInfo;
  Tags : gmap N TagInfo;
  Typedefs : gmap N TypedefInfo
}.

(** [APINotesWriter::APINotesWriter(moduleName)]. *)
Definition newWriter (moduleName : string) : Implementation :=
  {| IdentifierIDs := ∅; SelectorIDs := ∅;
     ModuleName := moduleName; SwiftInferImportAsMember := false;
     ObjCContexts := ∅; ObjCContextNames := ∅;
     ObjCProperties := ∅; ObjCMethods := ∅;
     GlobalVariables := ∅; GlobalFunctions := ∅;
     EnumConstants := ∅; Tags := ∅; Typedefs := ∅ |}.

(** Field updates: [with_F v w] is [w] with member [F] replaced by [v]. *)

Definition with_IdentifierIDs (v : gmap string IdentifierID)
  (w : Implementation) : Implementation :=
  {| IdentifierIDs := v; SelectorIDs := SelectorIDs w;
     ModuleName := ModuleName w;
     SwiftInferImportAsMember := SwiftInferImportAsMember w;
     ObjCContexts := ObjCContexts w;
     ObjCContextNames := ObjCContextNames w;
     ObjCProperties := ObjCProperties w; ObjCMethods := ObjCMethods w;
     GlobalVariables := GlobalVariables w;
     GlobalFunctions := GlobalFunctions w;
     EnumConstants := EnumConstants w; Tags := Tags w;
     Typedefs := Typedefs w |}.

Definition with_SelectorIDs (v : gmap StoredObjCSelector SelectorID)
  (w : Implementation) : Implementation :=
  {| IdentifierIDs := IdentifierIDs w; SelectorIDs := v;
     ModuleName := ModuleName w;
     SwiftInferImportAsMember := SwiftInferImportAsMember w;
     ObjCContexts := ObjCContexts w;
     ObjCContextNames := ObjCContextNames w;
     ObjCProperties := ObjCProperties w; ObjCMethods := ObjCMethods w;
     GlobalVariables := GlobalVariables w;
     GlobalFunctions := GlobalFunctions w;
     EnumConstants := EnumConstants w; Tags := Tags w;
     Typedefs := Typedefs w |}.

Definition with_SwiftInferImportAsMember (v : bool)
  (w : Implementation) : Implementation :=
  {| IdentifierIDs := IdentifierIDs w; SelectorIDs := SelectorIDs w;
     ModuleName := ModuleName w; SwiftInferImportAsMember := v;
     ObjCContexts := ObjCContexts w;
     ObjCContextNames := ObjCContextNames w;
     ObjCProperties := ObjCProperties w; ObjCMethods := ObjCMethods w;
     GlobalVariables := GlobalVariables w;
     GlobalFunctions := GlobalFunctions w;
     EnumConstants := EnumConstants w; Tags := Tags w;
     Typedefs := Typedefs w |}.

Definition with_ObjCContexts (v : gmap (N * bool) (N * ObjCContextInfo))
  (w : Implementation) : Implementation :=
  {| IdentifierIDs := IdentifierIDs w; SelectorIDs := SelectorIDs w;
     ModuleName := ModuleName w;
     SwiftInferImportAsMember := SwiftInferImportAsMember w;
     ObjCContexts := v; ObjCContextNames := ObjCContextNames w;
     ObjCProperties := ObjCProperties w; ObjCMethods := ObjCMethods w;
     GlobalVariables := GlobalVariables w;
     GlobalFunctions := GlobalFunctions w;
     EnumConstants := EnumConstants w; Tags := Tags w;
     Typedefs := Typedefs w |}.

Definition with_ObjCContextNames (v : gmap N N)
  (w : Implementation) : Implementation :=
  {| IdentifierIDs := IdentifierIDs w; SelectorIDs := SelectorIDs w;
     ModuleName := ModuleName w;
     SwiftInferImportAsMember := SwiftInferImportAsMember w;
     ObjCContexts := ObjCContexts w; ObjCContextNames := v;
     ObjCProperties := ObjCProperties w; ObjCMethods := ObjCMethods w;
     GlobalVariables := GlobalVariables w;
     GlobalFunctions := GlobalFunctions w;
     EnumConstants := EnumConstants w; Tags := Tags w;
     Typedefs := Typedefs w |}.

Definition with_ObjCProperties (v : gmap (N * N * bool) ObjCPropertyInfo)
  (w : Implementation) : Implementation :=
  {| IdentifierIDs := IdentifierIDs w; SelectorIDs := SelectorIDs w;
     ModuleName := ModuleName w;
     SwiftInferImportAsMember := SwiftInferImportAsMember w;
     ObjCContexts := ObjCContexts w;
     ObjCContextNames := ObjCContextNames w; ObjCProperties := v;
     ObjCMethods := ObjCMethods w; GlobalVariables := GlobalVariables w;
     GlobalFunctions := GlobalFunctions w;
     EnumConstants := EnumConstants w; Tags := Tags w;
     Typedefs := Typedefs w |}.

Definition with_ObjCMethods (v : gmap (N * N * bool) ObjCMethodInfo)
  (w : Implementation) : Implementation :=
  {| IdentifierIDs := IdentifierIDs w; SelectorIDs := SelectorIDs w;
     ModuleName := ModuleName w;
     SwiftInferImportAsMember := SwiftInferImportAsMember w;
     ObjCContexts := ObjCContexts w;
     ObjCContextNames := ObjCContextNames w;
     ObjCProperties := ObjCProperties w; ObjCMethods := v;
     GlobalVariables := GlobalVariables w;
     GlobalFunctions := GlobalFunctions w;
     EnumConstants := EnumConstants w; Tags := Tags w;
     Typedefs := Typedefs w |}.

Definition with_GlobalVariables (v : gmap N GlobalVariableInfo)
  (w : Implementation) : Implementation :=
  {| IdentifierIDs := IdentifierIDs w; SelectorIDs := SelectorIDs w;
     ModuleName := ModuleName w;
     SwiftInferImportAsMember := SwiftInferImportAsMember w;
     ObjCContexts := ObjCContexts w;
     ObjCContextNames := ObjCContextNames w;
     ObjCProperties := ObjCProperties w; ObjCMethods := ObjCMethods w;
     GlobalVariables := v; GlobalFunctions := GlobalFunctions w;
     EnumConstants := EnumConstants w; Tags := Tags w;
     Typedefs := Typedefs w |}.

Definition with_GlobalFunctions (v : gmap N GlobalFunctionInfo)
  (w : Implementation) : Implementation :=
  {| IdentifierIDs := IdentifierIDs w; SelectorIDs := SelectorIDs w;
     ModuleName := ModuleName w;
     SwiftInferImportAsMember := SwiftInferImportAsMember w;
     ObjCContexts := ObjCContexts w;
     ObjCContextNames := ObjCContextNames w;
     ObjCProperties := ObjCProperties w; ObjCMethods := ObjCMethods w;
     GlobalVariables := GlobalVariables w; GlobalFunctions := v;
     EnumConstants := EnumConstants w; Tags := Tags w;
     Typedefs := Typedefs w |}.

Definition with_EnumConstants (v : gmap N EnumConstantInfo)
  (w : Implementation) : Implementation :=
  {| IdentifierIDs := IdentifierIDs w; SelectorIDs := SelectorIDs w;
     ModuleName := ModuleName w;
     SwiftInferImportAsMember := SwiftInferImportAsMember w;
     ObjCContexts := ObjCContexts w;
     ObjCContextNames := ObjCContextNames w;
     ObjCProperties := ObjCProperties w; ObjCMethods := ObjCMethods w;
     GlobalVariables := GlobalVariables w;
     GlobalFunctions := GlobalFunctions w; EnumConstants := v;
     Tags := Tags w; Typedefs := Typedefs w |}.

Definition with_Tags (v : gmap N TagInfo)
  (w : Implementation) : Implementation :=
  {| IdentifierIDs := IdentifierIDs w; SelectorIDs := SelectorIDs w;
     ModuleName := ModuleName w;
     SwiftInferImportAsMember := SwiftInferImportAsMember w;
     ObjCContexts := ObjCContexts w;
     ObjCContextNames := ObjCContextNames w;
     ObjCProperties := ObjCProperties w; ObjCMethods := ObjCMethods w;
     GlobalVariables := GlobalVariables w;
     GlobalFunctions := GlobalFunctions w;
     EnumConstants := EnumConstants w; Tags := v; Typedefs := Typedefs w |}.

Definition with_Typedefs (v : gmap N TypedefInfo)
  (w : Implementation) : Implementation :=
  {| IdentifierIDs := IdentifierIDs w; SelectorIDs := SelectorIDs w;
     ModuleName := ModuleName w;
     SwiftInferImportAsMember := SwiftInferImportAsMember w;
     ObjCContexts := ObjCContexts w;
     ObjCContextNames := ObjCContextNames w;
     ObjCProperties := ObjCProperties w; ObjCMethods := ObjCMethods w;
     GlobalVariables := GlobalVariables w;
     GlobalFunctions := GlobalFunctions w;
     EnumConstants := EnumConstants w; Tags := Tags w; Typedefs := v |}.

(** ** Interning *)

(** [Implementation::getIdentifier]. *)
Definition getIdentifier (identifier : string) (w : Implementation)
  : IdentifierID * Implementation :=
  if decide (identifier = "") then (0, w)
  else match IdentifierIDs w !! identifier with
       | Some known => (known, w)
       | None =>
           let id := wrap32 (N.of_nat (size (IdentifierIDs w)) + 1) in
           (id, with_IdentifierIDs (<[identifier := id]> (IdentifierIDs w)) w)
       end.

(** The loop of [getSelector] that interns the pieces from left to right. *)
Fixpoint getIdentifiers (pieces : list string) (w : Implementation)
  : list IdentifierID * Implementation :=
  match pieces with
  | [] => ([], w)
  | piece :: rest =>
      let '(id, w1) := getIdentifier piece w in
      let '(ids, w2) := getIdentifiers rest w1 in
      (id :: ids, w2)
  end.

(** [Implementation::getSelector]. *)
Definition getSelector (selectorRef : ObjCSelectorRef) (w : Implementation)
  : SelectorID * Implementation :=
  let '(ids, w1) := getIdentifiers (Identifiers selectorRef) w in
  let selector : StoredObjCSelector := (NumPieces selectorRef, ids) in
  match SelectorIDs w1 !! selector with
  | Some known => (known, w1)
  | None =>
      let id := wrap32 (N.of_nat (size (SelectorIDs w1))) in
      (id, with_SelectorIDs (<[selector := id]> (SelectorIDs w1)) w1)
  end.


(** ** Accumulation (the [add*] members of APINotesWriter) *)

(** What a member with an [assert] does: it returns, or it stops at the
    failing assertion. *)
Inductive Outcome (A : Type) : Type :=
| Returned (a : A) (w : Implementation)
| AssertionFailed (w : Implementation).
Arguments Returned {A} a w.
Arguments AssertionFailed {A} w.

(** [operator|=] of ObjCContextInfo is declared in Types.h, which is
    missing; the members that use it take it as the parameter [merge]. *)
Abbreviation ContextMerge :=
  (ObjCContextInfo → ObjCContextInfo → ObjCContextInfo).

(** Modelled from the spec: an [operator|=] for ObjCContextInfo under the
    "or" policy the design document gives for re-added contexts: the
    Boolean flags accumulate (the has-designated-initializers flag in
    particular) and what the existing record already carries is kept. *)
Definition orFlags (lhs rhs : ObjCContextInfo) : ObjCContextInfo :=
  let le := type_entity (context_type lhs) in
  let re := type_entity (context_type rhs) in
  {| context_type :=
       {| type_entity :=
            {| UnavailableMsg := UnavailableMsg le;
               Unavailable := Unavailable le || Unavailable re;
               UnavailableInSwift :=
                 UnavailableInSwift le || UnavailableInSwift re;
               SwiftPrivate := SwiftPrivate le || SwiftPrivate re;
               SwiftName := SwiftName le |};
          getSwiftBridge := getSwiftBridge (context_type lhs);
          getNSErrorDomain := getNSErrorDomain (context_type lhs) |};
     getDefaultNullability := getDefaultNullability lhs;
     hasDesignatedInits := hasDesignatedInits lhs || hasDesignatedInits rhs |}.

(** [APINotesWriter::addObjCClass]. *)
Definition addObjCClass (merge : ContextMerge) (name : string)
  (info : ObjCContextInfo) (w : Implementation)
  : ContextID * Implementation :=
  let '(classID, w1) := getIdentifier name w in
  let key := (classID, false) in
  match ObjCContexts w1 !! key with
  | Some known =>
      (mkContextID (fst known),
       with_ObjCContexts
         (<[key := (fst known, merge (snd known) info)]> (ObjCContexts w1)) w1)
  | None =>
      let nextID := wrap32 (N.of_nat (size (ObjCContexts w1)) + 1) in
      let w2 :=
        with_ObjCContexts (<[key := (nextID, info)]> (ObjCContexts w1)) w1 in
      (mkContextID nextID,
       with_ObjCContextNames (<[nextID := classID]> (ObjCContextNames w2)) w2)
  end.

(** [APINotesWriter::addObjCProtocol]. *)
Definition addObjCProtocol (merge : ContextMerge) (name : string)
  (info : ObjCContextInfo) (w : Implementation)
  : ContextID * Implementation :=
  let '(protocolID, w1) := getIdentifier name w in
  let key := (protocolID, true) in
  match ObjCContexts w1 !! key with
  | Some known =>
      (mkContextID (fst known),
       with_ObjCContexts
         (<[key := (fst known, merge (snd known) info)]> (ObjCContexts w1)) w1)
  | None =>
      let nextID := wrap32 (N.of_nat (size (ObjCContexts w1)) + 1) in
      let w2 :=
        with_ObjCContexts (<[key := (nextID, info)]> (ObjCContexts w1)) w1 in
      (mkContextID nextID,
       with_ObjCContextNames (<[nextID := protocolID]> (ObjCContextNames w2)) w2)
  end.

(** [APINotesWriter::addObjCProperty]. *)
Definition addObjCProperty (contextID : ContextID) (name : string)
  (isInstance : bool) (info : ObjCPropertyInfo) (w : Implementation)
  : Outcome unit :=
  let '(nameID, w1) := getIdentifier name w in
  let key := (Value contextID, nameID, isInstance) in
  match ObjCProperties w1 !! key with
  | Some _ => AssertionFailed w1
  | None =>
      Returned tt (with_ObjCProperties (<[key := info]> (ObjCProperties w1)) w1)
  end.

(** [DenseMap::operator[]] on [ObjCContextNames]: the value under the key,
    after value-initialising a missing entry to 0. *)
Definition ObjCContextNames_subscript (key : N) (w : Implementation)
  : N * Implementation :=
  match ObjCContextNames w !! key with
  | Some v => (v, w)
  | None => (0, with_ObjCContextNames (<[key := 0]> (ObjCContextNames w)) w)
  end.

(** [APINotesWriter::addObjCMethod]. *)
Definition addObjCMethod (contextID : ContextID) (selector : ObjCSelectorRef)
  (isInstanceMethod : bool) (info : ObjCMethodInfo) (w : Implementation)
  : Outcome unit :=
  let '(selectorID, w1) := getSelector selector w in
  let key := (Value contextID, selectorID, isInstanceMethod) in
  match ObjCMethods w1 !! key with
  | Some _ => AssertionFailed w1
  | None =>
      let w2 := with_ObjCMethods (<[key := info]> (ObjCMethods w1)) w1 in
      if DesignatedInit info then
        let '(nameID, w3) := ObjCContextNames_subscript (Value contextID) w2 in
        match ObjCContexts w3 !! (nameID, false) with
        | None => AssertionFailed w3
        | Some known =>
            Returned tt
              (with_ObjCContexts
                 (<[(nameID, false) :=
                      (fst known, setHasDesignatedInits true (snd known))]>
                    (ObjCContexts w3)) w3)
        end
      else Returned tt w2
  end.

(** [APINotesWriter::addGlobalVariable]. *)
Definition addGlobalVariable (name : string) (info : GlobalVariableInfo)
  (w : Implementation) : Outcome unit :=
  let '(variableID, w1) := getIdentifier name w in
  match GlobalVariables w1 !! variableID with
  | Some _ => AssertionFailed w1
  | None =>
      Returned tt
        (with_GlobalVariables (<[variableID := info]> (GlobalVariables w1)) w1)
  end.

(** [APINotesWriter::addGlobalFunction]. *)
Definition addGlobalFunction (name : string) (info : GlobalFunctionInfo)
  (w : Implementation) : Outcome unit :=
  let '(nameID, w1) := getIdentifier name w in
  match GlobalFunctions w1 !! nameID with
  | Some _ => AssertionFailed w1
  | None =>
      Returned tt
        (with_GlobalFunctions (<[nameID := info]> (GlobalFunctions w1)) w1)
  end.

(** [APINotesWriter::addEnumConstant]. *)
Definition addEnumConstant (name : string) (info : EnumConstantInfo)
  (w : Implementation) : Outcome unit :=
  let '(enumConstantID, w1) := getIdentifier name w in
  match EnumConstants w1 !! enumConstantID with
  | Some _ => AssertionFailed w1
  | None =>
      Returned tt
        (with_EnumConstants (<[enumConstantID := info]> (EnumConstants w1)) w1)
  end.

(** [APINotesWriter::addTag]. *)
Definition addTag (name : string) (info : TagInfo) (w : Implementation)
  : Outcome unit :=
  let '(tagID, w1) := getIdentifier name w in
  match Tags w1 !! tagID with
  | Some _ => AssertionFailed w1
  | None => Returned tt (with_Tags (<[tagID := info]> (Tags w1)) w1)
  end.

(** [APINotesWriter::addTypedef]. *)
Definition addTypedef (name : string) (info : TypedefInfo)
  (w : Implementation) : Outcome unit :=
  let '(typedefID, w1) := getIdentifier name w in
  match Typedefs w1 !! typedefID with
  | Some _ => AssertionFailed w1
  | None =>
      Returned tt (with_Typedefs (<[typedefID := info]> (Typedefs w1)) w1)
  end.

Record ModuleOptions := mkModuleOptions {
  opts_SwiftInferImportAsMember : bool
}.

(** [APINotesWriter::addModuleOptions]. *)
Definition addModuleOptions (opts : ModuleOptions) (w : Implementation)
  : Implementation :=
  with_SwiftInferImportAsMember (opts_SwiftInferImportAsMember opts) w.

(** [addObjCClass] or [addObjCProtocol], by the kind bit of the key. *)
Definition addObjCContext (merge : ContextMerge) (isProtocol : bool) :=
  if isProtocol then addObjCProtocol merge else addObjCClass merge.

(** A call of an accumulating member, and the states a session can reach
    through calls that return. *)
Inductive Call : Type :=
| CallAddObjCClass (name : string) (info : ObjCContextInfo)
| CallAddObjCProtocol (name : string) (info : ObjCContextInfo)
| CallAddObjCProperty (contextID : ContextID) (name : string)
    (isInstance : bool) (info : ObjCPropertyInfo)
| CallAddObjCMethod (contextID : ContextID) (selector : ObjCSelectorRef)
    (isInstanceMethod : bool) (info : ObjCMethodInfo)
| CallAddGlobalVariable (name : string) (info : GlobalVariableInfo)
| CallAddGlobalFunction (name : string) (info : GlobalFunctionInfo)
| CallAddEnumConstant (name : string) (info : EnumConstantInfo)
| CallAddTag (name : string) (info : TagInfo)
| CallAddTypedef (name : string) (info : TypedefInfo)
| CallAddModuleOptions (opts : ModuleOptions).

Definition perform (merge : ContextMerge) (c : Call) (w : Implementation)
  : Outcome unit :=
  match c with
  | CallAddObjCClass name info =>
      Returned tt (snd (addObjCClass merge name info w))
  | CallAddObjCProtocol name info =>
      Returned tt (snd (addObjCProtocol merge name info w))
  | CallAddObjCProperty contextID name isInstance info =>
      addObjCProperty contextID name isInstance info w
  | CallAddObjCMethod contextID selector isInstanceMethod info =>
      addObjCMethod contextID selector isInstanceMethod info w
  | CallAddGlobalVariable name info => addGlobalVariable name info w
  | CallAddGlobalFunction name info => addGlobalFunction name info w
  | CallAddEnumConstant name info => addEnumConstant name info w
  | CallAddTag name info => addTag name info w
  | CallAddTypedef name info => addTypedef name info w
  | CallAddModuleOptions opts => Returned tt (addModuleOptions opts w)
  end.

Inductive Reachable (merge : ContextMerge) : Implementation → Prop :=
| Reachable_new moduleName : Reachable merge (newWriter moduleName)
| Reachable_call w c w' :
    Reachable merge w → perform merge c w = Returned tt w' →
    Reachable merge w'.

(** Whether the key a call would store under is already taken, for the
    entity kinds that admit one record per key. *)
Definition keyTaken (c : Call) (w : Implementation) : Prop :=
  match c with
  | CallAddObjCClass _ _ | CallAddObjCProtocol _ _
  | CallAddModuleOptions _ => False
  | CallAddObjCProperty contextID name isInstance _ =>
      is_Some (ObjCProperties w
                 !! (Value contextID, fst (getIdentifier name w), isInstance))
  | CallAddObjCMethod contextID selector isInstanceMethod _ =>
      is_Some (ObjCMethods w
                 !! (Value contextID, fst (getSelector selector w),
                     isInstanceMethod))
  | CallAddGlobalVariable name _ =>
      is_Some (GlobalVariables w !! fst (getIdentifier name w))
  | CallAddGlobalFunction name _ =>
      is_Some (GlobalFunctions w !! fst (getIdentifier name w))
  | CallAddEnumConstant name _ =>
      is_Some (EnumConstants w !! fst (getIdentifier name w))
  | CallAddTag name _ => is_Some (Tags w !! fst (getIdentifier name w))
  | CallAddTypedef name _ => is_Some (Typedefs w !! fst (getIdentifier name w))
  end.

(** The entity records of a writer: everything but the interning tables. *)
Definition sameRecords (w w' : Implementation) : Prop :=
  ObjCContexts w' = ObjCContexts w ∧
  ObjCProperties w' = ObjCProperties w ∧
  ObjCMethods w' = ObjCMethods w ∧
  GlobalVariables w' = GlobalVariables w ∧
  GlobalFunctions w' = GlobalFunctions w ∧
  EnumConstants w' = EnumConstants w ∧
  Tags w' = Tags w ∧
  Typedefs w' = Typedefs w.

(** The record stored for the context with handle [h], whatever its name
    and kind. *)
Definition contextRecords (h : ContextID) (w : Implementation)
  : list ObjCContextInfo :=
  omap (λ entry : (N * bool) * (N * ObjCContextInfo),
          if decide (fst (snd entry) = Value h)
          then Some (snd (snd entry)) else None)
       (map_to_list (ObjCContexts w)).

(** ** Byte streams ([raw_ostream] with [endian::Writer<little>]) *)

Abbreviation raw_ostream := (list N).

Fixpoint little_endian (width : nat) (v : N) : list N :=
  match width with
  | O => []
  | S width' => v mod 256 :: little_endian width' (v / 256)
  end.

Definition write_uint8 (v : N) (out : raw_ostream) : raw_ostream :=
  out ++ little_endian 1 v.
Definition write_uint16 (v : N) (out : raw_ostream) : raw_ostream :=
  out ++ little_endian 2 v.
Definition write_uint32 (v : N) (out : raw_ostream) : raw_ostream :=
  out ++ little_endian 4 v.
Definition write_uint64 (v : N) (out : raw_ostream) : raw_ostream :=
  out ++ little_endian 8 v.

Fixpoint string_bytes (s : string) : list N :=
  match s with
  | EmptyString => []
  | String c rest => N_of_ascii c :: string_bytes rest
  end.

(** [std::string::size], [StringRef::size]. *)
Definition string_size (s : string) : N := N.of_nat (String.length s).

(** [out.write(s.c_str(), s.size())] and [out << s]. *)
Definition write_string (s : string) (out : raw_ostream) : raw_ostream :=
  out ++ string_bytes s.

(** The number a little-endian byte sequence denotes. *)
Fixpoint read_little_endian (bytes : list N) : N :=
  match bytes with
  | [] => 0
  | b :: rest => b + 256 * read_little_endian rest
  end.

Definition bool_N (b : bool) : N := if b then 1 else 0.

(** ** Payload encoders *)

(** [getCommonEntityInfoSize]; the result type is [unsigned]. *)
Definition getCommonEntityInfoSize (info : CommonEntityInfo) : N :=
  wrap32 (5 + string_size (UnavailableMsg info) + string_size (SwiftName info)).

(** The argument of the first [write<uint8_t>] of [emitCommonEntityInfo]. *)
Definition commonEntityFlags (info : CommonEntityInfo) : N :=
  N.lor (N.lor (N.shiftl (bool_N (SwiftPrivate info)) 2)
               (N.shiftl (bool_N (Unavailable info)) 1))
        (bool_N (UnavailableInSwift info)).

(** [emitCommonEntityInfo]. *)
Definition emitCommonEntityInfo (out : raw_ostream) (info : CommonEntityInfo)
  : raw_ostream :=
  let out := write_uint8 (commonEntityFlags info) out in
  let out := write_uint16 (string_size (UnavailableMsg info)) out in
  let out := write_string (UnavailableMsg info) out in
  let out := write_uint16 (string_size (SwiftName info)) out in
  write_string (SwiftName info) out.

(** [getCommonTypeInfoSize]. *)
Definition getCommonTypeInfoSize (info : CommonTypeInfo) : N :=
  wrap32 (2 + string_size (getSwiftBridge info) +
          2 + string_size (getNSErrorDomain info) +
          getCommonEntityInfoSize (type_entity info)).

(** [emitCommonTypeInfo]. *)
Definition emitCommonTypeInfo (out : raw_ostream) (info : CommonTypeInfo)
  : raw_ostream :=
  let out := emitCommonEntityInfo out (type_entity info) in
  let out := write_uint16 (string_size (getSwiftBridge info)) out in
  let out := write_string (getSwiftBridge info) out in
  let out := write_uint16 (string_size (getNSErrorDomain info)) out in
  write_string (getNSErrorDomain info) out.

(** [getVariableInfoSize]. *)
Definition getVariableInfoSize (info : VariableInfo) : N :=
  wrap32 (2 + getCommonEntityInfoSize (variable_entity info)).

(** The presence byte and the value byte of an optional nullability. *)
Definition nullabilityBytes (nullable : option NullabilityKind) : list N :=
  match nullable with
  | Some kind => [1; wrap8 kind]
  | None => [0; 0]
  end.

(** [emitVariableInfo]. *)
Definition emitVariableInfo (out : raw_ostream) (info : VariableInfo)
  : raw_ostream :=
  let out := emitCommonEntityInfo out (variable_entity info) in
  out ++ nullabilityBytes (getNullability info).

(** [getFunctionInfoSize]. *)
Definition getFunctionInfoSize (info : FunctionInfo) : N :=
  wrap32 (2 + 8 + getCommonEntityInfoSize (function_entity info) +
          2 + N.of_nat (length (Params info)) * 1).

(** The payload byte of one parameter in [emitFunctionInfo]. *)
Definition paramPayload (pi : ParamInfo) : N :=
  let payload := bool_N (isNoEscape pi) in
  let nullability := param_getNullability pi in
  let payload :=
    wrap8 (N.lor (N.shiftl payload 1) (bool_N (bool_decide (is_Some nullability)))) in
  let payload := wrap8 (N.shiftl payload 2) in
  match nullability with
  | Some kind => wrap8 (N.lor payload (wrap8 kind))
  | None => payload
  end.

(** [emitFunctionInfo]. *)
Definition emitFunctionInfo (out : raw_ostream) (info : FunctionInfo)
  : raw_ostream :=
  let out := emitCommonEntityInfo out (function_entity info) in
  let out := write_uint8 (bool_N (NullabilityAudited info)) out in
  let out := write_uint8 (NumAdjustedNullable info) out in
  let out := write_uint64 (NullabilityPayload info) out in
  let out := write_uint16 (N.of_nat (length (Params info))) out in
  fold_left (λ out pi, write_uint8 (paramPayload pi) out) (Params info) out.

(** ** On-disk hash table traits

    Each [...TableInfo] class of the writer gives the generator a hash,
    the two lengths of an entry, and the encoders of its key and data. *)
Record TableInfo (K V : Type) : Type := mkTableInfo {
  ComputeHash : K → N;
  EmitKeyDataLength : raw_ostream → K → V → raw_ostream * (N * N);
  EmitKey : raw_ostream → K → N → raw_ostream;
  EmitData : raw_ostream → K → V → N → raw_ostream
}.
Arguments mkTableInfo {K V}.
Arguments ComputeHash {K V}.
Arguments EmitKeyDataLength {K V}.
Arguments EmitKey {K V}.
Arguments EmitData {K V}.

(** The tail every [EmitKeyDataLength] shares: both lengths go out as
    [uint16_t] and are returned. *)
Definition emitLengths (out : raw_ostream) (keyLength dataLength : N)
  : raw_ostream * (N * N) :=
  let out := write_uint16 keyLength out in
  let out := write_uint16 dataLength out in
  (out, (keyLength, dataLength)).

(** ** Bitstream operations

    [llvm::BitstreamWriter] is a library class; a writer is modelled by
    the operations performed on it, in order.  [BCBlockRAII] enters a
    block when constructed and exits it when its scope ends; a record
    layout defines its abbreviation when constructed and emits one
    record per [emit]. *)

Inductive BlockID : Type :=
| BLOCKINFO_BLOCK_ID | CONTROL_BLOCK_ID | IDENTIFIER_BLOCK_ID
| OBJC_CONTEXT_BLOCK_ID | OBJC_PROPERTY_BLOCK_ID | OBJC_METHOD_BLOCK_ID
| OBJC_SELECTOR_BLOCK_ID | GLOBAL_VARIABLE_BLOCK_ID
| GLOBAL_FUNCTION_BLOCK_ID | ENUM_CONSTANT_BLOCK_ID | TAG_BLOCK_ID
| TYPEDEF_BLOCK_ID.

Inductive RecordKind : Type :=
| METADATA | MODULE_NAME | MODULE_OPTIONS | IDENTIFIER_DATA
| OBJC_CONTEXT_DATA | OBJC_PROPERTY_DATA | OBJC_METHOD_DATA
| OBJC_SELECTOR_DATA | GLOBAL_VARIABLE_DATA | GLOBAL_FUNCTION_DATA
| ENUM_CONSTANT_DATA | TAG_DATA | TYPEDEF_DATA.

Inductive BlockInfoCode : Type :=
| BLOCKINFO_CODE_SETBID | BLOCKINFO_CODE_BLOCKNAME
| BLOCKINFO_CODE_SETRECORDNAME.

Inductive BitstreamOp : Type :=
| Emit (val numBits : N)
| EnterSubblock (blockID : BlockID) (codeLen : N)
| ExitBlock
| EmitRecord (code : BlockInfoCode) (vals : list N)
| DefineLayout (kind : RecordKind)
| EmitLayout (kind : RecordKind) (fields : list N) (blob : list N).

Abbreviation BitstreamWriter := (list BitstreamOp).

#[global] Instance BlockID_eq_dec : EqDecision BlockID.
Proof. solve_decision. Defined.
#[global] Instance RecordKind_eq_dec : EqDecision RecordKind.
Proof. solve_decision. Defined.

(** What the file at hand takes from headers and libraries that are not
    part of the sources: the format constants of APINotesFormat.h, the
    hash functions of LLVM, and the on-disk hash table generator. *)
Record Environment : Type := mkEnvironment {
  API_NOTES_SIGNATURE : list N;
  VERSION_MAJOR : N;
  VERSION_MINOR : N;
  (* the numeric value of [X_BLOCK_ID] and of [block::RECORD] *)
  blockValue : BlockID → N;
  recordValue : RecordKind → N;
  (* llvm::HashString, llvm::hash_value, llvm::hash_combine,
     DenseMapInfo<StoredObjCSelector>::getHashValue *)
  HashString : string → N;
  hash_value_pair : N * bool → N;
  hash_value_tuple : N * N * bool → N;
  hash_combine : N → N → bool → N;
  hash_value : N → N;
  StoredObjCSelector_getHashValue : StoredObjCSelector → N;
  (* OnDiskChainedHashTableGenerator<Info>: [insert] for each entry of the
     list in turn, then [Emit] on a stream; yields the stream afterwards
     and the offset [Emit] returns *)
  generator_Emit :
    ∀ K V : Type, TableInfo K V → list (K * V) → raw_ostream → raw_ostream * N;
  (* the bytes a BitstreamWriter leaves in its buffer *)
  bitstreamBuffer : BitstreamWriter → list N
}.

Section Serialization.
Variable env : Environment.

(** [IdentifierTableInfo]. *)
Definition IdentifierTableInfo : TableInfo string IdentifierID :=
  {| ComputeHash key := HashString env key;
     EmitKeyDataLength out key data := emitLengths out (wrap32 (string_size key)) 4;
     EmitKey out key len := write_string key out;
     EmitData out key data len := write_uint32 data out |}.

(** [ObjCContextTableInfo]; [dataBytes] is 3. *)
Definition ObjCContextTableInfo
  : TableInfo (N * bool) (N * ObjCContextInfo) :=
  {| ComputeHash key := hash_value_pair env key;
     EmitKeyDataLength out key data :=
       emitLengths out (4 + 1)
         (wrap32 (4 + getCommonTypeInfoSize (context_type (snd data)) + 3));
     EmitKey out key len :=
       write_uint8 (bool_N (snd key)) (write_uint32 (fst key) out);
     EmitData out key data len :=
       let out := write_uint32 (fst data) out in
       let out := emitCommonTypeInfo out (context_type (snd data)) in
       out ++ nullabilityBytes (getDefaultNullability (snd data))
           ++ [bool_N (hasDesignatedInits (snd data))] |}.

(** [ObjCPropertyTableInfo]. *)
Definition ObjCPropertyTableInfo : TableInfo (N * N * bool) ObjCPropertyInfo :=
  {| ComputeHash key := hash_value_tuple env key;
     EmitKeyDataLength out key data :=
       emitLengths out (4 + 4 + 1) (getVariableInfoSize data);
     EmitKey out key len :=
       write_uint8 (bool_N (snd key))
         (write_uint32 (snd (fst key)) (write_uint32 (fst (fst key)) out));
     EmitData out key data len := emitVariableInfo out data |}.

(** [ObjCMethodTableInfo]. *)
Definition ObjCMethodTableInfo : TableInfo (N * N * bool) ObjCMethodInfo :=
  {| ComputeHash key :=
       hash_combine env (fst (fst key)) (snd (fst key)) (snd key);
     EmitKeyDataLength out key data :=
       emitLengths out (4 + 4 + 1)
         (wrap32 (getFunctionInfoSize (method_function data) + 3));
     EmitKey out key len :=
       write_uint8 (bool_N (snd key))
         (write_uint32 (snd (fst key)) (write_uint32 (fst (fst key)) out));
     EmitData out key data len :=
       let out := emitFunctionInfo out (method_function data) in
       let out := write_uint8 (bool_N (DesignatedInit data)) out in
       let out := write_uint8 (bool_N (FactoryAsInit data)) out in
       write_uint8 (bool_N (Required data)) out |}.

(** [ObjCSelectorTableInfo]. *)
Definition ObjCSelectorTableInfo : TableInfo StoredObjCSelector SelectorID :=
  {| ComputeHash key := StoredObjCSelector_getHashValue env key;
     EmitKeyDataLength out key data :=
       emitLengths out (wrap32 (2 + 4 * N.of_nat (length (snd key)))) 4;
     EmitKey out key len :=
       fold_left (λ out piece, write_uint32 piece out) (snd key)
                 (write_uint16 (fst key) out);
     EmitData out key data len := write_uint32 data out |}.

(** [GlobalVariableTableInfo]. *)
Definition GlobalVariableTableInfo : TableInfo N GlobalVariableInfo :=
  {| ComputeHash key := hash_value env key;
     EmitKeyDataLength out key data :=
       emitLengths out 4 (getVariableInfoSize data);
     EmitKey out key len := write_uint32 key out;
     EmitData out key data len := emitVariableInfo out data |}.

(** [GlobalFunctionTableInfo]. *)
Definition GlobalFunctionTableInfo : TableInfo N GlobalFunctionInfo :=
  {| ComputeHash key := hash_value env key;
     EmitKeyDataLength out key data :=
       emitLengths out 4 (getFunctionInfoSize data);
     EmitKey out key len := write_uint32 key out;
     EmitData out key data len := emitFunctionInfo out data |}.

(** [EnumConstantTableInfo]. *)
Definition EnumConstantTableInfo : TableInfo N EnumConstantInfo :=
  {| ComputeHash key := hash_value env key;
     EmitKeyDataLength out key data :=
       emitLengths out 4 (getCommonEntityInfoSize data);
     EmitKey out key len := write_uint32 key out;
     EmitData out key data len := emitCommonEntityInfo out data |}.

(** [TagTableInfo]. *)
Definition TagTableInfo : TableInfo N TagInfo :=
  {| ComputeHash key := hash_value env key;
     EmitKeyDataLength out key data :=
       emitLengths out 4 (getCommonTypeInfoSize data);
     EmitKey out key len := write_uint32 key out;
     EmitData out key data len := emitCommonTypeInfo out data |}.

(** [TypedefTableInfo]. *)
Definition TypedefTableInfo : TableInfo N TypedefInfo :=
  {| ComputeHash key := hash_value env key;
     EmitKeyDataLength out key data :=
       emitLengths out 4 (getCommonTypeInfoSize data);
     EmitKey out key len := write_uint32 key out;
     EmitData out key data len := emitCommonTypeInfo out data |}.

(** [emitBlockID].  The name buffer is overwritten in full on every use,
    so only its content at the [EmitRecord] is kept. *)
Definition emitBlockID (out : BitstreamWriter) (ID : N) (name : string)
  : BitstreamWriter :=
  let out := out ++ [EmitRecord BLOCKINFO_CODE_SETBID [ID]] in
  if decide (name = "") then out
  else out ++ [EmitRecord BLOCKINFO_CODE_BLOCKNAME (string_bytes name)].

(** [emitRecordID]; [None] when its assertion fails. *)
Definition emitRecordID (out : BitstreamWriter) (ID : N) (name : string)
  : option BitstreamWriter :=
  if decide (ID < 256)
  then Some (out ++ [EmitRecord BLOCKINFO_CODE_SETRECORDNAME
                       (wrap8 ID :: string_bytes name)])
  else None.

(** [Implementation::writeBlockInfoBlock]. *)
Definition writeBlockInfoBlock (writer : BitstreamWriter)
  : option BitstreamWriter :=
  let BLOCK writer X name := emitBlockID writer (blockValue env X) name in
  let BLOCK_RECORD writer X name :=
    emitRecordID writer (recordValue env X) name in
  let writer := writer ++ [EnterSubblock BLOCKINFO_BLOCK_ID 2] in
  let writer := BLOCK writer CONTROL_BLOCK_ID "CONTROL_BLOCK" in
  writer ← BLOCK_RECORD writer METADATA "METADATA";
  writer ← BLOCK_RECORD writer MODULE_NAME "MODULE_NAME";
  let writer := BLOCK writer IDENTIFIER_BLOCK_ID "IDENTIFIER_BLOCK" in
  writer ← BLOCK_RECORD writer IDENTIFIER_DATA "IDENTIFIER_DATA";
  let writer := BLOCK writer OBJC_CONTEXT_BLOCK_ID "OBJC_CONTEXT_BLOCK" in
  writer ← BLOCK_RECORD writer OBJC_CONTEXT_DATA "OBJC_CONTEXT_DATA";
  let writer := BLOCK writer OBJC_PROPERTY_BLOCK_ID "OBJC_PROPERTY_BLOCK" in
  writer ← BLOCK_RECORD writer OBJC_PROPERTY_DATA "OBJC_PROPERTY_DATA";
  let writer := BLOCK writer OBJC_METHOD_BLOCK_ID "OBJC_METHOD_BLOCK" in
  writer ← BLOCK_RECORD writer OBJC_METHOD_DATA "OBJC_METHOD_DATA";
  let writer := BLOCK writer OBJC_SELECTOR_BLOCK_ID "OBJC_SELECTOR_BLOCK" in
  writer ← BLOCK_RECORD writer OBJC_SELECTOR_DATA "OBJC_SELECTOR_DATA";
  let writer := BLOCK writer GLOBAL_VARIABLE_BLOCK_ID "GLOBAL_VARIABLE_BLOCK" in
  writer ← BLOCK_RECORD writer GLOBAL_VARIABLE_DATA "GLOBAL_VARIABLE_DATA";
  let writer := BLOCK writer GLOBAL_FUNCTION_BLOCK_ID "GLOBAL_FUNCTION_BLOCK" in
  writer ← BLOCK_RECORD writer GLOBAL_FUNCTION_DATA "GLOBAL_FUNCTION_DATA";
  Some (writer ++ [ExitBlock]).

(** [Implementation::writeControlBlock]. *)
Definition writeControlBlock (w : Implementation) (writer : BitstreamWriter)
  : BitstreamWriter :=
  let writer := writer ++ [EnterSubblock CONTROL_BLOCK_ID 3] in
  let writer := writer ++ [DefineLayout METADATA] in
  let writer :=
    writer ++ [EmitLayout METADATA [VERSION_MAJOR env; VERSION_MINOR env] []] in
  let writer := writer ++ [DefineLayout MODULE_NAME] in
  let writer :=
    writer ++ [EmitLayout MODULE_NAME [] (string_bytes (ModuleName w))] in
  let writer :=
    if SwiftInferImportAsMember w
    then writer ++ [DefineLayout MODULE_OPTIONS;
                    EmitLayout MODULE_OPTIONS
                      [bool_N (SwiftInferImportAsMember w)] []]
    else writer in
  writer ++ [ExitBlock].

(** The table of a block: the generator receives every entry, the blob
    stream receives a 32-bit zero, and [Emit] appends the table and
    returns the offset that is stored in a [uint32_t]. *)
Definition emitHashTable {K V : Type} (Info : TableInfo K V)
  (entries : list (K * V)) : N * list N :=
  let blobStream := write_uint32 0 [] in
  let '(hashTableBlob, tableOffset) :=
    generator_Emit env K V Info entries blobStream in
  (wrap32 tableOffset, hashTableBlob).

(** The body the block writers of the tables have in common: enter the
    block, leave at once when the collection is empty, otherwise build
    the table and emit it as the block's one record. *)
Definition writeTableBlock {K V : Type} `{Countable K} (blockID : BlockID)
  (kind : RecordKind) (Info : TableInfo K V) (table : gmap K V)
  (writer : BitstreamWriter) : BitstreamWriter :=
  let writer := writer ++ [EnterSubblock blockID 3] in
  let writer :=
    if decide (size table = 0%nat) then writer
    else
      let '(tableOffset, hashTableBlob) :=
        emitHashTable Info (map_to_list table) in
      writer ++ [DefineLayout kind; EmitLayout kind [tableOffset] hashTableBlob]
  in
  writer ++ [ExitBlock].

(** [Implementation::writeIdentifierBlock] and the block writers of the
    entity kinds. *)
Definition writeIdentifierBlock (w : Implementation) :=
  writeTableBlock IDENTIFIER_BLOCK_ID IDENTIFIER_DATA
    IdentifierTableInfo (IdentifierIDs w).
Definition writeObjCContextBlock (w : Implementation) :=
  writeTableBlock OBJC_CONTEXT_BLOCK_ID OBJC_CONTEXT_DATA
    ObjCContextTableInfo (ObjCContexts w).
Definition writeObjCPropertyBlock (w : Implementation) :=
  writeTableBlock OBJC_PROPERTY_BLOCK_ID OBJC_PROPERTY_DATA
    ObjCPropertyTableInfo (ObjCProperties w).
Definition writeObjCMethodBlock (w : Implementation) :=
  writeTableBlock OBJC_METHOD_BLOCK_ID OBJC_METHOD_DATA
    ObjCMethodTableInfo (ObjCMethods w).
Definition writeObjCSelectorBlock (w : Implementation) :=
  writeTableBlock OBJC_SELECTOR_BLOCK_ID OBJC_SELECTOR_DATA
    ObjCSelectorTableInfo (SelectorIDs w).
Definition writeGlobalVariableBlock (w : Implementation) :=
  writeTableBlock GLOBAL_VARIABLE_BLOCK_ID GLOBAL_VARIABLE_DATA
    GlobalVariableTableInfo (GlobalVariables w).
Definition writeGlobalFunctionBlock (w : Implementation) :=
  writeTableBlock GLOBAL_FUNCTION_BLOCK_ID GLOBAL_FUNCTION_DATA
    GlobalFunctionTableInfo (GlobalFunctions w).
Definition writeEnumConstantBlock (w : Implementation) :=
  writeTableBlock ENUM_CONSTANT_BLOCK_ID ENUM_CONSTANT_DATA
    EnumConstantTableInfo (EnumConstants w).
Definition writeTagBlock (w : Implementation) :=
  writeTableBlock TAG_BLOCK_ID TAG_DATA TagTableInfo (Tags w).
Definition writeTypedefBlock (w : Implementation) :=
  writeTableBlock TYPEDEF_BLOCK_ID TYPEDEF_DATA TypedefTableInfo (Typedefs w).

(** The operations [Implementation::writeToStream] performs on its
    bitstream writer; [None] when an assertion fails on the way. *)
Definition writeToBitstream (w : Implementation) : option BitstreamWriter :=
  let writer : BitstreamWriter :=
    fold_left (λ writer byte, writer ++ [Emit byte 8])
              (API_NOTES_SIGNATURE env) [] in
  writer ← writeBlockInfoBlock writer;
  let writer := writeControlBlock w writer in
  let writer := writeIdentifierBlock w writer in
  let writer := writeObjCContextBlock w writer in
  let writer := writeObjCPropertyBlock w writer in
  let writer := writeObjCMethodBlock w writer in
  let writer := writeObjCSelectorBlock w writer in
  let writer := writeGlobalVariableBlock w writer in
  let writer := writeGlobalFunctionBlock w writer in
  let writer := writeEnumConstantBlock w writer in
  let writer := writeTagBlock w writer in
  let writer := writeTypedefBlock w writer in
  Some writer.

(** [Implementation::writeToStream]: the buffer of the bitstream writer
    is written to [os]. *)
Definition writeToStream (w : Implementation) (os : raw_ostream)
  : option raw_ostream :=
  writer ← writeToBitstream w;
  Some (os ++ bitstreamBuffer env writer).

End Serialization.

(** ** Vocabulary of the statements *)

(** The distinct non-empty strings of [l] that are not in [seen], in the
    order of their first occurrence. *)
Fixpoint firstSeenAfter (seen l : list string) : list string :=
  match l with
  | [] => []
  | s :: rest =>
      if decide (s = "" ∨ s ∈ seen) then firstSeenAfter seen rest
      else s :: firstSeenAfter (seen ++ [s]) rest
  end.

Definition firstSeen (l : list string) : list string := firstSeenAfter [] l.

(** The identifier table numbers the strings of [order] 1, 2, ... and
    holds nothing else. *)
Definition Numbered (order : list string) (m : gmap string IdentifierID)
  : Prop :=
  NoDup order ∧ ("" ∉ order) ∧ size m = length order ∧
  ∀ s id, m !! s = Some id ↔
          ∃ i : nat, order !! i = Some s ∧ id = N.of_nat (S i).

(** The ID under which a string is interned in [w]; 0 for the empty
    string and for a string the table does not hold. *)
Definition storedIdentifier (w : Implementation) (s : string) : IdentifierID :=
  if decide (s = "") then 0 else default 0 (IdentifierIDs w !! s).

(** The interning tables are sound: identifier IDs are positive, at most
    the size of the table and pairwise distinct, and the empty string is
    not a key; selector IDs are below the size of their table and
    pairwise distinct. *)
Definition IdentifiersOk (m : gmap string IdentifierID) : Prop :=
  m !! "" = None ∧
  (∀ s id, m !! s = Some id → 1 ≤ id ≤ N.of_nat (size m)) ∧
  (∀ s t id, m !! s = Some id → m !! t = Some id → s = t).

Definition SelectorsOk (m : gmap StoredObjCSelector SelectorID) : Prop :=
  (∀ k id, m !! k = Some id → id < N.of_nat (size m)) ∧
  (∀ k1 k2 id, m !! k1 = Some id → m !! k2 = Some id → k1 = k2).

(** Every context record carries a handle between 1 and the number of
    contexts, the reverse mapping sends the handle to the identifier ID
    of the context's name, and no two contexts share a handle. *)
Definition ContextTablesOk (contexts : gmap (N * bool) (N * ObjCContextInfo))
  (names : gmap N N) : Prop :=
  (∀ key cid info, contexts !! key = Some (cid, info) →
     1 ≤ cid ≤ N.of_nat (size contexts) ∧ names !! cid = Some (fst key)) ∧
  (∀ k1 k2 cid info1 info2,
     contexts !! k1 = Some (cid, info1) → contexts !! k2 = Some (cid, info2) →
     k1 = k2).

Definition ContextsOk (w : Implementation) : Prop :=
  ContextTablesOk (ObjCContexts w) (ObjCContextNames w).

Definition WriterOk (w : Implementation) : Prop :=
  IdentifiersOk (IdentifierIDs w) ∧ SelectorsOk (SelectorIDs w) ∧ ContextsOk w.

(** The three tables whose size feeds an ID are within 32-bit range. *)
Definition Bounded (w : Implementation) : Prop :=
  N.of_nat (size (IdentifierIDs w)) < 2 ^ 32 ∧
  N.of_nat (size (SelectorIDs w)) < 2 ^ 32 ∧
  N.of_nat (size (ObjCContexts w)) < 2 ^ 32.

(** The strings a call hands to [getIdentifier], in order. *)
Definition internedBy (c : Call) : list string :=
  match c with
  | CallAddObjCClass name _ | CallAddObjCProtocol name _
  | CallAddObjCProperty _ name _ _
  | CallAddGlobalVariable name _ | CallAddGlobalFunction name _
  | CallAddEnumConstant name _ | CallAddTag name _ | CallAddTypedef name _ =>
      [name]
  | CallAddObjCMethod _ selector _ _ => Identifiers selector
  | CallAddModuleOptions _ => []
  end.

(** ** Vocabulary of the serialization statements *)

(** The ten tables the writer serializes, each in a block of its own. *)
Inductive Table : Type :=
| IdentifierTable | ObjCContextTable | ObjCPropertyTable | ObjCMethodTable
| ObjCSelectorTable | GlobalVariableTable | GlobalFunctionTable
| EnumConstantTable | TagTable | TypedefTable.

Definition tableSize (t : Table) (w : Implementation) : nat :=
  match t with
  | IdentifierTable => size (IdentifierIDs w)
  | ObjCContextTable => size (ObjCContexts w)
  | ObjCPropertyTable => size (ObjCProperties w)
  | ObjCMethodTable => size (ObjCMethods w)
  | ObjCSelectorTable => size (SelectorIDs w)
  | GlobalVariableTable => size (GlobalVariables w)
  | GlobalFunctionTable => size (GlobalFunctions w)
  | EnumConstantTable => size (EnumConstants w)
  | TagTable => size (Tags w)
  | TypedefTable => size (Typedefs w)
  end.

Definition tableBlock (t : Table) : BlockID :=
  match t with
  | IdentifierTable => IDENTIFIER_BLOCK_ID
  | ObjCContextTable => OBJC_CONTEXT_BLOCK_ID
  | ObjCPropertyTable => OBJC_PROPERTY_BLOCK_ID
  | ObjCMethodTable => OBJC_METHOD_BLOCK_ID
  | ObjCSelectorTable => OBJC_SELECTOR_BLOCK_ID
  | GlobalVariableTable => GLOBAL_VARIABLE_BLOCK_ID
  | GlobalFunctionTable => GLOBAL_FUNCTION_BLOCK_ID
  | EnumConstantTable => ENUM_CONSTANT_BLOCK_ID
  | TagTable => TAG_BLOCK_ID
  | TypedefTable => TYPEDEF_BLOCK_ID
  end.

Definition tableRecord (t : Table) : RecordKind :=
  match t with
  | IdentifierTable => IDENTIFIER_DATA
  | ObjCContextTable => OBJC_CONTEXT_DATA
  | ObjCPropertyTable => OBJC_PROPERTY_DATA
  | ObjCMethodTable => OBJC_METHOD_DATA
  | ObjCSelectorTable => OBJC_SELECTOR_DATA
  | GlobalVariableTable => GLOBAL_VARIABLE_DATA
  | GlobalFunctionTable => GLOBAL_FUNCTION_DATA
  | EnumConstantTable => ENUM_CONSTANT_DATA
  | TagTable => TAG_DATA
  | TypedefTable => TYPEDEF_DATA
  end.

(** The block writer of a table. *)
Definition writeBlock (env : Environment) (t : Table) (w : Implementation)
  (writer : BitstreamWriter) : BitstreamWriter :=
  match t with
  | IdentifierTable => writeIdentifierBlock env w writer
  | ObjCContextTable => writeObjCContextBlock env w writer
  | ObjCPropertyTable => writeObjCPropertyBlock env w writer
  | ObjCMethodTable => writeObjCMethodBlock env w writer
  | ObjCSelectorTable => writeObjCSelectorBlock env w writer
  | GlobalVariableTable => writeGlobalVariableBlock env w writer
  | GlobalFunctionTable => writeGlobalFunctionBlock env w writer
  | EnumConstantTable => writeEnumConstantBlock env w writer
  | TagTable => writeTagBlock env w writer
  | TypedefTable => writeTypedefBlock env w writer
  end.

(** The emitters of a table info only append to the stream. *)
Definition InfoAppends {K V : Type} (Info : TableInfo K V) : Prop :=
  (∀ out k v, ∃ bytes, fst (EmitKeyDataLength Info out k v) = out ++ bytes) ∧
  (∀ out k len, ∃ bytes, EmitKey Info out k len = out ++ bytes) ∧
  (∀ out k v len, ∃ bytes, EmitData Info out k v len = out ++ bytes).

(** What the writer relies on from the generator: given emitters that
    only append, [Emit] appends to the stream, and the offset it returns
    is a position of the stream at or after the point where it began. *)
Definition GeneratorAppends (env : Environment) : Prop :=
  ∀ (K V : Type) (Info : TableInfo K V) entries out,
    InfoAppends Info →
    ∃ body,
      fst (generator_Emit env K V Info entries out) = out ++ body ∧
      N.of_nat (length out) ≤ snd (generator_Emit env K V Info entries out)
      ∧ snd (generator_Emit env K V Info entries out)
        ≤ N.of_nat (length (out ++ body)).

(** The lengths a table info announces are the lengths it emits:
    [EmitKeyDataLength] appends the two lengths as [uint16_t] and
    returns them, [EmitKey] and [EmitData] append bytes, and each
    returned length is the number of bytes appended, as a 32-bit
    number. *)
Definition LengthsMatch {K V : Type} (Info : TableInfo K V) : Prop :=
  ∀ out k v,
    ∃ keyLength dataLength keyBytes dataBytes,
      EmitKeyDataLength Info out k v =
        (out ++ little_endian 2 keyLength ++ little_endian 2 dataLength,
         (keyLength, dataLength))
      ∧ (∀ o, EmitKey Info o k keyLength = o ++ keyBytes)
      ∧ (∀ o, EmitData Info o k v dataLength = o ++ dataBytes)
      ∧ keyLength = wrap32 (N.of_nat (length keyBytes))
      ∧ dataLength = wrap32 (N.of_nat (length dataBytes)).

(** An operation that neither enters nor exits a block. *)
Definition flatOp (op : BitstreamOp) : Prop :=
  match op with
  | EnterSubblock _ _ | ExitBlock => False
  | _ => True
  end.

(** [ops] is one block: entered, a body without nested blocks, exited. *)
Definition isBlock (blockID : BlockID) (codeLen : N) (ops : list BitstreamOp)
  : Prop :=
  ∃ body, ops = EnterSubblock blockID codeLen :: body ++ [ExitBlock]
          ∧ Forall flatOp body.

(** The record kinds a run of operations emits through layouts. *)
Definition layoutsEmitted (ops : list BitstreamOp) : list RecordKind :=
  omap (λ op, match op with EmitLayout kind _ _ => Some kind | _ => None end)
       ops.

(** An environment to run the serializer in: the constants of the format
    as far as they matter here, a hash that sends everything to 0, and a
    generator that lays the entries out one after the other and ends
    with their number, returning the offset of that number. *)
Definition sequentialEmit (K V : Type) (Info : TableInfo K V)
  (entries : list (K * V)) (out : list N) : list N * N :=
  let out :=
    fold_left
      (λ out (entry : K * V),
         let '(out, (keyLength, dataLength)) :=
           EmitKeyDataLength Info out (fst entry) (snd entry) in
         let out := EmitKey Info out (fst entry) keyLength in
         EmitData Info out (fst entry) (snd entry) dataLength)
      entries out in
  (write_uint32 (N.of_nat (length entries)) out, N.of_nat (length out)).

Definition blockNumber (blockID : BlockID) : N :=
  match blockID with
  | BLOCKINFO_BLOCK_ID => 0 | CONTROL_BLOCK_ID => 8
  | IDENTIFIER_BLOCK_ID => 9 | OBJC_CONTEXT_BLOCK_ID => 10
  | OBJC_PROPERTY_BLOCK_ID => 11 | OBJC_METHOD_BLOCK_ID => 12
  | OBJC_SELECTOR_BLOCK_ID => 13 | GLOBAL_VARIABLE_BLOCK_ID => 14
  | GLOBAL_FUNCTION_BLOCK_ID => 15 | ENUM_CONSTANT_BLOCK_ID => 16
  | TAG_BLOCK_ID => 17 | TYPEDEF_BLOCK_ID => 18
  end.

Definition sampleEnvironment : Environment :=
  {| API_NOTES_SIGNATURE := [226; 156; 168; 1];
     VERSION_MAJOR := 0; VERSION_MINOR := 24;
     blockValue := blockNumber;
     recordValue := λ kind,
       match kind with
       | MODULE_NAME => 2 | MODULE_OPTIONS => 3 | _ => 1
       end;
     HashString := λ _, 0;
     hash_value_pair := λ _, 0;
     hash_value_tuple := λ _, 0;
     hash_combine := λ _ _ _, 0;
     hash_value := λ _, 0;
     StoredObjCSelector_getHashValue := λ _, 0;
     generator_Emit := sequentialEmit;
     bitstreamBuffer := λ _, [] |}.

(** ** Sample data *)

Definition sel_fontWithName_size : ObjCSelectorRef :=
  {| NumPieces := 2; Identifiers := ["fontWithName"; "size"] |}.
Definition sel_fontWithName : ObjCSelectorRef :=
  {| NumPieces := 1; Identifiers := ["fontWithName"] |}.
(** [init] takes no argument, [init:] takes one. *)
Definition sel_init_0 : ObjCSelectorRef :=
  {| NumPieces := 0; Identifiers := ["init"] |}.
Definition sel_init_1 : ObjCSelectorRef :=
  {| NumPieces := 1; Identifiers := ["init"] |}.

(** ** Sessions *)

(** [w'] is a later state of [w]: interned IDs and context handles are
    kept, and the three sized tables did not shrink. *)
Definition extends (w w' : Implementation) : Prop :=
  (∀ s id, IdentifierIDs w !! s = Some id → IdentifierIDs w' !! s = Some id) ∧
  (∀ k id, SelectorIDs w !! k = Some id → SelectorIDs w' !! k = Some id) ∧
  (∀ key cid info, ObjCContexts w !! key = Some (cid, info) →
     ∃ info', ObjCContexts w' !! key = Some (cid, info')) ∧
  (size (IdentifierIDs w) ≤ size (IdentifierIDs w'))%nat ∧
  (size (SelectorIDs w) ≤ size (SelectorIDs w'))%nat ∧
  (size (ObjCContexts w) ≤ size (ObjCContexts w'))%nat.

(** The state an outcome carries. *)
Definition finalState {A : Type} (o : Outcome A) : Implementation :=
  match o with
  | Returned _ w => w
  | AssertionFailed w => w
  end.

(** A run of calls, all of which return. *)
Fixpoint performAll (merge : ContextMerge) (calls : list Call)
  (w : Implementation) : Outcome unit :=
  match calls with
  | [] => Returned tt w
  | c :: rest =>
      match perform merge c w with
      | Returned _ w1 => performAll merge rest w1
      | AssertionFailed w1 => AssertionFailed w1
      end
  end.

Definition sampleEntity : CommonEntityInfo :=
  {| UnavailableMsg := "bad"; Unavailable := true;
     UnavailableInSwift := false; SwiftPrivate := false; SwiftName := "" |}.

Definition plainContext : ObjCContextInfo :=
  {| context_type :=
       {| type_entity := sampleEntity; getSwiftBridge := "";
          getNSErrorDomain := "" |};
     getDefaultNullability := None;
     hasDesignatedInits := false |}.

Definition designatedContext : ObjCContextInfo :=
  setHasDesignatedInits true plainContext.

Definition nullableProperty : ObjCPropertyInfo :=
  {| variable_entity := sampleEntity; getNullability := Some 1 |}.

Definition designatedMethod : ObjCMethodInfo :=
  {| method_function :=
       {| function_entity := sampleEntity; NullabilityAudited := true;
          NumAdjustedNullable := 1; NullabilityPayload := 2;
          Params := [ {| isNoEscape := true;
                         param_getNullability := Some 2 |} ] |};
     DesignatedInit := true; FactoryAsInit := false; Required := false |}.

(** A class and a protocol of the same name, added in this order. *)
Definition withClassA : ContextID * Implementation :=
  addObjCClass orFlags "A" plainContext (newWriter "M").
Definition withProtocolA : ContextID * Implementation :=
  addObjCProtocol orFlags "A" plainContext (snd withClassA).

(** A protocol alone. *)
Definition withProtocolP : ContextID * Implementation :=
  addObjCProtocol orFlags "P" plainContext (newWriter "M").

(** A class with one instance property. *)
Definition withFooBar : Implementation :=
  finalState
    (performAll orFlags
       [CallAddObjCClass "Foo" plainContext;
        CallAddObjCProperty (mkContextID 1) "bar" true nullableProperty]
       (newWriter "M")).

(** An info fits the format: every string is shorter than 2^16 bytes and
    a nullability kind fits in a byte. *)
Definition EntityFits (info : CommonEntityInfo) : Prop :=
  string_size (UnavailableMsg info) < 2 ^ 16 ∧
  string_size (SwiftName info) < 2 ^ 16.

Definition TypeFits (info : CommonTypeInfo) : Prop :=
  EntityFits (type_entity info) ∧
  string_size (getSwiftBridge info) < 2 ^ 16 ∧
  string_size (getNSErrorDomain info) < 2 ^ 16.

Definition NullabilityFits (nullable : option NullabilityKind) : Prop :=
  match nullable with
  | Some kind => kind < 256
  | None => True
  end.

Definition VariableFits (info : VariableInfo) : Prop :=
  EntityFits (variable_entity info) ∧ NullabilityFits (getNullability info).

Definition ParamFits (pi : ParamInfo) : Prop :=
  match param_getNullability pi with
  | Some kind => kind < 4
  | None => True
  end.

Definition FunctionFits (info : FunctionInfo) : Prop :=
  EntityFits (function_entity info) ∧
  NumAdjustedNullable info < 256 ∧
  NullabilityPayload info < 2 ^ 64 ∧
  N.of_nat (length (Params info)) < 2 ^ 16 ∧
  Forall ParamFits (Params info).

Definition ContextDataFits (data : N * ObjCContextInfo) : Prop :=
  fst data < 2 ^ 32 ∧ TypeFits (context_type (snd data)) ∧
  NullabilityFits (getDefaultNullability (snd data)).

(** Keys whose components fit their fields: 32 bits for an ID, 16 bits
    for a piece count. *)
Definition ContextKeyFits (key : N * bool) : Prop := fst key < 2 ^ 32.

Definition MemberKeyFits (key : N * N * bool) : Prop :=
  fst (fst key) < 2 ^ 32 ∧ snd (fst key) < 2 ^ 32.

Definition SelectorKeyFits (key : StoredObjCSelector) : Prop :=
  fst key < 2 ^ 16 ∧ Forall (λ piece, piece < 2 ^ 32) (snd key).

(** Every record of [w] other than a context is in [w'], unchanged. *)
Definition recordsKept (w w' : Implementation) : Prop :=
  (∀ k v, ObjCProperties w !! k = Some v → ObjCProperties w' !! k = Some v) ∧
  (∀ k v, ObjCMethods w !! k = Some v → ObjCMethods w' !! k = Some v) ∧
  (∀ k v, GlobalVariables w !! k = Some v → GlobalVariables w' !! k = Some v) ∧
  (∀ k v, GlobalFunctions w !! k = Some v → GlobalFunctions w' !! k = Some v) ∧
  (∀ k v, EnumConstants w !! k = Some v → EnumConstants w' !! k = Some v) ∧
  (∀ k v, Tags w !! k = Some v → Tags w' !! k = Some v) ∧
  (∀ k v, Typedefs w !! k = Some v → Typedefs w' !! k = Some v).

(** The writer holds what a call added, under the key made of the IDs
    its names are interned to: the info as given, or for a context some
    record for that name and kind. *)
Definition holds (c : Call) (w : Implementation) : Prop :=
  match c with
  | CallAddObjCClass name _ =>
      is_Some (ObjCContexts w !! (storedIdentifier w name, false))
  | CallAddObjCProtocol name _ =>
      is_Some (ObjCContexts w !! (storedIdentifier w name, true))
  | CallAddObjCProperty contextID name isInstance info =>
      ObjCProperties w !! (Value contextID, storedIdentifier w name, isInstance)
      = Some info
  | CallAddObjCMethod contextID selector isInstanceMethod info =>
      ∃ selectorID,
        SelectorIDs w
          !! (NumPieces selector,
              map (storedIdentifier w) (Identifiers selector))
        = Some selectorID
        ∧ ObjCMethods w !! (Value contextID, selectorID, isInstanceMethod)
          = Some info
  | CallAddGlobalVariable name info =>
      GlobalVariables w !! storedIdentifier w name = Some info
  | CallAddGlobalFunction name info =>
      GlobalFunctions w !! storedIdentifier w name = Some info
  | CallAddEnumConstant name info =>
      EnumConstants w !! storedIdentifier w name = Some info
  | CallAddTag name info => Tags w !! storedIdentifier w name = Some info
  | CallAddTypedef name info =>
      Typedefs w !! storedIdentifier w name = Some info
  | CallAddModuleOptions _ => True
  end.

(** The tables in the order in which their blocks are written. *)
Definition allTables : list Table :=
  [IdentifierTable; ObjCContextTable; ObjCPropertyTable; ObjCMethodTable;
   ObjCSelectorTable; GlobalVariableTable; GlobalFunctionTable;
   EnumConstantTable; TagTable; TypedefTable].


(** * Properties *)

(** ** Fixed-width integers *)

Lemma wrap32_small n : n < 2 ^ 32 → wrap32 n = n.
Proof. intros H. unfold wrap32. by apply N.mod_small. Qed.

Lemma wrap16_small n : n < 2 ^ 16 → wrap16 n = n.
Proof. intros H. unfold wrap16. by apply N.mod_small. Qed.

(** ** Identifier interning *)

Lemma getIdentifier_empty w : getIdentifier "" w = (0, w).
Proof. reflexivity. Qed.

Lemma getIdentifier_known s id w :
  s ≠ "" → IdentifierIDs w !! s = Some id → getIdentifier s w = (id, w).
Proof.
  intros Hs Hid. unfold getIdentifier.
  destruct (decide (s = "")) as [|_]; [done|]. by rewrite Hid.
Qed.

Lemma getIdentifier_fresh s w :
  s ≠ "" → IdentifierIDs w !! s = None →
  getIdentifier s w =
    (wrap32 (N.of_nat (size (IdentifierIDs w)) + 1),
     with_IdentifierIDs
       (<[s := wrap32 (N.of_nat (size (IdentifierIDs w)) + 1)]>
          (IdentifierIDs w)) w).
Proof.
  intros Hs Hid. unfold getIdentifier.
  destruct (decide (s = "")) as [|_]; [done|]. by rewrite Hid.
Qed.

(** Three cases cover a call of [getIdentifier]. *)
Lemma getIdentifier_cases s w :
  (s = "" ∧ getIdentifier s w = (0, w)) ∨
  (s ≠ "" ∧ ∃ id, IdentifierIDs w !! s = Some id ∧ getIdentifier s w = (id, w)) ∨
  (s ≠ "" ∧ IdentifierIDs w !! s = None ∧
   getIdentifier s w =
     (wrap32 (N.of_nat (size (IdentifierIDs w)) + 1),
      with_IdentifierIDs
        (<[s := wrap32 (N.of_nat (size (IdentifierIDs w)) + 1)]>
           (IdentifierIDs w)) w)).
Proof.
  destruct (decide (s = "")) as [->|Hs]; [left; done|right].
  destruct (IdentifierIDs w !! s) as [id|] eqn:Hid.
  - left. split; [done|]. exists id. split; [done|]. by apply getIdentifier_known.
  - right. split; [done|]. split; [done|]. by apply getIdentifier_fresh.
Qed.

(** A string that has an ID keeps it. *)
Lemma getIdentifier_keeps t s id w :
  IdentifierIDs w !! s = Some id →
  IdentifierIDs (snd (getIdentifier t w)) !! s = Some id.
Proof.
  intros Hs.
  destruct (getIdentifier_cases t w) as [[_ ->]|[(_ & k & _ & ->)|(_ & Ht & ->)]];
    simpl; try done.
  rewrite lookup_insert_ne; [done|]. intros ->. congruence.
Qed.

Lemma getIdentifiers_keeps l s id w :
  IdentifierIDs w !! s = Some id →
  IdentifierIDs (snd (getIdentifiers l w)) !! s = Some id.
Proof.
  revert w. induction l as [|t l IH]; intros w Hs; [done|].
  simpl. destruct (getIdentifier t w) as [k w1] eqn:E1.
  destruct (getIdentifiers l w1) as [ks w2] eqn:E2. simpl.
  change w2 with (snd (ks, w2)). rewrite <- E2. apply IH.
  change w1 with (snd (k, w1)). rewrite <- E1. by apply getIdentifier_keeps.
Qed.

(** After a call, the string is in the table under the ID returned (the
    empty string apart). *)
Lemma getIdentifier_stored s w :
  s ≠ "" →
  IdentifierIDs (snd (getIdentifier s w)) !! s = Some (fst (getIdentifier s w)).
Proof.
  intros Hs.
  destruct (getIdentifier_cases s w) as [[? _]|[(_ & k & Hk & ->)|(_ & Ht & ->)]];
    simpl; [done|done|]. by rewrite lookup_insert_eq.
Qed.

Lemma getIdentifier_again s w between :
  fst (getIdentifier s (snd (getIdentifiers between (snd (getIdentifier s w)))))
  = fst (getIdentifier s w).
Proof.
  destruct (decide (s = "")) as [->|Hs]; [done|].
  pose proof (getIdentifier_stored s w Hs) as Hst.
  apply (getIdentifiers_keeps between) in Hst.
  by rewrite (getIdentifier_known _ _ _ Hs Hst).
Qed.

Lemma getIdentifier_twice s w :
  getIdentifier s (snd (getIdentifier s w)) =
    (fst (getIdentifier s w), snd (getIdentifier s w)).
Proof.
  destruct (decide (s = "")) as [->|Hs]; [done|].
  by apply getIdentifier_known, getIdentifier_stored.
Qed.

Lemma getIdentifiers_returns l w :
  fst (getIdentifiers l w) = map (storedIdentifier (snd (getIdentifiers l w))) l.
Proof.
  revert w. induction l as [|t l IH]; intros w; [done|].
  simpl. destruct (getIdentifier t w) as [k w1] eqn:E1.
  specialize (IH w1). destruct (getIdentifiers l w1) as [ks w2] eqn:E2.
  simpl in *. f_equal; [|done].
  unfold storedIdentifier. destruct (decide (t = "")) as [->|Ht].
  - by inversion E1.
  - pose proof (getIdentifier_stored t w Ht) as Hst. rewrite E1 in Hst.
    simpl in Hst. apply (getIdentifiers_keeps l) in Hst.
    rewrite E2 in Hst. simpl in Hst. by rewrite Hst.
Qed.

Lemma Numbered_empty : Numbered [] ∅.
Proof.
  split; [constructor|]. split; [by intros ?%elem_of_nil|].
  split; [done|]. intros s id. rewrite lookup_empty. split; [done|].
  intros (i & Hi & _). by rewrite lookup_nil in Hi.
Qed.

Lemma Numbered_lookup_None order m s :
  Numbered order m → s ∉ order → m !! s = None.
Proof.
  intros (_ & _ & _ & Hm) Hs. destruct (m !! s) as [id|] eqn:E; [|done].
  apply Hm in E as (i & Hi & _). exfalso. apply Hs.
  by apply list_elem_of_lookup_2 in Hi.
Qed.

Lemma Numbered_lookup_Some order m s :
  Numbered order m → s ∈ order → is_Some (m !! s).
Proof.
  intros (_ & _ & _ & Hm) [i Hi]%list_elem_of_lookup_1.
  exists (N.of_nat (S i)). apply Hm. by exists i.
Qed.

Lemma Numbered_step order m s :
  Numbered order m → s ≠ "" → s ∉ order →
  N.of_nat (length order) + 1 < 2 ^ 32 →
  Numbered (order ++ [s]) (<[s := wrap32 (N.of_nat (size m) + 1)]> m).
Proof.
  intros HN Hs Hnew Hbound.
  pose proof (Numbered_lookup_None _ _ _ HN Hnew) as Hnone.
  destruct HN as (Hnd & Hne & Hsize & Hm).
  rewrite Hsize, (wrap32_small _ Hbound).
  split.
  { apply NoDup_app. split; [done|]. split; [|apply NoDup_singleton].
    intros x Hx ->%list_elem_of_singleton. done. }
  split.
  { intros [H|H%list_elem_of_singleton]%elem_of_app; [done|]. by apply Hs. }
  split.
  { rewrite map_size_insert_None by done. rewrite length_app. simpl. lia. }
  intros t id. destruct (decide (t = s)) as [->|Hts].
  - rewrite lookup_insert_eq. split.
    + intros [= <-]. exists (length order). split; [|lia].
      by rewrite lookup_app_r, Nat.sub_diag by lia.
    + intros (i & Hi & ->). f_equal.
      destruct (decide (i < length order)%nat) as [Hlt|Hge].
      * rewrite lookup_app_l in Hi by done. exfalso. apply Hnew.
        by apply list_elem_of_lookup_2 in Hi.
      * apply lookup_lt_Some in Hi. rewrite length_app in Hi. simpl in Hi.
        assert (i = length order) as -> by lia. lia.
  - rewrite lookup_insert_ne by done. rewrite Hm. split.
    + intros (i & Hi & ->). exists i. split; [|done].
      by apply lookup_app_l_Some.
    + intros (i & Hi & ->). exists i. split; [|done].
      apply lookup_app_Some in Hi as [Hi|[_ Hi]]; [done|].
      apply list_elem_of_lookup_2, list_elem_of_singleton in Hi. congruence.
Qed.

Lemma getIdentifiers_Numbered l order w :
  Numbered order (IdentifierIDs w) →
  N.of_nat (length (order ++ firstSeenAfter order l)) < 2 ^ 32 →
  Numbered (order ++ firstSeenAfter order l)
           (IdentifierIDs (snd (getIdentifiers l w))).
Proof.
  revert order w. induction l as [|s l IH]; intros order w HN Hbound.
  { simpl. by rewrite app_nil_r. }
  simpl in *. destruct (getIdentifier s w) as [k w1] eqn:E1.
  destruct (getIdentifiers l w1) as [ks w2] eqn:E2. simpl.
  change w2 with (snd (ks, w2)). rewrite <- E2.
  destruct (decide (s = "" ∨ s ∈ order)) as [Hold|Hnew].
  - apply IH; [|done].
    assert (w1 = w) as ->; [|done].
    destruct Hold as [->|Hin]; [by inversion E1|].
    destruct (Numbered_lookup_Some _ _ _ HN Hin) as [id Hid].
    destruct (decide (s = "")) as [->|Hs]; [by inversion E1|].
    rewrite (getIdentifier_known _ _ _ Hs Hid) in E1. by inversion E1.
  - assert (s ≠ "" ∧ s ∉ order) as [Hs Hnin] by tauto.
    assert (∀ X, order ++ s :: X = (order ++ [s]) ++ X) as Hmid
      by (intros; by rewrite <- app_assoc).
    rewrite Hmid in *.
    apply IH; [|done].
    rewrite (getIdentifier_fresh s w Hs) in E1
      by (by eapply Numbered_lookup_None).
    inversion E1; subst; simpl. apply Numbered_step; try done.
    rewrite !length_app in Hbound. simpl in Hbound. lia.
Qed.

(** C4. Interning an identifier is idempotent within a session: a string
    gets the ID of its first call on every later call, whatever is
    interned in between, and the repeated call leaves the writer as it
    is; the empty string gets ID 0 and never enters the table; from a
    new writer, the distinct non-empty strings are numbered 1, 2, ... in
    the order in which they are first seen, and every call returns the
    number the table holds at the end. *)
Theorem getIdentifier_idempotent_first_seen
  (w : Implementation) (s : string) (between l : list string)
  (moduleName : string) :
  N.of_nat (length (firstSeen l)) < 2 ^ 32 →
  let session := getIdentifiers l (newWriter moduleName) in
  fst (getIdentifier s (snd (getIdentifiers between (snd (getIdentifier s w)))))
    = fst (getIdentifier s w)
  ∧ getIdentifier s (snd (getIdentifier s w)) = getIdentifier s w
  ∧ getIdentifier "" w = (0, w)
  ∧ (∀ (i : nat) t, firstSeen l !! i = Some t →
       IdentifierIDs (snd session) !! t = Some (N.of_nat i + 1))
  ∧ size (IdentifierIDs (snd session)) = length (firstSeen l)
  ∧ IdentifierIDs (snd session) !! "" = None
  ∧ fst session = map (storedIdentifier (snd session)) l.
Proof.
  intros Hbound session.
  split; [apply getIdentifier_again|].
  split; [rewrite getIdentifier_twice; by destruct (getIdentifier s w)|].
  split; [done|].
  pose proof (getIdentifiers_Numbered l [] (newWriter moduleName)
                Numbered_empty Hbound) as HN.
  simpl in HN. fold (firstSeen l) in HN. fold session in HN.
  split.
  { intros i t Hi. destruct HN as (_ & _ & _ & Hm). apply Hm.
    exists i. split; [done|lia]. }
  split; [by destruct HN as (_ & _ & ? & _)|].
  split; [|apply getIdentifiers_returns].
  eapply Numbered_lookup_None; [exact HN|]. by destruct HN as (_ & ? & _).
Qed.

Lemma getIdentifier_idempotent_first_seen_witness :
  N.of_nat (length (firstSeen ["init"; "size"; ""; "init"; "font"])) < 2 ^ 32
  ∧ fst (getIdentifiers ["init"; "size"; ""; "init"; "font"] (newWriter "M"))
    = map (storedIdentifier
             (snd (getIdentifiers ["init"; "size"; ""; "init"; "font"]
                     (newWriter "M"))))
          ["init"; "size"; ""; "init"; "font"].
Proof.
  split; [vm_compute; reflexivity|].
  apply (getIdentifier_idempotent_first_seen
           (newWriter "M") "size" ["font"]
           ["init"; "size"; ""; "init"; "font"] "M").
  vm_compute; reflexivity.
Defined.

Example getIdentifiers_demo :
  fst (getIdentifiers ["init"; "size"; ""; "init"; "font"] (newWriter "M"))
  = [1; 2; 0; 1; 3]
  ∧ firstSeen ["init"; "size"; ""; "init"; "font"] = ["init"; "size"; "font"].
Proof. vm_compute. done. Qed.

(** ** The interning tables stay sound *)

Lemma IdentifiersOk_empty : IdentifiersOk ∅.
Proof. split; [done|]. split; intros *; by rewrite lookup_empty. Qed.

Lemma SelectorsOk_empty : SelectorsOk ∅.
Proof. split; intros *; by rewrite lookup_empty. Qed.

Lemma IdentifiersOk_insert m s :
  IdentifiersOk m → s ≠ "" → m !! s = None →
  N.of_nat (size m) + 1 < 2 ^ 32 →
  IdentifiersOk (<[s := wrap32 (N.of_nat (size m) + 1)]> m).
Proof.
  intros (Hempty & Hrange & Hinj) Hs Hnone Hbound.
  rewrite (wrap32_small _ Hbound).
  split; [by rewrite lookup_insert_ne|]. split.
  - intros t id. rewrite map_size_insert_None by done.
    destruct (decide (s = t)) as [->|Hne].
    + rewrite lookup_insert_eq. intros [= <-]. lia.
    + rewrite lookup_insert_ne by done. intros H%Hrange. lia.
  - intros t u id.
    destruct (decide (s = t)) as [Hst|Hst], (decide (s = u)) as [Hsu|Hsu];
      subst; rewrite ?lookup_insert_eq, ?lookup_insert_ne by done; try done.
    + intros [= <-] H%Hrange. lia.
    + intros H%Hrange [= <-]. lia.
    + apply Hinj.
Qed.

Lemma SelectorsOk_insert (m : gmap (N * list N) N) k :
  SelectorsOk m → m !! k = None → N.of_nat (size m) < 2 ^ 32 →
  SelectorsOk (<[k := wrap32 (N.of_nat (size m))]> m).
Proof.
  intros (Hrange & Hinj) Hnone Hbound.
  rewrite (wrap32_small _ Hbound). split.
  - intros t id. rewrite map_size_insert_None by done.
    destruct (decide (k = t)) as [->|Hne].
    + rewrite lookup_insert_eq. intros [= <-]. lia.
    + rewrite lookup_insert_ne by done. intros H%Hrange. lia.
  - intros t u id.
    destruct (decide (k = t)) as [Hst|Hst], (decide (k = u)) as [Hsu|Hsu];
      subst; rewrite ?lookup_insert_eq, ?lookup_insert_ne by done; try done.
    + intros [= <-] H%Hrange. lia.
    + intros H%Hrange [= <-]. lia.
    + apply Hinj.
Qed.

Lemma getIdentifier_size s w :
  (size (IdentifierIDs w) ≤ size (IdentifierIDs (snd (getIdentifier s w))))%nat.
Proof.
  destruct (getIdentifier_cases s w) as [[_ ->]|[(_ & k & _ & ->)|(_ & Ht & ->)]];
    simpl; try done.
  rewrite map_size_insert_None by done. lia.
Qed.

Lemma getIdentifiers_size l w :
  (size (IdentifierIDs w) ≤ size (IdentifierIDs (snd (getIdentifiers l w))))%nat.
Proof.
  revert w. induction l as [|t l IH]; intros w; [done|].
  simpl. pose proof (getIdentifier_size t w) as H1.
  destruct (getIdentifier t w) as [k w1]. specialize (IH w1).
  destruct (getIdentifiers l w1) as [ks w2]. simpl in *. lia.
Qed.

Lemma getIdentifier_ok s w :
  IdentifiersOk (IdentifierIDs w) →
  N.of_nat (size (IdentifierIDs (snd (getIdentifier s w)))) < 2 ^ 32 →
  IdentifiersOk (IdentifierIDs (snd (getIdentifier s w))).
Proof.
  intros Hok.
  destruct (getIdentifier_cases s w) as [[_ ->]|[(_ & k & _ & ->)|(Hs & Ht & ->)]];
    simpl; try done.
  rewrite map_size_insert_None by done. intros Hb.
  apply IdentifiersOk_insert; try done. lia.
Qed.

Lemma getIdentifiers_ok l w :
  IdentifiersOk (IdentifierIDs w) →
  N.of_nat (size (IdentifierIDs (snd (getIdentifiers l w)))) < 2 ^ 32 →
  IdentifiersOk (IdentifierIDs (snd (getIdentifiers l w))).
Proof.
  revert w. induction l as [|t l IH]; intros w Hok Hb; [done|].
  simpl in *. pose proof (getIdentifier_ok t w Hok) as H1.
  destruct (getIdentifier t w) as [k w1]. specialize (IH w1).
  pose proof (getIdentifiers_size l w1) as Hsz.
  destruct (getIdentifiers l w1) as [ks w2]. simpl in *.
  apply IH; [|done]. apply H1. lia.
Qed.

(** [getIdentifier] touches the identifier table only. *)
Lemma getIdentifier_frame s w :
  snd (getIdentifier s w) =
  with_IdentifierIDs (IdentifierIDs (snd (getIdentifier s w))) w.
Proof.
  destruct (getIdentifier_cases s w) as [[_ ->]|[(_ & k & _ & ->)|(_ & _ & ->)]];
    simpl; by destruct w.
Qed.

Lemma getIdentifiers_frame l w :
  snd (getIdentifiers l w) =
  with_IdentifierIDs (IdentifierIDs (snd (getIdentifiers l w))) w.
Proof.
  revert w. induction l as [|t l IH]; intros w; [by destruct w|].
  simpl. pose proof (getIdentifier_frame t w) as H1.
  destruct (getIdentifier t w) as [k w1]. specialize (IH w1).
  destruct (getIdentifiers l w1) as [ks w2]. simpl in *.
  rewrite IH, H1. by destruct w.
Qed.

(** Every string handed to [getIdentifiers] is interned afterwards. *)
Lemma getIdentifiers_interned l w t :
  t ∈ l → t ≠ "" → is_Some (IdentifierIDs (snd (getIdentifiers l w)) !! t).
Proof.
  revert w. induction l as [|u l IH]; intros w Hin Ht; [by apply elem_of_nil in Hin|].
  simpl. destruct (getIdentifier u w) as [k w1] eqn:E1.
  destruct (getIdentifiers l w1) as [ks w2] eqn:E2. simpl.
  apply elem_of_cons in Hin as [->|Hin].
  - exists k. pose proof (getIdentifier_stored u w Ht) as Hst.
    rewrite E1 in Hst. simpl in Hst. apply (getIdentifiers_keeps l) in Hst.
    by rewrite E2 in Hst.
  - specialize (IH w1 Hin Ht). by rewrite E2 in IH.
Qed.

(** On a sound table, the stored IDs tell interned strings apart. *)
Lemma storedIdentifier_inj w s t :
  IdentifiersOk (IdentifierIDs w) →
  (s ≠ "" → is_Some (IdentifierIDs w !! s)) →
  (t ≠ "" → is_Some (IdentifierIDs w !! t)) →
  storedIdentifier w s = storedIdentifier w t → s = t.
Proof.
  intros (_ & Hrange & Hinj) Hs Ht. unfold storedIdentifier.
  destruct (decide (s = "")) as [->|Hs'], (decide (t = "")) as [->|Ht']; [done|..].
  - destruct (Ht Ht') as [id Hid]. rewrite Hid. simpl. intros <-.
    apply Hrange in Hid. lia.
  - destruct (Hs Hs') as [id Hid]. rewrite Hid. simpl. intros ->.
    apply Hrange in Hid. lia.
  - destruct (Hs Hs') as [id Hid], (Ht Ht') as [id' Hid'].
    rewrite Hid, Hid'. simpl. intros ->. by eapply Hinj.
Qed.

Lemma storedIdentifier_map_inj w (l1 l2 : list string) :
  IdentifiersOk (IdentifierIDs w) →
  (∀ s, s ∈ l1 → s ≠ "" → is_Some (IdentifierIDs w !! s)) →
  (∀ s, s ∈ l2 → s ≠ "" → is_Some (IdentifierIDs w !! s)) →
  map (storedIdentifier w) l1 = map (storedIdentifier w) l2 → l1 = l2.
Proof.
  intros Hok. revert l2. induction l1 as [|s l1 IH]; intros [|t l2] H1 H2 Heq;
    try done.
  simpl in Heq. injection Heq as Hst Hrest. f_equal.
  - apply (storedIdentifier_inj w); try done.
    + apply H1. by left.
    + apply H2. by left.
  - apply IH; try done.
    + intros u Hu. apply H1. by right.
    + intros u Hu. apply H2. by right.
Qed.

(** ** Selector interning *)

Lemma storedIdentifier_ext w w' s :
  IdentifierIDs w = IdentifierIDs w' → storedIdentifier w s = storedIdentifier w' s.
Proof. intros H. unfold storedIdentifier. by rewrite H. Qed.

Lemma getIdentifiers_selectors l w :
  SelectorIDs (snd (getIdentifiers l w)) = SelectorIDs w.
Proof. by rewrite getIdentifiers_frame. Qed.

(** Two cases cover a call of [getSelector]. *)
Lemma getSelector_cases sel w :
  let key := (NumPieces sel, fst (getIdentifiers (Identifiers sel) w)) in
  let wa := snd (getIdentifiers (Identifiers sel) w) in
  (∃ id, SelectorIDs w !! key = Some id ∧ getSelector sel w = (id, wa)) ∨
  (SelectorIDs w !! key = None ∧
   getSelector sel w =
     (wrap32 (N.of_nat (size (SelectorIDs w))),
      with_SelectorIDs
        (<[key := wrap32 (N.of_nat (size (SelectorIDs w)))]> (SelectorIDs w))
        wa)).
Proof.
  intros key wa. unfold getSelector.
  pose proof (getIdentifiers_selectors (Identifiers sel) w) as Hsel.
  subst key wa. destruct (getIdentifiers (Identifiers sel) w) as [ids wa].
  simpl in *. rewrite Hsel.
  destruct (SelectorIDs w !! (NumPieces sel, ids)) as [id|] eqn:E.
  - left. by exists id.
  - by right.
Qed.

Lemma getSelector_identifiers sel w :
  IdentifierIDs (snd (getSelector sel w)) =
  IdentifierIDs (snd (getIdentifiers (Identifiers sel) w)).
Proof.
  destruct (getSelector_cases sel w) as [(id & _ & ->)|(_ & ->)]; done.
Qed.

(** The selector is stored under its piece count, as supplied, and the
    identifier IDs of its pieces. *)
Lemma getSelector_stored sel w :
  SelectorIDs (snd (getSelector sel w))
    !! (NumPieces sel, fst (getIdentifiers (Identifiers sel) w))
  = Some (fst (getSelector sel w)).
Proof.
  destruct (getSelector_cases sel w) as [(id & Hid & ->)|(_ & ->)]; simpl.
  - by rewrite getIdentifiers_selectors.
  - by rewrite lookup_insert_eq.
Qed.

Lemma getSelector_keeps sel w k id :
  SelectorIDs w !! k = Some id →
  SelectorIDs (snd (getSelector sel w)) !! k = Some id.
Proof.
  intros Hk.
  destruct (getSelector_cases sel w) as [(id' & Hid & ->)|(Hnone & ->)]; simpl.
  - by rewrite getIdentifiers_selectors.
  - rewrite lookup_insert_ne; [done|]. intros <-. congruence.
Qed.

Lemma getSelector_size sel w :
  (size (SelectorIDs w) ≤ size (SelectorIDs (snd (getSelector sel w))))%nat.
Proof.
  destruct (getSelector_cases sel w) as [(id' & Hid & ->)|(Hnone & ->)]; simpl.
  - by rewrite getIdentifiers_selectors.
  - rewrite map_size_insert_None by done. lia.
Qed.

Lemma getSelector_ok sel w :
  SelectorsOk (SelectorIDs w) →
  N.of_nat (size (SelectorIDs (snd (getSelector sel w)))) < 2 ^ 32 →
  SelectorsOk (SelectorIDs (snd (getSelector sel w))).
Proof.
  intros Hok.
  destruct (getSelector_cases sel w) as [(id' & Hid & ->)|(Hnone & ->)]; simpl.
  - by rewrite getIdentifiers_selectors.
  - rewrite map_size_insert_None by done. intros Hb.
    apply SelectorsOk_insert; try done. lia.
Qed.

Lemma getSelector_identifiers_ok sel w :
  IdentifiersOk (IdentifierIDs w) →
  N.of_nat (size (IdentifierIDs (snd (getSelector sel w)))) < 2 ^ 32 →
  IdentifiersOk (IdentifierIDs (snd (getSelector sel w))).
Proof.
  rewrite getSelector_identifiers. apply getIdentifiers_ok.
Qed.

Lemma getSelector_identifiers_keeps sel w s id :
  IdentifierIDs w !! s = Some id →
  IdentifierIDs (snd (getSelector sel w)) !! s = Some id.
Proof. rewrite getSelector_identifiers. apply getIdentifiers_keeps. Qed.

Lemma getSelector_identifiers_size sel w :
  (size (IdentifierIDs w) ≤ size (IdentifierIDs (snd (getSelector sel w))))%nat.
Proof. rewrite getSelector_identifiers. apply getIdentifiers_size. Qed.

(** The piece IDs of a selector, read off the table after the call. *)
Lemma getSelector_pieces sel w :
  fst (getIdentifiers (Identifiers sel) w) =
  map (storedIdentifier (snd (getSelector sel w))) (Identifiers sel).
Proof.
  rewrite getIdentifiers_returns. apply map_ext. intros s.
  apply storedIdentifier_ext. by rewrite getSelector_identifiers.
Qed.

Lemma getSelector_interned sel w t :
  t ∈ Identifiers sel → t ≠ "" →
  is_Some (IdentifierIDs (snd (getSelector sel w)) !! t).
Proof. rewrite getSelector_identifiers. apply getIdentifiers_interned. Qed.

(** C5, as the code has it. On sound tables that stay within 32-bit
    range, a selector is stored under the pair of its piece count, taken
    as supplied, and the identifier IDs of its pieces, obtained from
    [getIdentifier] piece by piece; two selectors interned one after the
    other receive the same ID exactly when their piece counts and their
    piece sequences are equal. *)
Theorem getSelector_same_ID_iff (w : Implementation) (sel1 sel2 : ObjCSelectorRef) :
  IdentifiersOk (IdentifierIDs w) → SelectorsOk (SelectorIDs w) →
  N.of_nat (size (IdentifierIDs
    (snd (getSelector sel2 (snd (getSelector sel1 w)))))) < 2 ^ 32 →
  N.of_nat (size (SelectorIDs
    (snd (getSelector sel2 (snd (getSelector sel1 w)))))) < 2 ^ 32 →
  SelectorIDs (snd (getSelector sel1 w))
    !! (NumPieces sel1, fst (getIdentifiers (Identifiers sel1) w))
    = Some (fst (getSelector sel1 w))
  ∧ (fst (getSelector sel1 w) = fst (getSelector sel2 (snd (getSelector sel1 w)))
     ↔ NumPieces sel1 = NumPieces sel2 ∧ Identifiers sel1 = Identifiers sel2).
Proof.
  intros Hids Hsels Hb1 Hb2.
  split; [apply getSelector_stored|].
  set (w1 := snd (getSelector sel1 w)) in *.
  set (w2 := snd (getSelector sel2 w1)) in *.
  pose proof (getSelector_stored sel1 w) as H1. fold w1 in H1.
  apply (getSelector_keeps sel2) in H1. fold w2 in H1.
  pose proof (getSelector_stored sel2 w1) as H2. fold w2 in H2.
  pose proof (getSelector_size sel2 w1) as Hs2. fold w2 in Hs2.
  pose proof (getSelector_identifiers_size sel2 w1) as Hi2. fold w2 in Hi2.
  assert (SelectorsOk (SelectorIDs w2)) as [_ Hinj].
  { apply getSelector_ok; [|done]. apply getSelector_ok; [done|].
    fold w1. lia. }
  assert (IdentifiersOk (IdentifierIDs w2)) as Hok2.
  { apply getSelector_identifiers_ok; [|done].
    apply getSelector_identifiers_ok; [done|]. fold w1. lia. }
  assert (fst (getIdentifiers (Identifiers sel1) w) =
          map (storedIdentifier w2) (Identifiers sel1)) as Hp1.
  { rewrite getSelector_pieces. fold w1. apply map_ext_in.
    intros s Hs%list_elem_of_In. unfold storedIdentifier.
    destruct (decide (s = "")) as [|Hne]; [done|].
    destruct (getSelector_interned sel1 w s Hs Hne) as [id Hid]. fold w1 in Hid.
    rewrite Hid. apply (getSelector_identifiers_keeps sel2) in Hid.
    fold w2 in Hid. by rewrite Hid. }
  pose proof (getSelector_pieces sel2 w1) as Hp2. fold w2 in Hp2.
  rewrite Hp1 in H1. rewrite Hp2 in H2.
  split.
  - intros Heq. rewrite <- Heq in H2.
    pose proof (Hinj _ _ _ H1 H2) as [= Hn Hl]. split; [done|].
    apply (storedIdentifier_map_inj w2); try done.
    + intros s Hs Hne.
      destruct (getSelector_interned sel1 w s Hs Hne) as [id Hid].
      exists id. by apply (getSelector_identifiers_keeps sel2) in Hid.
    + intros s Hs Hne. by apply getSelector_interned.
  - intros [Hn Hl]. rewrite Hn, Hl in H1. congruence.
Qed.

Lemma getSelector_same_ID_iff_witness :
  (IdentifiersOk (IdentifierIDs (newWriter "UIKit")) ∧
   SelectorsOk (SelectorIDs (newWriter "UIKit")) ∧
   N.of_nat (size (IdentifierIDs
     (snd (getSelector sel_fontWithName
        (snd (getSelector sel_fontWithName_size (newWriter "UIKit")))))))
     < 2 ^ 32 ∧
   N.of_nat (size (SelectorIDs
     (snd (getSelector sel_fontWithName
        (snd (getSelector sel_fontWithName_size (newWriter "UIKit")))))))
     < 2 ^ 32)
  ∧ (fst (getSelector sel_fontWithName_size (newWriter "UIKit")) =
     fst (getSelector sel_fontWithName
            (snd (getSelector sel_fontWithName_size (newWriter "UIKit"))))
     ↔ NumPieces sel_fontWithName_size = NumPieces sel_fontWithName ∧
       Identifiers sel_fontWithName_size = Identifiers sel_fontWithName).
Proof.
  assert (IdentifiersOk (IdentifierIDs (newWriter "UIKit"))) as H1
    by apply IdentifiersOk_empty.
  assert (SelectorsOk (SelectorIDs (newWriter "UIKit"))) as H2
    by apply SelectorsOk_empty.
  assert (N.of_nat (size (IdentifierIDs
     (snd (getSelector sel_fontWithName
        (snd (getSelector sel_fontWithName_size (newWriter "UIKit")))))))
     < 2 ^ 32) as H3 by (vm_compute; reflexivity).
  assert (N.of_nat (size (SelectorIDs
     (snd (getSelector sel_fontWithName
        (snd (getSelector sel_fontWithName_size (newWriter "UIKit")))))))
     < 2 ^ 32) as H4 by (vm_compute; reflexivity).
  split; [exact (conj H1 (conj H2 (conj H3 H4)))|].
  exact (proj2 (getSelector_same_ID_iff (newWriter "UIKit")
                  sel_fontWithName_size sel_fontWithName H1 H2 H3 H4)).
Defined.

(** C5, the part that fails: a selector supplied with piece count 0 is
    stored under count 0, not 1, and does not share the ID of the
    one-piece selector with the same identifier. *)
Lemma getSelector_zero_pieces_kept :
  SelectorIDs (snd (getSelector sel_init_0 (newWriter "M"))) !! (1, [1]) = None
  ∧ SelectorIDs (snd (getSelector sel_init_0 (newWriter "M"))) !! (0, [1])
    = Some 0
  ∧ fst (getSelector sel_init_0 (newWriter "M")) ≠
    fst (getSelector sel_init_1 (snd (getSelector sel_init_0 (newWriter "M")))).
Proof. vm_compute. repeat split; discriminate. Qed.

(** ** Accumulation *)

Lemma extends_refl w : extends w w.
Proof. repeat split; eauto. Qed.

Lemma extends_trans w1 w2 w3 : extends w1 w2 → extends w2 w3 → extends w1 w3.
Proof.
  intros (A1 & A2 & A3 & A4 & A5 & A6) (B1 & B2 & B3 & B4 & B5 & B6).
  repeat split; eauto; try lia.
  intros key cid info [info' H]%A3. eauto.
Qed.

Lemma getIdentifier_extends s w : extends w (snd (getIdentifier s w)).
Proof.
  pose proof (getIdentifier_size s w). pose proof (getIdentifier_frame s w) as F.
  repeat split; try (rewrite F; by destruct w); try done.
  - intros t id. apply getIdentifier_keeps.
  - intros key cid info Hk. exists info. rewrite F. by destruct w.
Qed.

Lemma getSelector_frame sel w :
  snd (getSelector sel w) =
  with_SelectorIDs (SelectorIDs (snd (getSelector sel w)))
    (with_IdentifierIDs (IdentifierIDs (snd (getSelector sel w))) w).
Proof.
  pose proof (getIdentifiers_frame (Identifiers sel) w) as F.
  destruct (getSelector_cases sel w) as [(id & _ & ->)|(_ & ->)]; simpl;
    rewrite <- F; by destruct (snd (getIdentifiers (Identifiers sel) w)).
Qed.

Lemma getSelector_extends sel w : extends w (snd (getSelector sel w)).
Proof.
  pose proof (getSelector_size sel w).
  pose proof (getSelector_identifiers_size sel w).
  pose proof (getSelector_frame sel w) as F.
  repeat split; try done.
  - intros t id. apply getSelector_identifiers_keeps.
  - intros k id. apply getSelector_keeps.
  - intros key cid info Hk. exists info. rewrite F. by destruct w.
  - rewrite F. by destruct w.
Qed.

(** What the interning calls leave alone. *)
Lemma getIdentifier_records s w : sameRecords w (snd (getIdentifier s w)).
Proof. rewrite getIdentifier_frame. by destruct w. Qed.

Lemma getSelector_records sel w : sameRecords w (snd (getSelector sel w)).
Proof. rewrite getSelector_frame. by destruct w. Qed.

Lemma getIdentifier_names s w :
  ObjCContextNames (snd (getIdentifier s w)) = ObjCContextNames w.
Proof. rewrite getIdentifier_frame. by destruct w. Qed.

Lemma getSelector_names sel w :
  ObjCContextNames (snd (getSelector sel w)) = ObjCContextNames w.
Proof. rewrite getSelector_frame. by destruct w. Qed.

(** C1. A call that adds a property, a method, a global variable, a
    global function, an enumerator, a tag or a typedef under a key that
    is already taken stops at its assertion, and at that point every
    entity record of the writer is as it was: nothing is overwritten or
    merged. *)
Theorem duplicate_key_rejected (merge : ContextMerge) (c : Call)
  (w : Implementation) :
  keyTaken c w →
  ∃ w', perform merge c w = AssertionFailed w' ∧ sameRecords w w'.
Proof.
  destruct c as [name info|name info|contextID name isInstance info
                |contextID selector isInstanceMethod info
                |name info|name info|name info|name info|name info|opts];
    simpl; try done.
  - intros [old Hold].
    pose proof (getIdentifier_records name w) as R.
    exists (snd (getIdentifier name w)). split; [|done].
    unfold addObjCProperty. destruct (getIdentifier name w) as [nameID w1].
    simpl in *. destruct R as (_ & -> & _). by rewrite Hold.
  - intros [old Hold].
    pose proof (getSelector_records selector w) as R.
    exists (snd (getSelector selector w)). split; [|done].
    unfold addObjCMethod. destruct (getSelector selector w) as [selectorID w1].
    simpl in *. destruct R as (_ & _ & -> & _). by rewrite Hold.
  - intros [old Hold].
    pose proof (getIdentifier_records name w) as R.
    exists (snd (getIdentifier name w)). split; [|done].
    unfold addGlobalVariable. destruct (getIdentifier name w) as [nameID w1].
    simpl in *. destruct R as (_ & _ & _ & -> & _). by rewrite Hold.
  - intros [old Hold].
    pose proof (getIdentifier_records name w) as R.
    exists (snd (getIdentifier name w)). split; [|done].
    unfold addGlobalFunction. destruct (getIdentifier name w) as [nameID w1].
    simpl in *. destruct R as (_ & _ & _ & _ & -> & _). by rewrite Hold.
  - intros [old Hold].
    pose proof (getIdentifier_records name w) as R.
    exists (snd (getIdentifier name w)). split; [|done].
    unfold addEnumConstant. destruct (getIdentifier name w) as [nameID w1].
    simpl in *. destruct R as (_ & _ & _ & _ & _ & -> & _). by rewrite Hold.
  - intros [old Hold].
    pose proof (getIdentifier_records name w) as R.
    exists (snd (getIdentifier name w)). split; [|done].
    unfold addTag. destruct (getIdentifier name w) as [nameID w1].
    simpl in *. destruct R as (_ & _ & _ & _ & _ & _ & -> & _). by rewrite Hold.
  - intros [old Hold].
    pose proof (getIdentifier_records name w) as R.
    exists (snd (getIdentifier name w)). split; [|done].
    unfold addTypedef. destruct (getIdentifier name w) as [nameID w1].
    simpl in *. destruct R as (_ & _ & _ & _ & _ & _ & _ & ->). by rewrite Hold.
Qed.

(** The two branches of [addObjCClass] and [addObjCProtocol]. *)
Lemma addObjCContext_known merge kind name info w cid stored :
  ObjCContexts w !! (fst (getIdentifier name w), kind) = Some (cid, stored) →
  addObjCContext merge kind name info w =
    (mkContextID cid,
     with_ObjCContexts
       (<[(fst (getIdentifier name w), kind) := (cid, merge stored info)]>
          (ObjCContexts w))
       (snd (getIdentifier name w))).
Proof.
  intros Hk. pose proof (getIdentifier_records name w) as (R & _).
  destruct kind; unfold addObjCContext, addObjCClass, addObjCProtocol;
    destruct (getIdentifier name w) as [id w1]; simpl in *;
    rewrite R, Hk; done.
Qed.

Lemma addObjCContext_fresh merge kind name info w :
  ObjCContexts w !! (fst (getIdentifier name w), kind) = None →
  addObjCContext merge kind name info w =
    (mkContextID (wrap32 (N.of_nat (size (ObjCContexts w)) + 1)),
     with_ObjCContextNames
       (<[wrap32 (N.of_nat (size (ObjCContexts w)) + 1)
            := fst (getIdentifier name w)]> (ObjCContextNames w))
       (with_ObjCContexts
          (<[(fst (getIdentifier name w), kind)
               := (wrap32 (N.of_nat (size (ObjCContexts w)) + 1), info)]>
             (ObjCContexts w))
          (snd (getIdentifier name w)))).
Proof.
  intros Hk. pose proof (getIdentifier_records name w) as (R & _).
  pose proof (getIdentifier_names name w) as Nm.
  destruct kind; unfold addObjCContext, addObjCClass, addObjCProtocol;
    destruct (getIdentifier name w) as [id w1]; simpl in *;
    rewrite R, Hk; simpl; by rewrite Nm.
Qed.

(** After the call, the context is stored under its key with the handle
    returned. *)
Lemma addObjCContext_stored merge kind name info w :
  ∃ stored,
    ObjCContexts (snd (addObjCContext merge kind name info w))
      !! (fst (getIdentifier name w), kind)
    = Some (Value (fst (addObjCContext merge kind name info w)), stored).
Proof.
  destruct (ObjCContexts w !! (fst (getIdentifier name w), kind))
    as [[cid stored]|] eqn:E.
  - rewrite (addObjCContext_known _ _ _ _ _ _ _ E). simpl.
    rewrite lookup_insert_eq. eauto.
  - rewrite (addObjCContext_fresh _ _ _ _ _ E). simpl.
    rewrite lookup_insert_eq. eauto.
Qed.

Lemma addObjCContext_extends merge kind name info w :
  extends w (snd (addObjCContext merge kind name info w)).
Proof.
  eapply extends_trans; [apply (getIdentifier_extends name)|].
  pose proof (getIdentifier_records name w) as (R & _).
  destruct (ObjCContexts w !! (fst (getIdentifier name w), kind))
    as [[cid stored]|] eqn:E.
  - rewrite (addObjCContext_known _ _ _ _ _ _ _ E).
    destruct (getIdentifier name w) as [id w1]. simpl in *.
    repeat split; simpl; eauto.
    + intros key cid' info'. rewrite R.
      destruct (decide (key = (id, kind))) as [->|Hne].
      * rewrite E, lookup_insert_eq. intros [= <- <-]. eauto.
      * rewrite lookup_insert_ne by done. eauto.
    + rewrite R, map_size_insert_Some by done. lia.
  - rewrite (addObjCContext_fresh _ _ _ _ _ E).
    destruct (getIdentifier name w) as [id w1]. simpl in *.
    repeat split; simpl; eauto.
    + intros key cid' info'. rewrite R.
      destruct (decide (key = (id, kind))) as [->|Hne].
      * by rewrite E.
      * rewrite lookup_insert_ne by done. eauto.
    + rewrite R, map_size_insert_None by done. lia.
Qed.

Ltac extends_by_frame :=
  repeat split; simpl; eauto.

Lemma addObjCMethod_extends contextID selector isInstanceMethod info w w' :
  addObjCMethod contextID selector isInstanceMethod info w = Returned tt w' →
  extends w w'.
Proof.
  intros Hret. eapply extends_trans; [apply (getSelector_extends selector)|].
  unfold addObjCMethod in Hret.
  destruct (getSelector selector w) as [selectorID w1]. simpl.
  destruct (ObjCMethods w1 !! _); [done|].
  destruct (DesignatedInit info).
  - unfold ObjCContextNames_subscript in Hret. simpl in Hret.
    destruct (ObjCContextNames w1 !! Value contextID) as [nameID|]; simpl in Hret.
    + destruct (ObjCContexts w1 !! (nameID, false)) as [[cid stored]|] eqn:E;
        [|done].
      inversion Hret; subst; clear Hret. repeat split; simpl; eauto.
      * intros key cid' info'.
        destruct (decide (key = (nameID, false))) as [->|Hne].
        -- rewrite E, lookup_insert_eq. intros [= <- <-]. eauto.
        -- rewrite lookup_insert_ne by done. eauto.
      * rewrite map_size_insert_Some by done. lia.
    + destruct (ObjCContexts w1 !! (0, false)) as [[cid stored]|] eqn:E;
        [|done].
      inversion Hret; subst; clear Hret. repeat split; simpl; eauto.
      * intros key cid' info'.
        destruct (decide (key = (0, false))) as [->|Hne].
        -- rewrite E, lookup_insert_eq. intros [= <- <-]. eauto.
        -- rewrite lookup_insert_ne by done. eauto.
      * rewrite map_size_insert_Some by done. lia.
  - inversion Hret; subst. extends_by_frame.
Qed.

Lemma perform_extends merge c w w' :
  perform merge c w = Returned tt w' → extends w w'.
Proof.
  destruct c as [name info|name info|contextID name isInstance info
                |contextID selector isInstanceMethod info
                |name info|name info|name info|name info|name info|opts];
    simpl.
  - intros [= <-]. apply (addObjCContext_extends merge false).
  - intros [= <-]. apply (addObjCContext_extends merge true).
  - intros Hret. eapply extends_trans; [apply (getIdentifier_extends name)|].
    unfold addObjCProperty in Hret. destruct (getIdentifier name w) as [id w1].
    simpl. destruct (ObjCProperties w1 !! _); [done|].
    inversion Hret; subst. extends_by_frame.
  - apply addObjCMethod_extends.
  - intros Hret. eapply extends_trans; [apply (getIdentifier_extends name)|].
    unfold addGlobalVariable in Hret. destruct (getIdentifier name w) as [id w1].
    simpl. destruct (GlobalVariables w1 !! _); [done|].
    inversion Hret; subst. extends_by_frame.
  - intros Hret. eapply extends_trans; [apply (getIdentifier_extends name)|].
    unfold addGlobalFunction in Hret. destruct (getIdentifier name w) as [id w1].
    simpl. destruct (GlobalFunctions w1 !! _); [done|].
    inversion Hret; subst. extends_by_frame.
  - intros Hret. eapply extends_trans; [apply (getIdentifier_extends name)|].
    unfold addEnumConstant in Hret. destruct (getIdentifier name w) as [id w1].
    simpl. destruct (EnumConstants w1 !! _); [done|].
    inversion Hret; subst. extends_by_frame.
  - intros Hret. eapply extends_trans; [apply (getIdentifier_extends name)|].
    unfold addTag in Hret. destruct (getIdentifier name w) as [id w1].
    simpl. destruct (Tags w1 !! _); [done|].
    inversion Hret; subst. extends_by_frame.
  - intros Hret. eapply extends_trans; [apply (getIdentifier_extends name)|].
    unfold addTypedef in Hret. destruct (getIdentifier name w) as [id w1].
    simpl. destruct (Typedefs w1 !! _); [done|].
    inversion Hret; subst. extends_by_frame.
  - intros [= <-]. extends_by_frame.
Qed.

Lemma performAll_extends merge calls w w' :
  performAll merge calls w = Returned tt w' → extends w w'.
Proof.
  revert w. induction calls as [|c calls IH]; intros w; simpl.
  - intros [= <-]. apply extends_refl.
  - destruct (perform merge c w) as [[] w1|w1] eqn:E; [|done].
    intros H. eapply extends_trans; [by eapply perform_extends|by apply IH].
Qed.

Lemma addObjCContext_identifiers merge kind name info w :
  IdentifierIDs (snd (addObjCContext merge kind name info w)) =
  IdentifierIDs (snd (getIdentifier name w)).
Proof.
  destruct (ObjCContexts w !! (fst (getIdentifier name w), kind))
    as [[cid stored]|] eqn:E.
  - by rewrite (addObjCContext_known _ _ _ _ _ _ _ E).
  - by rewrite (addObjCContext_fresh _ _ _ _ _ E).
Qed.

(** Once a name has been interned, a later state interns it to the same
    ID without changing. *)
Lemma getIdentifier_later name w w' :
  (∀ s id, IdentifierIDs (snd (getIdentifier name w)) !! s = Some id →
           IdentifierIDs w' !! s = Some id) →
  getIdentifier name w' = (fst (getIdentifier name w), w').
Proof.
  intros Hkeep. destruct (decide (name = "")) as [->|Hne]; [done|].
  apply getIdentifier_known; [done|]. by apply Hkeep, getIdentifier_stored.
Qed.

(** C2. A context that is added again, at once or after any calls that
    return, creates no entity: the call returns the handle of the first
    call, the number of contexts and the reverse mapping stay as they
    are, and the record under the key becomes the [|=] merge of the
    record stored so far with the info supplied; with a merge that ors
    the has-designated-initializers flag, the flag stored is the
    disjunction of the two. The same holds for classes and protocols. *)
Theorem context_readded_merges (merge : ContextMerge) (isProtocol : bool)
  (name : string) (info1 info2 : ObjCContextInfo) (between : list Call)
  (w w' : Implementation) :
  (∀ a b, hasDesignatedInits (merge a b)
          = hasDesignatedInits a || hasDesignatedInits b) →
  performAll merge between (snd (addObjCContext merge isProtocol name info1 w))
    = Returned tt w' →
  ∃ stored,
    ObjCContexts w' !! (fst (getIdentifier name w), isProtocol)
      = Some (Value (fst (addObjCContext merge isProtocol name info1 w)), stored)
    ∧ fst (addObjCContext merge isProtocol name info2 w')
      = fst (addObjCContext merge isProtocol name info1 w)
    ∧ ObjCContexts (snd (addObjCContext merge isProtocol name info2 w'))
      = <[(fst (getIdentifier name w), isProtocol)
            := (Value (fst (addObjCContext merge isProtocol name info1 w)),
                merge stored info2)]> (ObjCContexts w')
    ∧ size (ObjCContexts (snd (addObjCContext merge isProtocol name info2 w')))
      = size (ObjCContexts w')
    ∧ ObjCContextNames (snd (addObjCContext merge isProtocol name info2 w'))
      = ObjCContextNames w'
    ∧ hasDesignatedInits (merge stored info2)
      = hasDesignatedInits stored || hasDesignatedInits info2.
Proof.
  intros Hor Hrun.
  apply performAll_extends in Hrun as (Hids & _ & Hctx & _).
  destruct (addObjCContext_stored merge isProtocol name info1 w) as [st1 Hst1].
  apply Hctx in Hst1 as [stored Hst].
  assert (getIdentifier name w' = (fst (getIdentifier name w), w')) as Hid.
  { apply getIdentifier_later. intros s id.
    rewrite <- (addObjCContext_identifiers merge isProtocol name info1).
    apply Hids. }
  assert (ObjCContexts w' !! (fst (getIdentifier name w'), isProtocol)
          = Some (Value (fst (addObjCContext merge isProtocol name info1 w)),
                  stored)) as Hst' by (by rewrite Hid).
  exists stored. split; [done|].
  rewrite (addObjCContext_known _ _ _ info2 _ _ _ Hst'), Hid. simpl.
  destruct (fst (addObjCContext merge isProtocol name info1 w)) as [h].
  simpl in *. repeat split; try done.
  by rewrite map_size_insert_Some.
Qed.

(** ** The context tables stay sound *)

Lemma ContextTablesOk_empty : ContextTablesOk ∅ ∅.
Proof. split; intros *; by rewrite lookup_empty. Qed.

Lemma ContextTablesOk_update contexts names key cid old new :
  ContextTablesOk contexts names → contexts !! key = Some (cid, old) →
  ContextTablesOk (<[key := (cid, new)]> contexts) names.
Proof.
  intros [Hrange Hinj] Hkey. split.
  - intros k c i. rewrite map_size_insert_Some by done.
    destruct (decide (key = k)) as [<-|Hne].
    + rewrite lookup_insert_eq. intros [= <- <-]. by eapply Hrange.
    + rewrite lookup_insert_ne by done. apply Hrange.
  - intros k1 k2 c i1 i2.
    destruct (decide (key = k1)) as [E1|E1], (decide (key = k2)) as [E2|E2];
      subst; rewrite ?lookup_insert_eq, ?lookup_insert_ne by done; try done.
    + intros [= <- <-] H2. by eapply Hinj.
    + intros H1 [= <- <-]. by eapply Hinj.
    + apply Hinj.
Qed.

Lemma ContextTablesOk_fresh contexts names key info :
  ContextTablesOk contexts names → contexts !! key = None →
  N.of_nat (size contexts) + 1 < 2 ^ 32 →
  ContextTablesOk
    (<[key := (wrap32 (N.of_nat (size contexts) + 1), info)]> contexts)
    (<[wrap32 (N.of_nat (size contexts) + 1) := fst key]> names).
Proof.
  intros [Hrange Hinj] Hkey Hb. rewrite (wrap32_small _ Hb). split.
  - intros k c i. rewrite map_size_insert_None by done.
    destruct (decide (key = k)) as [<-|Hne].
    + rewrite lookup_insert_eq. intros [= <- <-].
      rewrite lookup_insert_eq. split; [lia|done].
    + rewrite lookup_insert_ne by done. intros [Hr Hn]%Hrange.
      rewrite lookup_insert_ne by lia. split; [lia|done].
  - intros k1 k2 c i1 i2.
    destruct (decide (key = k1)) as [E1|E1], (decide (key = k2)) as [E2|E2];
      subst; rewrite ?lookup_insert_eq, ?lookup_insert_ne by done; try done.
    + intros [= <- <-] [H2 _]%Hrange. lia.
    + intros [H1 _]%Hrange [= <- <-]. lia.
    + apply Hinj.
Qed.

Lemma ContextTablesOk_default contexts names h :
  ContextTablesOk contexts names → names !! h = None →
  ContextTablesOk contexts (<[h := 0]> names).
Proof.
  intros [Hrange Hinj] Hh. split; [|done].
  intros k c i [Hr Hn]%Hrange. split; [done|].
  rewrite lookup_insert_ne; [done|]. intros <-. congruence.
Qed.

Lemma addObjCContext_ok merge kind name info w :
  WriterOk w → Bounded (snd (addObjCContext merge kind name info w)) →
  WriterOk (snd (addObjCContext merge kind name info w)).
Proof.
  intros (Hi & Hs & Hc) (Bi & Bs & Bc).
  pose proof (getIdentifier_records name w) as (R & _).
  pose proof (getIdentifier_names name w) as Nm.
  pose proof (getIdentifier_frame name w) as F.
  pose proof (getIdentifier_ok name w Hi) as Hi'.
  rewrite addObjCContext_identifiers in Bi. specialize (Hi' Bi).
  unfold WriterOk. rewrite addObjCContext_identifiers.
  split; [done|].
  destruct (ObjCContexts w !! (fst (getIdentifier name w), kind))
    as [[cid stored]|] eqn:E.
  - rewrite (addObjCContext_known _ _ _ _ _ _ _ E) in *. simpl in *.
    split; [rewrite F; by destruct w|].
    unfold ContextsOk. simpl. rewrite Nm.
    by eapply ContextTablesOk_update.
  - rewrite (addObjCContext_fresh _ _ _ _ _ E) in *. simpl in *.
    split; [rewrite F; by destruct w|].
    unfold ContextsOk. simpl.
    rewrite map_size_insert_None in Bc by done.
    apply (ContextTablesOk_fresh _ _ (fst (getIdentifier name w), kind));
      try done. lia.
Qed.

(** A frame step: a state that keeps the interning and context tables of
    a sound state is sound. *)
Lemma WriterOk_frame w w' :
  IdentifierIDs w' = IdentifierIDs w → SelectorIDs w' = SelectorIDs w →
  ObjCContexts w' = ObjCContexts w → ObjCContextNames w' = ObjCContextNames w →
  WriterOk w → WriterOk w'.
Proof.
  unfold WriterOk, ContextsOk. by intros -> -> -> ->.
Qed.

Lemma getIdentifier_WriterOk s w :
  WriterOk w → Bounded (snd (getIdentifier s w)) →
  WriterOk (snd (getIdentifier s w)).
Proof.
  intros (Hi & Hs & Hc) (Bi & _).
  pose proof (getIdentifier_frame s w) as F.
  split; [by apply getIdentifier_ok|].
  rewrite F. by destruct w.
Qed.

Lemma getSelector_WriterOk sel w :
  WriterOk w → Bounded (snd (getSelector sel w)) →
  WriterOk (snd (getSelector sel w)).
Proof.
  intros (Hi & Hs & Hc) (Bi & Bs & _).
  pose proof (getSelector_frame sel w) as F.
  split; [by apply getSelector_identifiers_ok|].
  split; [by apply getSelector_ok|].
  rewrite F. by destruct w.
Qed.

(** [addObjCMethod] in terms of the tables of the state it starts from. *)
Lemma addObjCMethod_unfold contextID selector isInstanceMethod info w :
  addObjCMethod contextID selector isInstanceMethod info w =
    let w1 := snd (getSelector selector w) in
    let key := (Value contextID, fst (getSelector selector w), isInstanceMethod) in
    match ObjCMethods w !! key with
    | Some _ => AssertionFailed w1
    | None =>
        let w2 := with_ObjCMethods (<[key := info]> (ObjCMethods w)) w1 in
        if DesignatedInit info then
          let nameID := default 0 (ObjCContextNames w !! Value contextID) in
          let w3 :=
            match ObjCContextNames w !! Value contextID with
            | Some _ => w2
            | None =>
                with_ObjCContextNames
                  (<[Value contextID := 0]> (ObjCContextNames w)) w2
            end in
          match ObjCContexts w !! (nameID, false) with
          | None => AssertionFailed w3
          | Some known =>
              Returned tt
                (with_ObjCContexts
                   (<[(nameID, false) :=
                        (fst known, setHasDesignatedInits true (snd known))]>
                      (ObjCContexts w)) w3)
          end
        else Returned tt w2
    end.
Proof.
  pose proof (getSelector_records selector w) as (Rc & _ & Rm & _).
  pose proof (getSelector_names selector w) as Nm.
  unfold addObjCMethod, ObjCContextNames_subscript.
  destruct (getSelector selector w) as [selectorID w1]. simpl in *.
  rewrite Rm. destruct (ObjCMethods w !! _); [done|].
  destruct (DesignatedInit info); [|done]. simpl. rewrite Nm.
  destruct (ObjCContextNames w !! Value contextID) as [nameID|]; simpl;
    by rewrite Rc.
Qed.

Lemma Bounded_frame w w' :
  IdentifierIDs w' = IdentifierIDs w → SelectorIDs w' = SelectorIDs w →
  ObjCContexts w' = ObjCContexts w → Bounded w → Bounded w'.
Proof. unfold Bounded. by intros -> -> ->. Qed.

Lemma addObjCMethod_ok contextID selector isInstanceMethod info w w' :
  WriterOk w →
  addObjCMethod contextID selector isInstanceMethod info w = Returned tt w' →
  Bounded w' → WriterOk w'.
Proof.
  intros Hok. rewrite addObjCMethod_unfold. simpl.
  pose proof (getSelector_WriterOk selector w Hok) as H1.
  pose proof (getSelector_records selector w) as (Rc & _).
  pose proof (getSelector_names selector w) as Nm.
  set (w1 := snd (getSelector selector w)) in *.
  destruct (ObjCMethods w !! _); [done|].
  destruct (DesignatedInit info).
  - destruct (ObjCContexts w !! _) as [[cid stored]|] eqn:E; [|done].
    intros [= <-] HB.
    assert (WriterOk w1) as (Hi & Hs & Hc).
    { apply H1. destruct HB as (? & ? & HBc). repeat split.
      - by destruct (ObjCContextNames w !! Value contextID).
      - by destruct (ObjCContextNames w !! Value contextID).
      - revert HBc. destruct (ObjCContextNames w !! Value contextID);
          simpl; rewrite map_size_insert_Some by done; by rewrite Rc. }
    unfold ContextsOk in Hc. rewrite Rc, Nm in Hc.
    destruct (ObjCContextNames w !! Value contextID) as [nameID|] eqn:En;
      simpl in *.
    + split; [exact Hi|]. split; [exact Hs|]. unfold ContextsOk. simpl.
      rewrite Nm. eapply ContextTablesOk_update; [exact Hc|exact E].
    + split; [exact Hi|]. split; [exact Hs|]. unfold ContextsOk. simpl.
      eapply ContextTablesOk_update; [by apply ContextTablesOk_default|exact E].
  - intros [= <-] HB. eapply (WriterOk_frame w1); try done.
    apply H1. eapply Bounded_frame; [..|exact HB]; done.
Qed.

Lemma perform_ok merge c w w' :
  WriterOk w → perform merge c w = Returned tt w' → Bounded w' → WriterOk w'.
Proof.
  intros Hok.
  destruct c as [name info|name info|contextID name isInstance info
                |contextID selector isInstanceMethod info
                |name info|name info|name info|name info|name info|opts];
    simpl.
  - intros [= <-]. by apply (addObjCContext_ok merge false).
  - intros [= <-]. by apply (addObjCContext_ok merge true).
  - unfold addObjCProperty.
    pose proof (getIdentifier_WriterOk name w Hok) as H1.
    destruct (getIdentifier name w) as [id w1]. simpl in *.
    destruct (ObjCProperties w1 !! _); [done|]. intros [= <-] HB.
    eapply (WriterOk_frame w1); try done. apply H1.
    eapply Bounded_frame; [..|exact HB]; done.
  - by apply addObjCMethod_ok.
  - unfold addGlobalVariable.
    pose proof (getIdentifier_WriterOk name w Hok) as H1.
    destruct (getIdentifier name w) as [id w1]. simpl in *.
    destruct (GlobalVariables w1 !! _); [done|]. intros [= <-] HB.
    eapply (WriterOk_frame w1); try done. apply H1.
    eapply Bounded_frame; [..|exact HB]; done.
  - unfold addGlobalFunction.
    pose proof (getIdentifier_WriterOk name w Hok) as H1.
    destruct (getIdentifier name w) as [id w1]. simpl in *.
    destruct (GlobalFunctions w1 !! _); [done|]. intros [= <-] HB.
    eapply (WriterOk_frame w1); try done. apply H1.
    eapply Bounded_frame; [..|exact HB]; done.
  - unfold addEnumConstant.
    pose proof (getIdentifier_WriterOk name w Hok) as H1.
    destruct (getIdentifier name w) as [id w1]. simpl in *.
    destruct (EnumConstants w1 !! _); [done|]. intros [= <-] HB.
    eapply (WriterOk_frame w1); try done. apply H1.
    eapply Bounded_frame; [..|exact HB]; done.
  - unfold addTag.
    pose proof (getIdentifier_WriterOk name w Hok) as H1.
    destruct (getIdentifier name w) as [id w1]. simpl in *.
    destruct (Tags w1 !! _); [done|]. intros [= <-] HB.
    eapply (WriterOk_frame w1); try done. apply H1.
    eapply Bounded_frame; [..|exact HB]; done.
  - unfold addTypedef.
    pose proof (getIdentifier_WriterOk name w Hok) as H1.
    destruct (getIdentifier name w) as [id w1]. simpl in *.
    destruct (Typedefs w1 !! _); [done|]. intros [= <-] HB.
    eapply (WriterOk_frame w1); try done. apply H1.
    eapply Bounded_frame; [..|exact HB]; done.
  - intros [= <-] HB. eapply (WriterOk_frame w); try done.
Qed.

Lemma WriterOk_new moduleName : WriterOk (newWriter moduleName).
Proof.
  split; [apply IdentifiersOk_empty|].
  split; [apply SelectorsOk_empty|apply ContextTablesOk_empty].
Qed.

(** Every state a session reaches is sound, as long as the sized tables
    are within 32-bit range. *)
Lemma Reachable_ok merge w : Reachable merge w → Bounded w → WriterOk w.
Proof.
  induction 1 as [moduleName|w c w' Hreach IH Hstep]; intros HB.
  - apply WriterOk_new.
  - eapply perform_ok; [|done|done]. apply IH.
    apply perform_extends in Hstep as (_ & _ & _ & S1 & S2 & S3).
    destruct HB as (B1 & B2 & B3). repeat split; lia.
Qed.

(** ** Designated initializers *)

Lemma elem_of_contextRecords h w r :
  r ∈ contextRecords h w ↔ ∃ key, ObjCContexts w !! key = Some (Value h, r).
Proof.
  unfold contextRecords. rewrite list_elem_of_omap. split.
  - intros ([key [cid info]] & Hin & Hf). simpl in Hf.
    destruct (decide (cid = Value h)) as [->|]; [|done].
    injection Hf as ->. exists key. by apply elem_of_map_to_list.
  - intros [key Hkey]. exists (key, (Value h, r)). split.
    + by apply elem_of_map_to_list.
    + simpl. by destruct (decide (Value h = Value h)).
Qed.

Lemma Reachable_performAll merge calls w w' :
  Reachable merge w → performAll merge calls w = Returned tt w' →
  Reachable merge w'.
Proof.
  revert w. induction calls as [|c calls IH]; intros w Hw; simpl.
  - by intros [= <-].
  - destruct (perform merge c w) as [[] w1|w1] eqn:E; [|done].
    apply IH. by eapply Reachable_call.
Qed.

Lemma addObjCMethod_designated_fails contextID selector isInstanceMethod
  info w :
  DesignatedInit info = true →
  ObjCMethods w !! (Value contextID, fst (getSelector selector w),
                    isInstanceMethod) = None →
  ObjCContexts w
    !! (default 0 (ObjCContextNames w !! Value contextID), false) = None →
  ∃ w', addObjCMethod contextID selector isInstanceMethod info w
        = AssertionFailed w'.
Proof.
  intros HDI Hfree Hnone. rewrite addObjCMethod_unfold. simpl.
  rewrite Hfree, HDI, Hnone. eauto.
Qed.

Lemma addObjCMethod_designated_returns contextID selector isInstanceMethod
  info w cid stored :
  DesignatedInit info = true →
  ObjCMethods w !! (Value contextID, fst (getSelector selector w),
                    isInstanceMethod) = None →
  ObjCContexts w
    !! (default 0 (ObjCContextNames w !! Value contextID), false)
    = Some (cid, stored) →
  ∃ w', addObjCMethod contextID selector isInstanceMethod info w
        = Returned tt w'
    ∧ ObjCContexts w'
      = <[(default 0 (ObjCContextNames w !! Value contextID), false)
            := (cid, setHasDesignatedInits true stored)]> (ObjCContexts w).
Proof.
  intros HDI Hfree Hsome. rewrite addObjCMethod_unfold. simpl.
  rewrite Hfree, HDI, Hsome. eexists. split; [reflexivity|]. simpl.
  by destruct (ObjCContextNames w !! Value contextID).
Qed.

(** C10. When a method flagged as designated initializer is added under
    a key that is free, the writer takes the identifier ID that the
    reverse mapping holds for the handle (0 when it holds none) and
    looks for the class entry, kind 0, under that ID. Without such an
    entry the call stops at its assertion. With one, the call returns,
    that class entry gets the has-designated-initializers flag and keeps
    its handle, and every protocol entry is as before. So on sound
    context tables the handle of a protocol whose name no class has
    makes the assertion fail. *)
Theorem designated_init_resolves_class (contextID : ContextID)
  (selector : ObjCSelectorRef) (isInstanceMethod : bool)
  (info : ObjCMethodInfo) (w : Implementation) :
  DesignatedInit info = true →
  ObjCMethods w !! (Value contextID, fst (getSelector selector w),
                    isInstanceMethod) = None →
  (ObjCContexts w
     !! (default 0 (ObjCContextNames w !! Value contextID), false) = None →
   ∃ w', addObjCMethod contextID selector isInstanceMethod info w
         = AssertionFailed w')
  ∧ (∀ cid stored,
       ObjCContexts w
         !! (default 0 (ObjCContextNames w !! Value contextID), false)
       = Some (cid, stored) →
       ∃ w', addObjCMethod contextID selector isInstanceMethod info w
             = Returned tt w'
         ∧ ObjCContexts w'
           = <[(default 0 (ObjCContextNames w !! Value contextID), false)
                 := (cid, setHasDesignatedInits true stored)]> (ObjCContexts w)
         ∧ ∀ id, ObjCContexts w' !! (id, true) = ObjCContexts w !! (id, true))
  ∧ (∀ id pinfo,
       ContextsOk w →
       ObjCContexts w !! (id, true) = Some (Value contextID, pinfo) →
       ObjCContexts w !! (id, false) = None →
       ∃ w', addObjCMethod contextID selector isInstanceMethod info w
             = AssertionFailed w').
Proof.
  intros HDI Hfree.
  split; [by apply addObjCMethod_designated_fails|]. split.
  - intros cid stored Hsome.
    destruct (addObjCMethod_designated_returns _ _ _ _ _ _ _ HDI Hfree Hsome)
      as (w' & Hret & Hctx).
    exists w'. split; [done|]. split; [done|].
    intros id. by rewrite Hctx, lookup_insert_ne.
  - intros id pinfo [Hrange _] Hproto Hnoclass.
    apply addObjCMethod_designated_fails; try done.
    apply Hrange in Hproto as [_ ->]. done.
Qed.

(** C3, as the code has it. In a session whose tables are within 32-bit
    range, take the handle a call of [addObjCClass] returned, at any
    later point at which the calls in between have returned. Adding a
    method flagged as designated initializer under that handle, with a
    key that is free, returns, and afterwards the record of the class,
    which is the one record that carries the handle, has the
    has-designated-initializers flag set. *)
Theorem designated_init_sets_class_flag (merge : ContextMerge)
  (w0 : Implementation) (name : string) (cinfo : ObjCContextInfo)
  (between : list Call) (w : Implementation) (selector : ObjCSelectorRef)
  (isInstanceMethod : bool) (info : ObjCMethodInfo) :
  Reachable merge w0 →
  performAll merge between (snd (addObjCClass merge name cinfo w0))
    = Returned tt w →
  Bounded w →
  DesignatedInit info = true →
  ObjCMethods w !! (Value (fst (addObjCClass merge name cinfo w0)),
                    fst (getSelector selector w), isInstanceMethod) = None →
  ∃ w' stored,
    addObjCMethod (fst (addObjCClass merge name cinfo w0)) selector
                  isInstanceMethod info w = Returned tt w'
    ∧ ObjCContexts w' !! (fst (getIdentifier name w0), false)
      = Some (Value (fst (addObjCClass merge name cinfo w0)), stored)
    ∧ hasDesignatedInits stored = true
    ∧ stored ∈ contextRecords (fst (addObjCClass merge name cinfo w0)) w'
    ∧ ∀ r, r ∈ contextRecords (fst (addObjCClass merge name cinfo w0)) w' →
           hasDesignatedInits r = true.
Proof.
  intros Hreach Hrun HB HDI Hfree.
  remember (fst (addObjCClass merge name cinfo w0)) as h eqn:Hh.
  assert (Reachable merge w) as Hw.
  { eapply Reachable_performAll; [|exact Hrun].
    by eapply (Reachable_call _ w0 (CallAddObjCClass name cinfo)). }
  destruct (Reachable_ok _ _ Hw HB) as (_ & _ & Hrange & Hinj).
  destruct (addObjCContext_stored merge false name cinfo w0) as [st0 Hst0].
  apply performAll_extends in Hrun as (_ & _ & Hctx & _).
  change (addObjCContext merge false) with (addObjCClass merge) in Hst0.
  rewrite <- Hh in Hst0. apply Hctx in Hst0 as [old Hold].
  destruct (Hrange _ _ _ Hold) as [_ Hname]. simpl in Hname.
  assert (ObjCContexts w
            !! (default 0 (ObjCContextNames w !! Value h), false)
          = Some (Value h, old)) as Hsome by (by rewrite Hname).
  destruct (addObjCMethod_designated_returns _ _ _ _ _ _ _ HDI Hfree Hsome)
    as (w' & Hret & Hnew).
  rewrite Hname in Hnew. simpl in Hnew.
  exists w', (setHasDesignatedInits true old).
  split; [done|]. split; [by rewrite Hnew, lookup_insert_eq|].
  split; [done|]. split.
  - apply elem_of_contextRecords. exists (fst (getIdentifier name w0), false).
    by rewrite Hnew, lookup_insert_eq.
  - intros r [key Hkey]%elem_of_contextRecords. rewrite Hnew in Hkey.
    destruct (decide (key = (fst (getIdentifier name w0), false))) as [->|Hne].
    + rewrite lookup_insert_eq in Hkey. by injection Hkey as <-.
    + rewrite lookup_insert_ne in Hkey by done.
      destruct Hne. by eapply Hinj.
Qed.

Lemma designated_init_sets_class_flag_witness :
  (Reachable orFlags (newWriter "M")
   ∧ performAll orFlags [CallAddObjCProtocol "A" plainContext]
       (snd (addObjCClass orFlags "A" plainContext (newWriter "M")))
     = Returned tt (snd withProtocolA)
   ∧ Bounded (snd withProtocolA)
   ∧ DesignatedInit designatedMethod = true
   ∧ ObjCMethods (snd withProtocolA)
       !! (Value (fst (addObjCClass orFlags "A" plainContext (newWriter "M"))),
           fst (getSelector sel_init_0 (snd withProtocolA)), true) = None)
  ∧ ∃ w' stored,
      addObjCMethod (fst (addObjCClass orFlags "A" plainContext (newWriter "M")))
        sel_init_0 true designatedMethod (snd withProtocolA) = Returned tt w'
      ∧ ObjCContexts w' !! (fst (getIdentifier "A" (newWriter "M")), false)
        = Some (Value (fst (addObjCClass orFlags "A" plainContext
                              (newWriter "M"))), stored)
      ∧ hasDesignatedInits stored = true
      ∧ stored ∈ contextRecords
                   (fst (addObjCClass orFlags "A" plainContext (newWriter "M")))
                   w'
      ∧ ∀ r, r ∈ contextRecords
                   (fst (addObjCClass orFlags "A" plainContext (newWriter "M")))
                   w' →
             hasDesignatedInits r = true.
Proof.
  assert (Reachable orFlags (newWriter "M")) as H1 by constructor.
  assert (performAll orFlags [CallAddObjCProtocol "A" plainContext]
            (snd (addObjCClass orFlags "A" plainContext (newWriter "M")))
          = Returned tt (snd withProtocolA)) as H2 by reflexivity.
  assert (Bounded (snd withProtocolA)) as H3
    by (repeat split; vm_compute; reflexivity).
  assert (DesignatedInit designatedMethod = true) as H4 by reflexivity.
  assert (ObjCMethods (snd withProtocolA)
       !! (Value (fst (addObjCClass orFlags "A" plainContext (newWriter "M"))),
           fst (getSelector sel_init_0 (snd withProtocolA)), true) = None)
    as H5 by (vm_compute; reflexivity).
  split; [exact (conj H1 (conj H2 (conj H3 (conj H4 H5))))|].
  exact (designated_init_sets_class_flag orFlags (newWriter "M") "A"
           plainContext [CallAddObjCProtocol "A" plainContext]
           (snd withProtocolA) sel_init_0 true designatedMethod
           H1 H2 H3 H4 H5).
Defined.

(** C3, the part that fails: the handle of a protocol. With a class of
    the same name, the call returns and the protocol's record, the one
    carrying the handle, is left without the flag; with no such class,
    the call stops at its assertion. *)
Lemma designated_init_under_protocol_handle :
  fst withProtocolA = mkContextID 2
  ∧ addObjCMethod (fst withProtocolA) sel_init_0 true designatedMethod
      (snd withProtocolA)
    = Returned tt
        (finalState (addObjCMethod (fst withProtocolA) sel_init_0 true
                       designatedMethod (snd withProtocolA)))
  ∧ contextRecords (fst withProtocolA)
      (finalState (addObjCMethod (fst withProtocolA) sel_init_0 true
                     designatedMethod (snd withProtocolA)))
    = [plainContext]
  ∧ hasDesignatedInits plainContext = false
  ∧ addObjCMethod (fst withProtocolP) sel_init_0 true designatedMethod
      (snd withProtocolP)
    = AssertionFailed
        (finalState (addObjCMethod (fst withProtocolP) sel_init_0 true
                       designatedMethod (snd withProtocolP))).
Proof. vm_compute. repeat split. Qed.

Lemma duplicate_key_rejected_witness :
  keyTaken (CallAddObjCProperty (mkContextID 1) "bar" true nullableProperty)
           withFooBar
  ∧ ∃ w', perform orFlags
            (CallAddObjCProperty (mkContextID 1) "bar" true nullableProperty)
            withFooBar = AssertionFailed w'
          ∧ sameRecords withFooBar w'.
Proof.
  assert (keyTaken
            (CallAddObjCProperty (mkContextID 1) "bar" true nullableProperty)
            withFooBar) as H
    by (vm_compute; eexists; reflexivity).
  split; [exact H|].
  exact (duplicate_key_rejected orFlags
           (CallAddObjCProperty (mkContextID 1) "bar" true nullableProperty)
           withFooBar H).
Defined.

Lemma context_readded_merges_witness :
  ((∀ a b, hasDesignatedInits (orFlags a b)
           = hasDesignatedInits a || hasDesignatedInits b)
   ∧ performAll orFlags [CallAddObjCProtocol "A" plainContext]
       (snd (addObjCContext orFlags false "A" plainContext (newWriter "M")))
     = Returned tt (snd withProtocolA))
  ∧ ∃ stored,
      ObjCContexts (snd withProtocolA)
        !! (fst (getIdentifier "A" (newWriter "M")), false)
      = Some (Value (fst (addObjCContext orFlags false "A" plainContext
                            (newWriter "M"))), stored)
      ∧ fst (addObjCContext orFlags false "A" designatedContext
               (snd withProtocolA))
        = fst (addObjCContext orFlags false "A" plainContext (newWriter "M"))
      ∧ ObjCContexts (snd (addObjCContext orFlags false "A" designatedContext
                             (snd withProtocolA)))
        = <[(fst (getIdentifier "A" (newWriter "M")), false)
              := (Value (fst (addObjCContext orFlags false "A" plainContext
                                (newWriter "M"))),
                  orFlags stored designatedContext)]>
            (ObjCContexts (snd withProtocolA))
      ∧ size (ObjCContexts (snd (addObjCContext orFlags false "A"
                                   designatedContext (snd withProtocolA))))
        = size (ObjCContexts (snd withProtocolA))
      ∧ ObjCContextNames (snd (addObjCContext orFlags false "A"
                                 designatedContext (snd withProtocolA)))
        = ObjCContextNames (snd withProtocolA)
      ∧ hasDesignatedInits (orFlags stored designatedContext)
        = hasDesignatedInits stored || hasDesignatedInits designatedContext.
Proof.
  assert (∀ a b, hasDesignatedInits (orFlags a b)
                 = hasDesignatedInits a || hasDesignatedInits b) as H1
    by (intros; reflexivity).
  assert (performAll orFlags [CallAddObjCProtocol "A" plainContext]
            (snd (addObjCContext orFlags false "A" plainContext (newWriter "M")))
          = Returned tt (snd withProtocolA)) as H2 by reflexivity.
  split; [exact (conj H1 H2)|].
  exact (context_readded_merges orFlags false "A" plainContext
           designatedContext [CallAddObjCProtocol "A" plainContext]
           (newWriter "M") (snd withProtocolA) H1 H2).
Defined.

Lemma designated_init_resolves_class_witness :
  (DesignatedInit designatedMethod = true
   ∧ ObjCMethods (snd withProtocolP)
       !! (Value (fst withProtocolP),
           fst (getSelector sel_init_0 (snd withProtocolP)), true) = None
   ∧ ContextsOk (snd withProtocolP)
   ∧ ObjCContexts (snd withProtocolP) !! (1, true)
     = Some (Value (fst withProtocolP), plainContext)
   ∧ ObjCContexts (snd withProtocolP) !! (1, false) = None)
  ∧ ∃ w', addObjCMethod (fst withProtocolP) sel_init_0 true designatedMethod
            (snd withProtocolP) = AssertionFailed w'.
Proof.
  assert (DesignatedInit designatedMethod = true) as H1 by reflexivity.
  assert (ObjCMethods (snd withProtocolP)
            !! (Value (fst withProtocolP),
                fst (getSelector sel_init_0 (snd withProtocolP)), true) = None)
    as H2 by (vm_compute; reflexivity).
  assert (ContextsOk (snd withProtocolP)) as H3.
  { assert (Bounded (snd withProtocolP)) as HB
      by (repeat split; vm_compute; reflexivity).
    exact (proj2 (proj2 (addObjCContext_ok orFlags true "P" plainContext
                           (newWriter "M") (WriterOk_new "M") HB))). }
  assert (ObjCContexts (snd withProtocolP) !! (1, true)
          = Some (Value (fst withProtocolP), plainContext)) as H4
    by (vm_compute; reflexivity).
  assert (ObjCContexts (snd withProtocolP) !! (1, false) = None) as H5
    by (vm_compute; reflexivity).
  split; [exact (conj H1 (conj H2 (conj H3 (conj H4 H5))))|].
  exact (proj2 (proj2 (designated_init_resolves_class (fst withProtocolP)
                         sel_init_0 true designatedMethod (snd withProtocolP)
                         H1 H2))
           1 plainContext H3 H4 H5).
Defined.

(** ** Payload encoders *)

Lemma length_little_endian width v : length (little_endian width v) = width.
Proof. revert v. induction width as [|n IH]; intros v; simpl; [done|]. by rewrite IH. Qed.

Lemma read_little_endian_2 v :
  read_little_endian (little_endian 2 v) = wrap16 v.
Proof.
  unfold wrap16. simpl. change (2 ^ 16) with (256 * 256).
  rewrite N.Div0.mod_mul_r. lia.
Qed.

Lemma read_little_endian_4 v :
  read_little_endian (little_endian 4 v) = wrap32 v.
Proof.
  unfold wrap32. simpl. change (2 ^ 32) with (256 * (256 * (256 * 256))).
  rewrite !N.Div0.mod_mul_r. rewrite !N.Div0.div_div. lia.
Qed.

Lemma length_string_bytes s : length (string_bytes s) = String.length s.
Proof. induction s as [|c s IH]; simpl; [done|]. by rewrite IH. Qed.

Lemma commonEntityFlags_bits info :
  N.testbit (commonEntityFlags info) 0 = UnavailableInSwift info
  ∧ N.testbit (commonEntityFlags info) 1 = Unavailable info
  ∧ N.testbit (commonEntityFlags info) 2 = SwiftPrivate info
  ∧ commonEntityFlags info < 8.
Proof.
  unfold commonEntityFlags.
  destruct (SwiftPrivate info), (Unavailable info), (UnavailableInSwift info);
    vm_compute; done.
Qed.

Lemma emitCommonEntityInfo_app out info :
  emitCommonEntityInfo out info =
    out ++ [commonEntityFlags info]
        ++ little_endian 2 (string_size (UnavailableMsg info))
        ++ string_bytes (UnavailableMsg info)
        ++ little_endian 2 (string_size (SwiftName info))
        ++ string_bytes (SwiftName info).
Proof.
  unfold emitCommonEntityInfo, write_uint8, write_uint16, write_string.
  destruct (commonEntityFlags_bits info) as (_ & _ & _ & Hlt).
  change (little_endian 1 (commonEntityFlags info))
    with [commonEntityFlags info mod 256].
  rewrite (N.mod_small (commonEntityFlags info) 256) by lia.
  by rewrite <- !app_assoc.
Qed.

(** C9. The common-entity payload is, in order, one flag byte whose bit 0
    is unavailable-in-Swift, bit 1 unavailable and bit 2 Swift-private
    (the other bits are clear), a two-byte little-endian length and the
    bytes of the unavailable message, a two-byte length and the bytes of
    the Swift name, and nothing else: 5 bytes plus the two strings. Each
    length field holds the string's size as a [uint16_t], which is the
    size itself for a string shorter than 2^16 bytes, and then
    [getCommonEntityInfoSize] is the number of bytes emitted. *)
Theorem emitCommonEntityInfo_layout (out : list N) (info : CommonEntityInfo) :
  emitCommonEntityInfo out info =
    out ++ [commonEntityFlags info]
        ++ little_endian 2 (string_size (UnavailableMsg info))
        ++ string_bytes (UnavailableMsg info)
        ++ little_endian 2 (string_size (SwiftName info))
        ++ string_bytes (SwiftName info)
  ∧ N.testbit (commonEntityFlags info) 0 = UnavailableInSwift info
  ∧ N.testbit (commonEntityFlags info) 1 = Unavailable info
  ∧ N.testbit (commonEntityFlags info) 2 = SwiftPrivate info
  ∧ commonEntityFlags info < 8
  ∧ N.of_nat (length (string_bytes (UnavailableMsg info)))
    = string_size (UnavailableMsg info)
  ∧ N.of_nat (length (string_bytes (SwiftName info)))
    = string_size (SwiftName info)
  ∧ read_little_endian (little_endian 2 (string_size (UnavailableMsg info)))
    = wrap16 (string_size (UnavailableMsg info))
  ∧ read_little_endian (little_endian 2 (string_size (SwiftName info)))
    = wrap16 (string_size (SwiftName info))
  ∧ N.of_nat (length (emitCommonEntityInfo out info))
    = N.of_nat (length out) + 5 + string_size (UnavailableMsg info)
      + string_size (SwiftName info)
  ∧ (string_size (UnavailableMsg info) < 2 ^ 16 →
     string_size (SwiftName info) < 2 ^ 16 →
     read_little_endian (little_endian 2 (string_size (UnavailableMsg info)))
       = string_size (UnavailableMsg info)
     ∧ read_little_endian (little_endian 2 (string_size (SwiftName info)))
       = string_size (SwiftName info)
     ∧ N.of_nat (length (emitCommonEntityInfo out info))
       = N.of_nat (length out) + getCommonEntityInfoSize info).
Proof.
  destruct (commonEntityFlags_bits info) as (B0 & B1 & B2 & Hlt).
  assert (N.of_nat (length (emitCommonEntityInfo out info))
          = N.of_nat (length out) + 5 + string_size (UnavailableMsg info)
            + string_size (SwiftName info)) as Hlen.
  { rewrite emitCommonEntityInfo_app, !length_app, !length_string_bytes,
      !length_little_endian. simpl. unfold string_size. lia. }
  split; [apply emitCommonEntityInfo_app|].
  do 4 (split; [done|]).
  split; [by rewrite length_string_bytes|].
  split; [by rewrite length_string_bytes|].
  split; [apply read_little_endian_2|].
  split; [apply read_little_endian_2|].
  split; [done|].
  intros H1 H2. rewrite !read_little_endian_2, !wrap16_small by done.
  split; [done|]. split; [done|].
  rewrite Hlen. unfold getCommonEntityInfoSize.
  rewrite wrap32_small; [lia|].
  change (2 ^ 16) with 65536 in *. change (2 ^ 32) with 4294967296. lia.
Qed.

Lemma emitCommonEntityInfo_layout_witness :
  (string_size (UnavailableMsg sampleEntity) < 2 ^ 16
   ∧ string_size (SwiftName sampleEntity) < 2 ^ 16)
  ∧ read_little_endian
      (little_endian 2 (string_size (UnavailableMsg sampleEntity)))
    = string_size (UnavailableMsg sampleEntity)
  ∧ read_little_endian (little_endian 2 (string_size (SwiftName sampleEntity)))
    = string_size (SwiftName sampleEntity)
  ∧ N.of_nat (length (emitCommonEntityInfo [7] sampleEntity))
    = N.of_nat (length [7]) + getCommonEntityInfoSize sampleEntity.
Proof.
  assert (string_size (UnavailableMsg sampleEntity) < 2 ^ 16) as H1
    by (vm_compute; reflexivity).
  assert (string_size (SwiftName sampleEntity) < 2 ^ 16) as H2
    by (vm_compute; reflexivity).
  split; [exact (conj H1 H2)|].
  exact (proj2 (proj2 (proj2 (proj2 (proj2 (proj2 (proj2 (proj2 (proj2 (proj2
           (emitCommonEntityInfo_layout [7] sampleEntity)))))))))) H1 H2).
Defined.

Example emitCommonEntityInfo_demo :
  emitCommonEntityInfo [] sampleEntity = [2; 3; 0; 98; 97; 100; 0; 0].
Proof. vm_compute. reflexivity. Qed.

(** ** Emitters only append *)

Lemma fold_left_appends {A : Type} (f : list N → A → list N) (l : list A)
  (out : list N) :
  (∀ o a, ∃ bytes, f o a = o ++ bytes) →
  ∃ bytes, fold_left f l out = out ++ bytes.
Proof.
  intros Hf. revert out. induction l as [|a l IH]; intros out; simpl.
  - exists []. by rewrite app_nil_r.
  - destruct (Hf out a) as [b1 ->]. destruct (IH (out ++ b1)) as [b2 ->].
    exists (b1 ++ b2). by rewrite app_assoc.
Qed.

Ltac expose_emitters :=
  cbv beta iota zeta delta
    [EmitKeyDataLength EmitKey EmitData IdentifierTableInfo
     ObjCContextTableInfo ObjCPropertyTableInfo ObjCMethodTableInfo
     ObjCSelectorTableInfo GlobalVariableTableInfo GlobalFunctionTableInfo
     EnumConstantTableInfo TagTableInfo TypedefTableInfo emitLengths];
  cbn [fst snd].

Ltac appends :=
  expose_emitters;
  unfold write_uint8, write_uint16, write_uint32, write_uint64, write_string;
  rewrite <- ?app_assoc; eexists; reflexivity.

Lemma emitCommonEntityInfo_appends out info :
  ∃ bytes, emitCommonEntityInfo out info = out ++ bytes.
Proof. rewrite emitCommonEntityInfo_app. eauto. Qed.

Lemma emitCommonTypeInfo_appends out info :
  ∃ bytes, emitCommonTypeInfo out info = out ++ bytes.
Proof.
  unfold emitCommonTypeInfo.
  destruct (emitCommonEntityInfo_appends out (type_entity info)) as [b ->].
  appends.
Qed.

Lemma emitVariableInfo_appends out info :
  ∃ bytes, emitVariableInfo out info = out ++ bytes.
Proof.
  unfold emitVariableInfo.
  destruct (emitCommonEntityInfo_appends out (variable_entity info)) as [b ->].
  appends.
Qed.

Lemma emitFunctionInfo_appends out info :
  ∃ bytes, emitFunctionInfo out info = out ++ bytes.
Proof.
  unfold emitFunctionInfo.
  destruct (emitCommonEntityInfo_appends out (function_entity info)) as [b ->].
  match goal with
  | |- ∃ _, fold_left ?f ?l ?o = _ =>
      destruct (fold_left_appends f l o) as [b2 ->]
  end.
  - intros o a. appends.
  - appends.
Qed.

Lemma IdentifierTableInfo_appends env : InfoAppends (IdentifierTableInfo env).
Proof. repeat split; intros; appends. Qed.

Lemma ObjCContextTableInfo_appends env : InfoAppends (ObjCContextTableInfo env).
Proof.
  repeat split; intros; try appends. expose_emitters.
  destruct (emitCommonTypeInfo_appends (write_uint32 (fst v) out)
              (context_type (snd v))) as [b ->].
  appends.
Qed.

Lemma ObjCPropertyTableInfo_appends env : InfoAppends (ObjCPropertyTableInfo env).
Proof.
  repeat split; intros; try appends; expose_emitters. apply emitVariableInfo_appends.
Qed.

Lemma ObjCMethodTableInfo_appends env : InfoAppends (ObjCMethodTableInfo env).
Proof.
  repeat split; intros; try appends. expose_emitters.
  destruct (emitFunctionInfo_appends out (method_function v)) as [b ->].
  appends.
Qed.

Lemma ObjCSelectorTableInfo_appends env : InfoAppends (ObjCSelectorTableInfo env).
Proof.
  repeat split; intros; try appends. expose_emitters.
  match goal with
  | |- ∃ _, fold_left ?f ?l ?o = _ =>
      destruct (fold_left_appends f l o) as [b2 ->]
  end.
  - intros o a. appends.
  - appends.
Qed.

Lemma GlobalVariableTableInfo_appends env :
  InfoAppends (GlobalVariableTableInfo env).
Proof.
  repeat split; intros; try appends; expose_emitters. apply emitVariableInfo_appends.
Qed.

Lemma GlobalFunctionTableInfo_appends env :
  InfoAppends (GlobalFunctionTableInfo env).
Proof.
  repeat split; intros; try appends; expose_emitters. apply emitFunctionInfo_appends.
Qed.

Lemma EnumConstantTableInfo_appends env : InfoAppends (EnumConstantTableInfo env).
Proof.
  repeat split; intros; try appends; expose_emitters. apply emitCommonEntityInfo_appends.
Qed.

Lemma TagTableInfo_appends env : InfoAppends (TagTableInfo env).
Proof.
  repeat split; intros; try appends; expose_emitters. apply emitCommonTypeInfo_appends.
Qed.

Lemma TypedefTableInfo_appends env : InfoAppends (TypedefTableInfo env).
Proof.
  repeat split; intros; try appends; expose_emitters. apply emitCommonTypeInfo_appends.
Qed.

(** ** Table blocks *)

Lemma writeTableBlock_empty {K V : Type} `{Countable K} env blockID kind
  (Info : TableInfo K V) (table : gmap K V) writer :
  size table = 0%nat →
  writeTableBlock env blockID kind Info table writer =
    writer ++ [EnterSubblock blockID 3; ExitBlock].
Proof.
  intros Hsize. unfold writeTableBlock.
  destruct (decide (size table = 0%nat)); [|done].
  by rewrite <- app_assoc.
Qed.

(** C6. A table block whose collection is empty when the file is written
    consists of entering the block and exiting it: no layout is defined
    and no record is emitted in between. This holds for the identifier
    table and for the tables of the nine entity kinds. *)
Theorem empty_table_block (env : Environment) (t : Table)
  (w : Implementation) (writer : BitstreamWriter) :
  tableSize t w = 0%nat →
  writeBlock env t w writer =
    writer ++ [EnterSubblock (tableBlock t) 3; ExitBlock].
Proof.
  destruct t; simpl; apply writeTableBlock_empty.
Qed.

Lemma empty_table_block_witness :
  tableSize ObjCMethodTable withFooBar = 0%nat
  ∧ writeBlock sampleEnvironment ObjCMethodTable withFooBar [Emit 1 8] =
      [Emit 1 8] ++ [EnterSubblock (tableBlock ObjCMethodTable) 3; ExitBlock].
Proof.
  assert (tableSize ObjCMethodTable withFooBar = 0%nat) as H
    by (vm_compute; reflexivity).
  split; [exact H|].
  exact (empty_table_block sampleEnvironment ObjCMethodTable withFooBar
           [Emit 1 8] H).
Defined.

Lemma emitHashTable_sentinel env {K V : Type} (Info : TableInfo K V) entries :
  GeneratorAppends env → InfoAppends Info →
  ∃ position body,
    emitHashTable env Info entries = (wrap32 position, [0; 0; 0; 0] ++ body)
    ∧ 4 ≤ position ∧ position ≤ 4 + N.of_nat (length body).
Proof.
  intros Hgen Hinfo. unfold emitHashTable.
  destruct (Hgen K V Info entries (write_uint32 0 []) Hinfo)
    as (body & Hblob & Hlo & Hhi).
  destruct (generator_Emit env K V Info entries (write_uint32 0 []))
    as [blob offset]. cbn [fst snd] in *. subst blob.
  exists offset, body. split; [done|].
  rewrite length_app in Hhi.
  change (length (write_uint32 0 [])) with 4%nat in *. lia.
Qed.

Lemma writeTableBlock_sentinel {K V : Type} `{Countable K} env blockID kind
  (Info : TableInfo K V) (table : gmap K V) writer :
  GeneratorAppends env → InfoAppends Info → size table ≠ 0%nat →
  ∃ position body,
    writeTableBlock env blockID kind Info table writer =
      writer ++ [EnterSubblock blockID 3; DefineLayout kind;
                 EmitLayout kind [wrap32 position] ([0; 0; 0; 0] ++ body);
                 ExitBlock]
    ∧ 4 ≤ position ∧ position ≤ 4 + N.of_nat (length body).
Proof.
  intros Hgen Hinfo Hsize. unfold writeTableBlock.
  destruct (decide (size table = 0%nat)); [done|].
  destruct (emitHashTable_sentinel env Info (map_to_list table) Hgen Hinfo)
    as (position & body & -> & Hlo & Hhi).
  exists position, body. split; [|done]. by rewrite <- !app_assoc.
Qed.

(** C8. With a generator that appends to the stream it is given and
    returns a position of that stream, the block of every non-empty
    table, the identifier table and the nine entity tables alike, holds
    one record, whose blob starts with four zero bytes followed by what
    the generator wrote; the table offset stored with it is the 32-bit
    value of a position at or after byte 4 of the blob, so nothing the
    generator wrote lies at offset 0, and for a blob shorter than 2^32
    bytes the stored offset is that position and is not 0. *)
Theorem table_blob_sentinel (env : Environment) (t : Table)
  (w : Implementation) (writer : BitstreamWriter) :
  GeneratorAppends env → tableSize t w ≠ 0%nat →
  ∃ position body,
    writeBlock env t w writer =
      writer ++ [EnterSubblock (tableBlock t) 3; DefineLayout (tableRecord t);
                 EmitLayout (tableRecord t) [wrap32 position]
                            ([0; 0; 0; 0] ++ body);
                 ExitBlock]
    ∧ 4 ≤ position ∧ position ≤ 4 + N.of_nat (length body)
    ∧ (4 + N.of_nat (length body) < 2 ^ 32 →
       wrap32 position = position ∧ wrap32 position ≠ 0).
Proof.
  intros Hgen Hsize.
  assert (∃ position body,
            writeBlock env t w writer =
              writer ++ [EnterSubblock (tableBlock t) 3;
                         DefineLayout (tableRecord t);
                         EmitLayout (tableRecord t) [wrap32 position]
                                    ([0; 0; 0; 0] ++ body);
                         ExitBlock]
            ∧ 4 ≤ position ∧ position ≤ 4 + N.of_nat (length body))
    as (position & body & Hw & Hlo & Hhi).
  { destruct t; simpl in *; apply writeTableBlock_sentinel; try done.
    - apply IdentifierTableInfo_appends.
    - apply ObjCContextTableInfo_appends.
    - apply ObjCPropertyTableInfo_appends.
    - apply ObjCMethodTableInfo_appends.
    - apply ObjCSelectorTableInfo_appends.
    - apply GlobalVariableTableInfo_appends.
    - apply GlobalFunctionTableInfo_appends.
    - apply EnumConstantTableInfo_appends.
    - apply TagTableInfo_appends.
    - apply TypedefTableInfo_appends. }
  exists position, body. split; [done|]. split; [done|]. split; [done|].
  intros Hb. rewrite wrap32_small by lia. split; [done|lia].
Qed.

Lemma sequentialEmit_appends : GeneratorAppends sampleEnvironment.
Proof.
  intros K V Info entries out (HL & HK & HD). simpl. unfold sequentialEmit.
  match goal with
  | |- context [fold_left ?f entries out] =>
      destruct (fold_left_appends f entries out) as [b Hb]
  end.
  { intros o [k v]. simpl.
    destruct (HL o k v) as [b1 H1].
    destruct (EmitKeyDataLength Info o k v) as [o1 [keyLength dataLength]].
    simpl in H1. subst o1.
    destruct (HK (o ++ b1) k keyLength) as [b2 ->].
    destruct (HD ((o ++ b1) ++ b2) k v dataLength) as [b3 ->].
    exists (b1 ++ b2 ++ b3). by rewrite <- !app_assoc. }
  rewrite Hb. simpl. unfold write_uint32.
  exists (b ++ little_endian 4 (N.of_nat (length entries))).
  split; [by rewrite <- app_assoc|].
  rewrite !length_app. lia.
Qed.

Lemma table_blob_sentinel_witness :
  (GeneratorAppends sampleEnvironment
   ∧ tableSize ObjCPropertyTable withFooBar ≠ 0%nat)
  ∧ ∃ position body,
      writeBlock sampleEnvironment ObjCPropertyTable withFooBar [] =
        [] ++ [EnterSubblock (tableBlock ObjCPropertyTable) 3;
               DefineLayout (tableRecord ObjCPropertyTable);
               EmitLayout (tableRecord ObjCPropertyTable) [wrap32 position]
                          ([0; 0; 0; 0] ++ body);
               ExitBlock]
      ∧ 4 ≤ position ∧ position ≤ 4 + N.of_nat (length body)
      ∧ (4 + N.of_nat (length body) < 2 ^ 32 →
         wrap32 position = position ∧ wrap32 position ≠ 0).
Proof.
  assert (tableSize ObjCPropertyTable withFooBar ≠ 0%nat) as H
    by (vm_compute; discriminate).
  split; [exact (conj sequentialEmit_appends H)|].
  exact (table_blob_sentinel sampleEnvironment ObjCPropertyTable withFooBar []
           sequentialEmit_appends H).
Defined.

Example writeObjCPropertyBlock_demo :
  writeObjCPropertyBlock sampleEnvironment withFooBar [] =
    [EnterSubblock OBJC_PROPERTY_BLOCK_ID 3; DefineLayout OBJC_PROPERTY_DATA;
     EmitLayout OBJC_PROPERTY_DATA [27]
       [0; 0; 0; 0;  9; 0; 10; 0;  1; 0; 0; 0; 2; 0; 0; 0; 1;
        2; 3; 0; 98; 97; 100; 0; 0; 1; 1;  1; 0; 0; 0];
     ExitBlock].
Proof. vm_compute. reflexivity. Qed.

(** ** The order of the file *)

Lemma emit_signature (signature : list N) (writer : BitstreamWriter) :
  fold_left (λ writer byte, writer ++ [Emit byte 8]) signature writer =
  writer ++ map (λ byte, Emit byte 8) signature.
Proof.
  revert writer. induction signature as [|b l IH]; intros writer; simpl.
  - by rewrite app_nil_r.
  - rewrite IH. by rewrite <- app_assoc.
Qed.

Lemma emitRecordID_Some out ID name :
  ID < 256 →
  emitRecordID out ID name =
    Some (out ++ [EmitRecord BLOCKINFO_CODE_SETRECORDNAME
                    (wrap8 ID :: string_bytes name)]).
Proof. intros H. unfold emitRecordID. by destruct (decide (ID < 256)). Qed.

Lemma isBlock_intro blockID codeLen body :
  Forall flatOp body →
  isBlock blockID codeLen (EnterSubblock blockID codeLen :: body ++ [ExitBlock]).
Proof. intros H. by exists body. Qed.

Lemma writeBlockInfoBlock_block env writer :
  (∀ kind, recordValue env kind < 256) →
  ∃ block, writeBlockInfoBlock env writer = Some (writer ++ block)
           ∧ isBlock BLOCKINFO_BLOCK_ID 2 block.
Proof.
  intros Hsmall. unfold writeBlockInfoBlock, emitBlockID.
  repeat (rewrite emitRecordID_Some by apply Hsmall; cbn [mbind option_bind]).
  repeat match goal with
         | |- context [decide (?s = "")] =>
             destruct (decide (s = "")) as [?|_]; [discriminate|]
         end.
  eexists. split.
  - rewrite <- !app_assoc. cbn [app]. reflexivity.
  - match goal with |- isBlock _ _ (_ :: ?l) => exists (removelast l) end.
    split; [reflexivity|]. cbn [removelast]. repeat constructor.
Qed.

Lemma writeTableBlock_isBlock {K V : Type} `{Countable K} env blockID kind
  (Info : TableInfo K V) (table : gmap K V) writer :
  ∃ block, writeTableBlock env blockID kind Info table writer = writer ++ block
           ∧ isBlock blockID 3 block
           ∧ layoutsEmitted block = if decide (size table = 0%nat) then []
                                    else [kind].
Proof.
  unfold writeTableBlock. destruct (decide (size table = 0%nat)).
  - exists [EnterSubblock blockID 3; ExitBlock]. split; [by rewrite <- app_assoc|].
    split; [|done]. by apply (isBlock_intro _ _ []).
  - destruct (emitHashTable env Info (map_to_list table)) as [offset blob].
    exists [EnterSubblock blockID 3; DefineLayout kind;
            EmitLayout kind [offset] blob; ExitBlock].
    split; [by rewrite <- !app_assoc|]. split; [|done].
    apply (isBlock_intro _ _ [DefineLayout kind; EmitLayout kind [offset] blob]).
    by repeat constructor.
Qed.

Lemma writeBlock_isBlock env t w writer :
  ∃ block, writeBlock env t w writer = writer ++ block
           ∧ isBlock (tableBlock t) 3 block
           ∧ layoutsEmitted block = if decide (tableSize t w = 0%nat) then []
                                    else [tableRecord t].
Proof. destruct t; apply writeTableBlock_isBlock. Qed.

Lemma writeControlBlock_ops env w writer :
  writeControlBlock env w writer =
    writer ++
    [EnterSubblock CONTROL_BLOCK_ID 3;
     DefineLayout METADATA;
     EmitLayout METADATA [VERSION_MAJOR env; VERSION_MINOR env] [];
     DefineLayout MODULE_NAME;
     EmitLayout MODULE_NAME [] (string_bytes (ModuleName w))]
    ++ (if SwiftInferImportAsMember w
        then [DefineLayout MODULE_OPTIONS; EmitLayout MODULE_OPTIONS [1] []]
        else [])
    ++ [ExitBlock].
Proof.
  unfold writeControlBlock. destruct (SwiftInferImportAsMember w); simpl;
    by rewrite <- !app_assoc.
Qed.

(** C7. [writeToStream] performs, as a function of the state alone: the
    signature, byte by byte; the block-info block; the control block
    with the version record, the module-name record and, exactly when
    the infer-import-as-member flag is set, the module-options record;
    the identifier block; and the blocks of contexts, properties,
    methods, selectors, global variables, global functions, enum
    constants, tags and typedefs, in this order, each one block entered
    and exited with nothing nested; the buffer so filled is what goes to
    the stream. The record IDs named in the block-info block are below
    256, as its assertion demands. *)
Theorem writeToStream_order (env : Environment) (w : Implementation)
  (os : list N) :
  (∀ kind, recordValue env kind < 256) →
  ∃ blockInfo identifiers contexts properties methods selectors variables
    functions enumerators tags typedefs,
    writeToBitstream env w =
      Some (map (λ byte, Emit byte 8) (API_NOTES_SIGNATURE env)
            ++ blockInfo
            ++ ([EnterSubblock CONTROL_BLOCK_ID 3;
                 DefineLayout METADATA;
                 EmitLayout METADATA [VERSION_MAJOR env; VERSION_MINOR env] [];
                 DefineLayout MODULE_NAME;
                 EmitLayout MODULE_NAME [] (string_bytes (ModuleName w))]
                ++ (if SwiftInferImportAsMember w
                    then [DefineLayout MODULE_OPTIONS;
                          EmitLayout MODULE_OPTIONS [1] []]
                    else [])
                ++ [ExitBlock])
            ++ identifiers ++ contexts ++ properties ++ methods ++ selectors
            ++ variables ++ functions ++ enumerators ++ tags ++ typedefs)
    ∧ writeToStream env w os =
        (λ writer, os ++ bitstreamBuffer env writer) <$> writeToBitstream env w
    ∧ isBlock BLOCKINFO_BLOCK_ID 2 blockInfo
    ∧ isBlock IDENTIFIER_BLOCK_ID 3 identifiers
    ∧ isBlock OBJC_CONTEXT_BLOCK_ID 3 contexts
    ∧ isBlock OBJC_PROPERTY_BLOCK_ID 3 properties
    ∧ isBlock OBJC_METHOD_BLOCK_ID 3 methods
    ∧ isBlock OBJC_SELECTOR_BLOCK_ID 3 selectors
    ∧ isBlock GLOBAL_VARIABLE_BLOCK_ID 3 variables
    ∧ isBlock GLOBAL_FUNCTION_BLOCK_ID 3 functions
    ∧ isBlock ENUM_CONSTANT_BLOCK_ID 3 enumerators
    ∧ isBlock TAG_BLOCK_ID 3 tags
    ∧ isBlock TYPEDEF_BLOCK_ID 3 typedefs.
Proof.
  intros Hsmall. unfold writeToStream, writeToBitstream.
  rewrite emit_signature. cbn [app].
  destruct (writeBlockInfoBlock_block env
              (map (λ byte, Emit byte 8) (API_NOTES_SIGNATURE env)) Hsmall)
    as (blockInfo & -> & HbI).
  cbn [mbind option_bind fmap option_fmap option_map].
  rewrite writeControlBlock_ops.
  match goal with |- context [writeIdentifierBlock env w ?wr] =>
    destruct (writeBlock_isBlock env IdentifierTable w wr)
      as (identifiers & E1 & B1 & _) end.
  cbn [writeBlock] in E1. rewrite E1.
  match goal with |- context [writeObjCContextBlock env w ?wr] =>
    destruct (writeBlock_isBlock env ObjCContextTable w wr)
      as (contexts & E2 & B2 & _) end.
  cbn [writeBlock] in E2. rewrite E2.
  match goal with |- context [writeObjCPropertyBlock env w ?wr] =>
    destruct (writeBlock_isBlock env ObjCPropertyTable w wr)
      as (properties & E3 & B3 & _) end.
  cbn [writeBlock] in E3. rewrite E3.
  match goal with |- context [writeObjCMethodBlock env w ?wr] =>
    destruct (writeBlock_isBlock env ObjCMethodTable w wr)
      as (methods & E4 & B4 & _) end.
  cbn [writeBlock] in E4. rewrite E4.
  match goal with |- context [writeObjCSelectorBlock env w ?wr] =>
    destruct (writeBlock_isBlock env ObjCSelectorTable w wr)
      as (selectors & E5 & B5 & _) end.
  cbn [writeBlock] in E5. rewrite E5.
  match goal with |- context [writeGlobalVariableBlock env w ?wr] =>
    destruct (writeBlock_isBlock env GlobalVariableTable w wr)
      as (variables & E6 & B6 & _) end.
  cbn [writeBlock] in E6. rewrite E6.
  match goal with |- context [writeGlobalFunctionBlock env w ?wr] =>
    destruct (writeBlock_isBlock env GlobalFunctionTable w wr)
      as (functions & E7 & B7 & _) end.
  cbn [writeBlock] in E7. rewrite E7.
  match goal with |- context [writeEnumConstantBlock env w ?wr] =>
    destruct (writeBlock_isBlock env EnumConstantTable w wr)
      as (enumerators & E8 & B8 & _) end.
  cbn [writeBlock] in E8. rewrite E8.
  match goal with |- context [writeTagBlock env w ?wr] =>
    destruct (writeBlock_isBlock env TagTable w wr)
      as (tags & E9 & B9 & _) end.
  cbn [writeBlock] in E9. rewrite E9.
  match goal with |- context [writeTypedefBlock env w ?wr] =>
    destruct (writeBlock_isBlock env TypedefTable w wr)
      as (typedefs & E10 & B10 & _) end.
  cbn [writeBlock] in E10. rewrite E10.
  exists blockInfo, identifiers, contexts, properties, methods, selectors,
    variables, functions, enumerators, tags, typedefs.
  split; [by rewrite <- !app_assoc|]. split; [reflexivity|].
  cbn [tableBlock] in *. tauto.
Qed.

Lemma writeToStream_order_witness :
  (∀ kind, recordValue sampleEnvironment kind < 256)
  ∧ writeToStream sampleEnvironment withFooBar [] =
      (λ writer, [] ++ bitstreamBuffer sampleEnvironment writer)
        <$> writeToBitstream sampleEnvironment withFooBar.
Proof.
  assert (∀ kind, recordValue sampleEnvironment kind < 256) as H
    by (intros []; vm_compute; reflexivity).
  split; [exact H|].
  destruct (writeToStream_order sampleEnvironment withFooBar [] H)
    as (? & ? & ? & ? & ? & ? & ? & ? & ? & ? & ? & _ & Hstream & _).
  exact Hstream.
Defined.

(** * Further properties of the writer *)

(** ** Announced and emitted lengths *)

Lemma wrap32_add_l a b : wrap32 (wrap32 a + b) = wrap32 (a + b).
Proof. unfold wrap32. by rewrite N.Div0.add_mod_idemp_l. Qed.

Lemma wrap32_add_r a b : wrap32 (a + wrap32 b) = wrap32 (a + b).
Proof. unfold wrap32. by rewrite N.Div0.add_mod_idemp_r. Qed.

Lemma wrap32_add_mid a b c : wrap32 (a + wrap32 b + c) = wrap32 (a + b + c).
Proof.
  unfold wrap32. replace (a + b mod 2 ^ 32 + c) with (b mod 2 ^ 32 + (a + c)) by lia.
  rewrite N.Div0.add_mod_idemp_l. f_equal. lia.
Qed.

Lemma wrap32_idemp a : wrap32 (wrap32 a) = wrap32 a.
Proof. unfold wrap32. by rewrite N.Div0.mod_mod. Qed.

Lemma emitCommonEntityInfo_bytes info :
  ∃ bytes, (∀ o, emitCommonEntityInfo o info = o ++ bytes)
           ∧ getCommonEntityInfoSize info = wrap32 (N.of_nat (length bytes)).
Proof.
  eexists. split; [intros o; apply emitCommonEntityInfo_app|].
  unfold getCommonEntityInfoSize, string_size. f_equal.
  cbn [app length]. rewrite !length_app, !length_string_bytes,
    !length_little_endian. lia.
Qed.

Lemma emitCommonTypeInfo_bytes info :
  ∃ bytes, (∀ o, emitCommonTypeInfo o info = o ++ bytes)
           ∧ getCommonTypeInfoSize info = wrap32 (N.of_nat (length bytes)).
Proof.
  destruct (emitCommonEntityInfo_bytes (type_entity info)) as (b & Hb & Hs).
  exists (b ++ little_endian 2 (string_size (getSwiftBridge info))
            ++ string_bytes (getSwiftBridge info)
            ++ little_endian 2 (string_size (getNSErrorDomain info))
            ++ string_bytes (getNSErrorDomain info)).
  split.
  - intros o. unfold emitCommonTypeInfo, write_uint16, write_string.
    rewrite Hb. by rewrite <- !app_assoc.
  - unfold getCommonTypeInfoSize. rewrite Hs, wrap32_add_r. f_equal.
    rewrite !length_app, !length_string_bytes, !length_little_endian.
    unfold string_size. lia.
Qed.

Lemma length_nullabilityBytes nullable : length (nullabilityBytes nullable) = 2%nat.
Proof. by destruct nullable. Qed.

Lemma emitVariableInfo_bytes info :
  ∃ bytes, (∀ o, emitVariableInfo o info = o ++ bytes)
           ∧ getVariableInfoSize info = wrap32 (N.of_nat (length bytes)).
Proof.
  destruct (emitCommonEntityInfo_bytes (variable_entity info)) as (b & Hb & Hs).
  exists (b ++ nullabilityBytes (getNullability info)). split.
  - intros o. unfold emitVariableInfo. rewrite Hb. by rewrite <- !app_assoc.
  - unfold getVariableInfoSize. rewrite Hs, wrap32_add_r. f_equal.
    rewrite length_app, length_nullabilityBytes. lia.
Qed.

Lemma fold_left_write_uint8 {A : Type} (f : A → N) (l : list A) (o : list N) :
  fold_left (λ out a, write_uint8 (f a) out) l o =
  o ++ map (λ a, f a mod 256) l.
Proof.
  revert o. induction l as [|a l IH]; intros o; simpl.
  - by rewrite app_nil_r.
  - rewrite IH. unfold write_uint8. by rewrite <- app_assoc.
Qed.

Lemma fold_left_write_uint32 (l : list N) (o : list N) :
  fold_left (λ out piece, write_uint32 piece out) l o =
  o ++ concat (map (little_endian 4) l).
Proof.
  revert o. induction l as [|a l IH]; intros o; simpl.
  - by rewrite app_nil_r.
  - rewrite IH. unfold write_uint32. by rewrite <- app_assoc.
Qed.

Lemma length_concat_little_endian_4 (l : list N) :
  length (concat (map (little_endian 4) l)) = (4 * length l)%nat.
Proof.
  induction l as [|a l IH]; [done|].
  cbn [map concat]. rewrite length_app, IH, length_little_endian.
  cbn [length]. lia.
Qed.

Lemma emitFunctionInfo_bytes info :
  ∃ bytes, (∀ o, emitFunctionInfo o info = o ++ bytes)
           ∧ getFunctionInfoSize info = wrap32 (N.of_nat (length bytes)).
Proof.
  destruct (emitCommonEntityInfo_bytes (function_entity info)) as (b & Hb & Hs).
  exists (b ++ little_endian 1 (bool_N (NullabilityAudited info))
            ++ little_endian 1 (NumAdjustedNullable info)
            ++ little_endian 8 (NullabilityPayload info)
            ++ little_endian 2 (N.of_nat (length (Params info)))
            ++ map (λ pi, paramPayload pi mod 256) (Params info)).
  split.
  - intros o. unfold emitFunctionInfo. rewrite fold_left_write_uint8.
    unfold write_uint8, write_uint16, write_uint64. rewrite Hb.
    by rewrite <- !app_assoc.
  - unfold getFunctionInfoSize. rewrite Hs.
    rewrite <- N.add_assoc, wrap32_add_mid. f_equal. rewrite !length_app, !length_little_endian, length_map. lia.
Qed.

Ltac lengths_header :=
  expose_emitters; unfold write_uint8, write_uint16, write_uint32, write_string;
  rewrite <- ?app_assoc.

Lemma IdentifierTableInfo_lengths env : LengthsMatch (IdentifierTableInfo env).
Proof.
  intros out k v.
  exists (wrap32 (string_size k)), 4, (string_bytes k), (little_endian 4 v).
  split; [by lengths_header|]. split; [done|]. split; [done|].
  split; [by rewrite length_string_bytes|done].
Qed.

Lemma ObjCContextTableInfo_lengths env : LengthsMatch (ObjCContextTableInfo env).
Proof.
  intros out k v.
  destruct (emitCommonTypeInfo_bytes (context_type (snd v))) as (b & Hb & Hs).
  exists (4 + 1), (wrap32 (4 + getCommonTypeInfoSize (context_type (snd v)) + 3)),
    (little_endian 4 (fst k) ++ little_endian 1 (bool_N (snd k))),
    (little_endian 4 (fst v) ++ b
       ++ nullabilityBytes (getDefaultNullability (snd v))
       ++ [bool_N (hasDesignatedInits (snd v))]).
  split; [by lengths_header|].
  split; [intros o; by lengths_header|].
  split; [intros o; lengths_header; rewrite Hb; by rewrite <- !app_assoc|].
  split; [done|].
  rewrite Hs, wrap32_add_mid. f_equal.
  rewrite !length_app, length_nullabilityBytes, length_little_endian.
  cbn [length]. lia.
Qed.

Lemma ObjCPropertyTableInfo_lengths env : LengthsMatch (ObjCPropertyTableInfo env).
Proof.
  intros out k v.
  destruct (emitVariableInfo_bytes v) as (b & Hb & Hs).
  exists (4 + 4 + 1), (getVariableInfoSize v),
    (little_endian 4 (fst (fst k)) ++ little_endian 4 (snd (fst k))
       ++ little_endian 1 (bool_N (snd k))), b.
  split; [by lengths_header|].
  split; [intros o; by lengths_header|].
  split; [intros o; lengths_header; by rewrite Hb|].
  split; [done|done].
Qed.

Lemma ObjCMethodTableInfo_lengths env : LengthsMatch (ObjCMethodTableInfo env).
Proof.
  intros out k v.
  destruct (emitFunctionInfo_bytes (method_function v)) as (b & Hb & Hs).
  exists (4 + 4 + 1), (wrap32 (getFunctionInfoSize (method_function v) + 3)),
    (little_endian 4 (fst (fst k)) ++ little_endian 4 (snd (fst k))
       ++ little_endian 1 (bool_N (snd k))),
    (b ++ little_endian 1 (bool_N (DesignatedInit v))
       ++ little_endian 1 (bool_N (FactoryAsInit v))
       ++ little_endian 1 (bool_N (Required v))).
  split; [by lengths_header|].
  split; [intros o; by lengths_header|].
  split; [intros o; lengths_header; rewrite Hb; by rewrite <- !app_assoc|].
  split; [done|].
  rewrite Hs, wrap32_add_l. f_equal.
  rewrite !length_app, !length_little_endian. lia.
Qed.

Lemma ObjCSelectorTableInfo_lengths env : LengthsMatch (ObjCSelectorTableInfo env).
Proof.
  intros out k v.
  exists (wrap32 (2 + 4 * N.of_nat (length (snd k)))), 4,
    (little_endian 2 (fst k) ++ concat (map (little_endian 4) (snd k))),
    (little_endian 4 v).
  split; [by lengths_header|].
  split; [intros o; lengths_header; rewrite fold_left_write_uint32;
          by rewrite <- !app_assoc|].
  split; [done|]. split; [|done]. f_equal.
  rewrite length_app, length_little_endian, length_concat_little_endian_4. lia.
Qed.

Lemma GlobalVariableTableInfo_lengths env :
  LengthsMatch (GlobalVariableTableInfo env).
Proof.
  intros out k v. destruct (emitVariableInfo_bytes v) as (b & Hb & Hs).
  exists 4, (getVariableInfoSize v), (little_endian 4 k), b.
  split; [by lengths_header|]. split; [done|].
  split; [intros o; lengths_header; by rewrite Hb|]. done.
Qed.

Lemma GlobalFunctionTableInfo_lengths env :
  LengthsMatch (GlobalFunctionTableInfo env).
Proof.
  intros out k v. destruct (emitFunctionInfo_bytes v) as (b & Hb & Hs).
  exists 4, (getFunctionInfoSize v), (little_endian 4 k), b.
  split; [by lengths_header|]. split; [done|].
  split; [intros o; lengths_header; by rewrite Hb|]. done.
Qed.

Lemma EnumConstantTableInfo_lengths env :
  LengthsMatch (EnumConstantTableInfo env).
Proof.
  intros out k v. destruct (emitCommonEntityInfo_bytes v) as (b & Hb & Hs).
  exists 4, (getCommonEntityInfoSize v), (little_endian 4 k), b.
  split; [by lengths_header|]. split; [done|].
  split; [intros o; lengths_header; by rewrite Hb|]. done.
Qed.

Lemma TagTableInfo_lengths env : LengthsMatch (TagTableInfo env).
Proof.
  intros out k v. destruct (emitCommonTypeInfo_bytes v) as (b & Hb & Hs).
  exists 4, (getCommonTypeInfoSize v), (little_endian 4 k), b.
  split; [by lengths_header|]. split; [done|].
  split; [intros o; lengths_header; by rewrite Hb|]. done.
Qed.

Lemma TypedefTableInfo_lengths env : LengthsMatch (TypedefTableInfo env).
Proof.
  intros out k v. destruct (emitCommonTypeInfo_bytes v) as (b & Hb & Hs).
  exists 4, (getCommonTypeInfoSize v), (little_endian 4 k), b.
  split; [by lengths_header|]. split; [done|].
  split; [intros o; lengths_header; by rewrite Hb|]. done.
Qed.

(** X1. For each of the ten table infos, the key length and the data
    length that [EmitKeyDataLength] writes (as two [uint16_t]) and
    returns are the numbers of bytes that [EmitKey] and [EmitData]
    append for the same entry, taken as 32-bit numbers; the emitters
    append to the stream and change nothing before. *)
Theorem table_lengths_match (env : Environment) :
  LengthsMatch (IdentifierTableInfo env)
  ∧ LengthsMatch (ObjCContextTableInfo env)
  ∧ LengthsMatch (ObjCPropertyTableInfo env)
  ∧ LengthsMatch (ObjCMethodTableInfo env)
  ∧ LengthsMatch (ObjCSelectorTableInfo env)
  ∧ LengthsMatch (GlobalVariableTableInfo env)
  ∧ LengthsMatch (GlobalFunctionTableInfo env)
  ∧ LengthsMatch (EnumConstantTableInfo env)
  ∧ LengthsMatch (TagTableInfo env)
  ∧ LengthsMatch (TypedefTableInfo env).
Proof.
  split; [apply IdentifierTableInfo_lengths|].
  split; [apply ObjCContextTableInfo_lengths|].
  split; [apply ObjCPropertyTableInfo_lengths|].
  split; [apply ObjCMethodTableInfo_lengths|].
  split; [apply ObjCSelectorTableInfo_lengths|].
  split; [apply GlobalVariableTableInfo_lengths|].
  split; [apply GlobalFunctionTableInfo_lengths|].
  split; [apply EnumConstantTableInfo_lengths|].
  split; [apply TagTableInfo_lengths|apply TypedefTableInfo_lengths].
Qed.

(** ** Interning again *)

Lemma getIdentifiers_known l w :
  (∀ t, t ∈ l → t ≠ "" → is_Some (IdentifierIDs w !! t)) →
  getIdentifiers l w = (map (storedIdentifier w) l, w).
Proof.
  induction l as [|t l IH]; intros Hknown; [done|].
  cbn [getIdentifiers map].
  assert (getIdentifier t w = (storedIdentifier w t, w)) as ->.
  { unfold storedIdentifier. destruct (decide (t = "")) as [->|Hne]; [done|].
    destruct (Hknown t) as [id Hid]; [by left|done|].
    rewrite Hid. by apply getIdentifier_known. }
  rewrite IH; [done|]. intros u Hu. apply Hknown. by right.
Qed.

Lemma getIdentifiers_later l w w' :
  (∀ s id, IdentifierIDs (snd (getIdentifiers l w)) !! s = Some id →
           IdentifierIDs w' !! s = Some id) →
  getIdentifiers l w' = (fst (getIdentifiers l w), w').
Proof.
  intros Hkeep. rewrite getIdentifiers_known.
  - f_equal. rewrite getIdentifiers_returns. apply map_ext_in.
    intros t Ht%list_elem_of_In. unfold storedIdentifier.
    destruct (decide (t = "")) as [|Hne]; [done|].
    destruct (getIdentifiers_interned l w t Ht Hne) as [id Hid].
    by rewrite Hid, (Hkeep _ _ Hid).
  - intros t Ht Hne. destruct (getIdentifiers_interned l w t Ht Hne) as [id Hid].
    exists id. by apply Hkeep.
Qed.

(** X2. Interning a selector is idempotent: once [getSelector] has
    returned an ID for a selector, a later call for the same selector,
    after any calls of the writer that return, gives the same ID and
    leaves the writer unchanged. *)
Theorem getSelector_idempotent (merge : ContextMerge) (sel : ObjCSelectorRef)
  (between : list Call) (w w' : Implementation) :
  performAll merge between (snd (getSelector sel w)) = Returned tt w' →
  getSelector sel w' = (fst (getSelector sel w), w').
Proof.
  intros Hrun. apply performAll_extends in Hrun as (Hids & Hsels & _).
  pose proof (getSelector_stored sel w) as Hst. apply Hsels in Hst.
  assert (getIdentifiers (Identifiers sel) w'
          = (fst (getIdentifiers (Identifiers sel) w), w')) as Hpieces.
  { apply getIdentifiers_later. intros s id.
    rewrite <- getSelector_identifiers. apply Hids. }
  unfold getSelector at 1. rewrite Hpieces. by rewrite Hst.
Qed.

Lemma getSelector_idempotent_witness :
  performAll orFlags [CallAddObjCClass "UIFont" plainContext]
    (snd (getSelector sel_fontWithName_size (newWriter "UIKit")))
  = Returned tt
      (snd (addObjCClass orFlags "UIFont" plainContext
              (snd (getSelector sel_fontWithName_size (newWriter "UIKit")))))
  ∧ getSelector sel_fontWithName_size
      (snd (addObjCClass orFlags "UIFont" plainContext
              (snd (getSelector sel_fontWithName_size (newWriter "UIKit")))))
    = (fst (getSelector sel_fontWithName_size (newWriter "UIKit")),
       snd (addObjCClass orFlags "UIFont" plainContext
              (snd (getSelector sel_fontWithName_size (newWriter "UIKit"))))).
Proof.
  assert (performAll orFlags [CallAddObjCClass "UIFont" plainContext]
            (snd (getSelector sel_fontWithName_size (newWriter "UIKit")))
          = Returned tt
              (snd (addObjCClass orFlags "UIFont" plainContext
                      (snd (getSelector sel_fontWithName_size
                              (newWriter "UIKit")))))) as H
    by reflexivity.
  split; [exact H|].
  exact (getSelector_idempotent orFlags sel_fontWithName_size
           [CallAddObjCClass "UIFont" plainContext] (newWriter "UIKit") _ H).
Defined.

(** ** Identifier numbering over a session *)

Lemma getIdentifier_table_ext s w v :
  IdentifierIDs w = IdentifierIDs v →
  fst (getIdentifier s w) = fst (getIdentifier s v)
  ∧ IdentifierIDs (snd (getIdentifier s w)) = IdentifierIDs (snd (getIdentifier s v)).
Proof.
  intros E. unfold getIdentifier. destruct (decide (s = "")); [done|].
  rewrite E. by destruct (IdentifierIDs v !! s).
Qed.

Lemma getIdentifiers_table_ext l w v :
  IdentifierIDs w = IdentifierIDs v →
  IdentifierIDs (snd (getIdentifiers l w)) = IdentifierIDs (snd (getIdentifiers l v)).
Proof.
  revert w v. induction l as [|s l IH]; intros w v E; [done|].
  cbn [getIdentifiers].
  destruct (getIdentifier_table_ext s w v E) as [_ E1].
  destruct (getIdentifier s w) as [k1 w1], (getIdentifier s v) as [k2 v1].
  specialize (IH w1 v1 E1).
  by destruct (getIdentifiers l w1), (getIdentifiers l v1).
Qed.

Lemma getIdentifiers_app l1 l2 w :
  snd (getIdentifiers (l1 ++ l2) w) =
  snd (getIdentifiers l2 (snd (getIdentifiers l1 w))).
Proof.
  revert w. induction l1 as [|s l1 IH]; intros w; [done|].
  cbn [app getIdentifiers]. destruct (getIdentifier s w) as [k w1].
  specialize (IH w1).
  by destruct (getIdentifiers (l1 ++ l2) w1), (getIdentifiers l1 w1).
Qed.

Lemma getIdentifiers_singleton name w :
  IdentifierIDs (snd (getIdentifiers [name] w)) =
  IdentifierIDs (snd (getIdentifier name w)).
Proof. cbn [getIdentifiers]. by destruct (getIdentifier name w). Qed.

(** A call interns the strings of [internedBy] and does nothing else to
    the identifier table. *)
Lemma perform_identifiers merge c w w' :
  perform merge c w = Returned tt w' →
  IdentifierIDs w' = IdentifierIDs (snd (getIdentifiers (internedBy c) w)).
Proof.
  destruct c as [name info|name info|contextID name isInstance info
                |contextID selector isInstanceMethod info
                |name info|name info|name info|name info|name info|opts];
    cbn [perform internedBy]; rewrite ?getIdentifiers_singleton.
  - intros [= <-]. apply (addObjCContext_identifiers merge false).
  - intros [= <-]. apply (addObjCContext_identifiers merge true).
  - unfold addObjCProperty. destruct (getIdentifier name w) as [id w1].
    destruct (ObjCProperties w1 !! _); [done|]. by intros [= <-].
  - rewrite addObjCMethod_unfold. cbn zeta.
    rewrite <- getSelector_identifiers.
    destruct (ObjCMethods w !! _); [done|].
    destruct (DesignatedInit info).
    + destruct (ObjCContexts w !! _); [|done]. intros [= <-].
      by destruct (ObjCContextNames w !! Value contextID).
    + by intros [= <-].
  - unfold addGlobalVariable. destruct (getIdentifier name w) as [id w1].
    destruct (GlobalVariables w1 !! _); [done|]. by intros [= <-].
  - unfold addGlobalFunction. destruct (getIdentifier name w) as [id w1].
    destruct (GlobalFunctions w1 !! _); [done|]. by intros [= <-].
  - unfold addEnumConstant. destruct (getIdentifier name w) as [id w1].
    destruct (EnumConstants w1 !! _); [done|]. by intros [= <-].
  - unfold addTag. destruct (getIdentifier name w) as [id w1].
    destruct (Tags w1 !! _); [done|]. by intros [= <-].
  - unfold addTypedef. destruct (getIdentifier name w) as [id w1].
    destruct (Typedefs w1 !! _); [done|]. by intros [= <-].
  - by intros [= <-].
Qed.

Lemma performAll_identifiers merge calls w w' :
  performAll merge calls w = Returned tt w' →
  IdentifierIDs w' =
  IdentifierIDs (snd (getIdentifiers (concat (map internedBy calls)) w)).
Proof.
  revert w. induction calls as [|c calls IH]; intros w; cbn [performAll].
  - by intros [= <-].
  - destruct (perform merge c w) as [[] w1|w1] eqn:E; [|done].
    intros Hrun. rewrite (IH _ Hrun). cbn [map concat].
    rewrite getIdentifiers_app. apply getIdentifiers_table_ext.
    by apply perform_identifiers in E.
Qed.

(** X3. Over a whole session the identifier table numbers the names in
    the order of first use: after any run of calls on a new writer that
    all return, the table holds exactly the distinct non-empty strings
    the calls interned (entity names and selector pieces), the i-th of
    them in first-seen order under ID i, provided their number fits in
    32 bits. *)
Theorem session_identifiers_first_seen (merge : ContextMerge)
  (calls : list Call) (moduleName : string) (w : Implementation) :
  performAll merge calls (newWriter moduleName) = Returned tt w →
  N.of_nat (length (firstSeen (concat (map internedBy calls)))) < 2 ^ 32 →
  Numbered (firstSeen (concat (map internedBy calls))) (IdentifierIDs w).
Proof.
  intros Hrun Hbound. rewrite (performAll_identifiers _ _ _ _ Hrun).
  exact (getIdentifiers_Numbered _ [] (newWriter moduleName)
           Numbered_empty Hbound).
Qed.

Lemma session_identifiers_first_seen_witness :
  (performAll orFlags
     [CallAddObjCClass "Foo" plainContext;
      CallAddObjCProperty (mkContextID 1) "bar" true nullableProperty]
     (newWriter "M") = Returned tt withFooBar
   ∧ N.of_nat (length (firstSeen (concat (map internedBy
       [CallAddObjCClass "Foo" plainContext;
        CallAddObjCProperty (mkContextID 1) "bar" true nullableProperty]))))
     < 2 ^ 32)
  ∧ Numbered (firstSeen (concat (map internedBy
       [CallAddObjCClass "Foo" plainContext;
        CallAddObjCProperty (mkContextID 1) "bar" true nullableProperty])))
      (IdentifierIDs withFooBar).
Proof.
  assert (performAll orFlags
            [CallAddObjCClass "Foo" plainContext;
             CallAddObjCProperty (mkContextID 1) "bar" true nullableProperty]
            (newWriter "M") = Returned tt withFooBar) as H1
    by (vm_compute; reflexivity).
  assert (N.of_nat (length (firstSeen (concat (map internedBy
            [CallAddObjCClass "Foo" plainContext;
             CallAddObjCProperty (mkContextID 1) "bar" true
               nullableProperty])))) < 2 ^ 32) as H2
    by (vm_compute; reflexivity).
  split; [exact (conj H1 H2)|].
  exact (session_identifiers_first_seen orFlags _ "M" withFooBar H1 H2).
Defined.

(** X4. In every state a session reaches, while the tables are within
    32-bit range: selector IDs are below the number of selectors and no
    two selectors share one; context handles lie between 1 and the
    number of contexts, no two contexts share one, classes and
    protocols alike, and the reverse mapping sends each handle to the
    identifier ID of the context's name. *)
Theorem session_handles_unique (merge : ContextMerge) (w : Implementation) :
  Reachable merge w → Bounded w →
  SelectorsOk (SelectorIDs w) ∧ ContextsOk w.
Proof.
  intros Hreach HB. by destruct (Reachable_ok merge w Hreach HB) as (_ & ? & ?).
Qed.

Lemma session_handles_unique_witness :
  (Reachable orFlags (snd withProtocolA) ∧ Bounded (snd withProtocolA))
  ∧ SelectorsOk (SelectorIDs (snd withProtocolA))
  ∧ ContextsOk (snd withProtocolA).
Proof.
  assert (Reachable orFlags (snd withProtocolA)) as H1.
  { apply (Reachable_call orFlags (snd withClassA)
             (CallAddObjCProtocol "A" plainContext)); [|reflexivity].
    apply (Reachable_call orFlags (newWriter "M")
             (CallAddObjCClass "A" plainContext)); [|reflexivity].
    constructor. }
  assert (Bounded (snd withProtocolA)) as H2
    by (repeat split; vm_compute; reflexivity).
  split; [exact (conj H1 H2)|].
  exact (session_handles_unique orFlags (snd withProtocolA) H1 H2).
Defined.

(** ** The payloads can be read back *)

Lemma string_bytes_inj s t : string_bytes s = string_bytes t → s = t.
Proof.
  revert t. induction s as [|c s IH]; intros [|d t]; simpl; try done.
  intros [= Hc Hs]. f_equal; [|by apply IH].
  by rewrite <- (ascii_N_embedding c), <- (ascii_N_embedding d), Hc.
Qed.

Lemma little_endian_2_inj a b :
  a < 2 ^ 16 → b < 2 ^ 16 → little_endian 2 a = little_endian 2 b → a = b.
Proof.
  intros Ha Hb E. apply (f_equal read_little_endian) in E.
  by rewrite !read_little_endian_2, !wrap16_small in E.
Qed.

(** A length-prefixed string is self-delimiting. *)
Lemma length_prefixed_inj s t (r1 r2 : list N) :
  string_size s < 2 ^ 16 → string_size t < 2 ^ 16 →
  little_endian 2 (string_size s) ++ string_bytes s ++ r1 =
  little_endian 2 (string_size t) ++ string_bytes t ++ r2 →
  s = t ∧ r1 = r2.
Proof.
  intros Hs Ht E.
  apply app_inj_1 in E as [E1 E2]; [|by rewrite !length_little_endian].
  apply little_endian_2_inj in E1; [|done..].
  apply app_inj_1 in E2 as [E2 E3].
  - split; [by apply string_bytes_inj|done].
  - rewrite !length_string_bytes. unfold string_size in E1. lia.
Qed.

Lemma commonEntityFlags_inj a b :
  commonEntityFlags a = commonEntityFlags b →
  UnavailableInSwift a = UnavailableInSwift b ∧ Unavailable a = Unavailable b
  ∧ SwiftPrivate a = SwiftPrivate b.
Proof.
  intros E.
  destruct (commonEntityFlags_bits a) as (A0 & A1 & A2 & _).
  destruct (commonEntityFlags_bits b) as (B0 & B1 & B2 & _).
  rewrite <- A0, <- A1, <- A2, <- B0, <- B1, <- B2. by rewrite E.
Qed.

Lemma emitCommonEntityInfo_inj a b (o r1 r2 : list N) :
  EntityFits a → EntityFits b →
  emitCommonEntityInfo o a ++ r1 = emitCommonEntityInfo o b ++ r2 →
  a = b ∧ r1 = r2.
Proof.
  intros [Ha1 Ha2] [Hb1 Hb2]. rewrite !emitCommonEntityInfo_app.
  rewrite <- !app_assoc. intros E%app_inv_head.
  apply app_inj_1 in E as [Ef E]; [|done]. injection Ef as Ef.
  apply length_prefixed_inj in E as [E1 E]; [|done..].
  apply length_prefixed_inj in E as [E2 E]; [|done..].
  apply commonEntityFlags_inj in Ef as (F0 & F1 & F2).
  split; [|done]. destruct a, b; simpl in *. by subst.
Qed.

Lemma emitCommonTypeInfo_inj a b (o r1 r2 : list N) :
  TypeFits a → TypeFits b →
  emitCommonTypeInfo o a ++ r1 = emitCommonTypeInfo o b ++ r2 →
  a = b ∧ r1 = r2.
Proof.
  intros (Ha & Ha1 & Ha2) (Hb & Hb1 & Hb2).
  unfold emitCommonTypeInfo, write_uint16, write_string.
  rewrite <- !app_assoc. intros E.
  apply emitCommonEntityInfo_inj in E as [E0 E]; [|done..].
  apply length_prefixed_inj in E as [E1 E]; [|done..].
  apply length_prefixed_inj in E as [E2 E]; [|done..].
  split; [|done]. destruct a, b; simpl in *. by subst.
Qed.

Lemma nullabilityBytes_inj x y (r1 r2 : list N) :
  NullabilityFits x → NullabilityFits y →
  nullabilityBytes x ++ r1 = nullabilityBytes y ++ r2 → x = y ∧ r1 = r2.
Proof.
  destruct x as [j|], y as [k|]; simpl; intros Hx Hy; try (by intros [=]).
  unfold wrap8. rewrite !N.mod_small by done. by intros [= -> ->].
Qed.

Lemma emitVariableInfo_inj a b (o r1 r2 : list N) :
  VariableFits a → VariableFits b →
  emitVariableInfo o a ++ r1 = emitVariableInfo o b ++ r2 →
  a = b ∧ r1 = r2.
Proof.
  intros (Ha & Ha1) (Hb & Hb1). unfold emitVariableInfo.
  rewrite <- !app_assoc. intros E.
  apply emitCommonEntityInfo_inj in E as [E0 E]; [|done..].
  apply nullabilityBytes_inj in E as [E1 E]; [|done..].
  split; [|done]. destruct a, b; simpl in *. by subst.
Qed.

(** X5. The common-entity, common-type and variable payloads are
    lossless and self-delimiting for infos that fit the format (strings
    shorter than 2^16 bytes, nullability kinds below 256): if two infos
    are emitted after the same prefix and the streams, each continued
    by some bytes, are equal, then the infos are equal and so are the
    continuations. *)
Theorem payloads_lossless (o r1 r2 : list N) :
  (∀ a b : CommonEntityInfo, EntityFits a → EntityFits b →
     emitCommonEntityInfo o a ++ r1 = emitCommonEntityInfo o b ++ r2 →
     a = b ∧ r1 = r2)
  ∧ (∀ a b : CommonTypeInfo, TypeFits a → TypeFits b →
       emitCommonTypeInfo o a ++ r1 = emitCommonTypeInfo o b ++ r2 →
       a = b ∧ r1 = r2)
  ∧ (∀ a b : VariableInfo, VariableFits a → VariableFits b →
       emitVariableInfo o a ++ r1 = emitVariableInfo o b ++ r2 →
       a = b ∧ r1 = r2).
Proof.
  split; [intros a b; apply emitCommonEntityInfo_inj|].
  split; [intros a b; apply emitCommonTypeInfo_inj|].
  intros a b; apply emitVariableInfo_inj.
Qed.

Lemma payloads_lossless_witness :
  (VariableFits nullableProperty
   ∧ emitVariableInfo [0] nullableProperty ++ [9]
     = emitVariableInfo [0] nullableProperty ++ [9])
  ∧ nullableProperty = nullableProperty ∧ [9] = [9].
Proof.
  assert (VariableFits nullableProperty) as H
    by (repeat split; vm_compute; reflexivity).
  split; [exact (conj H eq_refl)|].
  exact (proj2 (proj2 (payloads_lossless [0] [9] [9]))
           nullableProperty nullableProperty H H eq_refl).
Defined.

(** ** Parameters and functions *)

Lemma read_little_endian_little_endian width v :
  read_little_endian (little_endian width v) = v mod 256 ^ N.of_nat width.
Proof.
  revert v. induction width as [|n IH]; intros v.
  - simpl. by rewrite N.mod_1_r.
  - cbn [little_endian read_little_endian]. rewrite IH.
    rewrite Nat2N.inj_succ, N.pow_succ_r', N.Div0.mod_mul_r. lia.
Qed.

Lemma little_endian_inj width a b :
  a < 256 ^ N.of_nat width → b < 256 ^ N.of_nat width →
  little_endian width a = little_endian width b → a = b.
Proof.
  intros Ha Hb E. apply (f_equal read_little_endian) in E.
  by rewrite !read_little_endian_little_endian, !N.mod_small in E.
Qed.

Lemma ParamFits_cases pi :
  ParamFits pi →
  param_getNullability pi = None ∨ param_getNullability pi = Some 0 ∨
  param_getNullability pi = Some 1 ∨ param_getNullability pi = Some 2 ∨
  param_getNullability pi = Some 3.
Proof.
  unfold ParamFits. destruct (param_getNullability pi) as [k|]; [|by left].
  intros Hk. right.
  destruct (decide (k = 0)) as [->|]; [by left|]. right.
  destruct (decide (k = 1)) as [->|]; [by left|]. right.
  destruct (decide (k = 2)) as [->|]; [by left|]. right.
  f_equal. lia.
Qed.

(** X6. The payload byte of a parameter whose nullability kind, if any,
    is below 4: bit 3 is the no-escape flag, bit 2 tells whether a
    nullability is present, bits 0 and 1 hold its kind (0 when absent),
    and the higher bits are clear. *)
Theorem paramPayload_bits (pi : ParamInfo) :
  ParamFits pi →
  paramPayload pi =
    8 * bool_N (isNoEscape pi)
    + 4 * bool_N (bool_decide (is_Some (param_getNullability pi)))
    + default 0 (param_getNullability pi)
  ∧ N.testbit (paramPayload pi) 3 = isNoEscape pi
  ∧ N.testbit (paramPayload pi) 2
    = bool_decide (is_Some (param_getNullability pi))
  ∧ paramPayload pi mod 4 = default 0 (param_getNullability pi)
  ∧ paramPayload pi < 16.
Proof.
  intros Hfit. unfold paramPayload.
  destruct (ParamFits_cases pi Hfit) as [E|[E|[E|[E|E]]]]; rewrite E;
    destruct (isNoEscape pi); vm_compute; done.
Qed.

Lemma paramPayload_bits_witness :
  ParamFits {| isNoEscape := true; param_getNullability := Some 2 |}
  ∧ paramPayload {| isNoEscape := true; param_getNullability := Some 2 |} < 16.
Proof.
  assert (ParamFits {| isNoEscape := true; param_getNullability := Some 2 |})
    as H by (vm_compute; reflexivity).
  split; [exact H|].
  exact (proj2 (proj2 (proj2 (proj2 (paramPayload_bits _ H))))).
Defined.

Lemma paramPayload_facts pi :
  ParamFits pi →
  N.testbit (paramPayload pi) 3 = isNoEscape pi
  ∧ N.testbit (paramPayload pi) 2
    = bool_decide (is_Some (param_getNullability pi))
  ∧ paramPayload pi mod 4 = default 0 (param_getNullability pi)
  ∧ paramPayload pi < 16.
Proof.
  intros Hfit. unfold paramPayload.
  destruct (ParamFits_cases pi Hfit) as [E|[E|[E|[E|E]]]]; rewrite E;
    destruct (isNoEscape pi); vm_compute; done.
Qed.

Lemma paramPayload_inj p q :
  ParamFits p → ParamFits q →
  paramPayload p mod 256 = paramPayload q mod 256 → p = q.
Proof.
  intros Hp Hq.
  destruct (paramPayload_facts p Hp) as (P3 & P2 & P0 & Plt).
  destruct (paramPayload_facts q Hq) as (Q3 & Q2 & Q0 & Qlt).
  rewrite !N.mod_small by lia. intros E.
  rewrite E in P3, P2, P0. rewrite P3 in Q3. rewrite P2 in Q2. rewrite P0 in Q0.
  destruct p as [ne1 n1], q as [ne2 n2]. simpl in *. subst ne2.
  f_equal. destruct n1, n2; simpl in *; try done. exact (f_equal Some Q0).
Qed.

Lemma map_paramPayload_inj ps qs :
  Forall ParamFits ps → Forall ParamFits qs →
  map (λ pi, paramPayload pi mod 256) ps
  = map (λ pi, paramPayload pi mod 256) qs →
  ps = qs.
Proof.
  intros Hps. revert qs. induction Hps as [|p ps Hp Hps IH];
    intros [|q qs] Hqs; simpl; try done.
  intros [= E1 E2]. apply Forall_cons in Hqs as [Hq Hqs].
  f_equal; [by apply paramPayload_inj|by apply IH].
Qed.

Lemma emitFunctionInfo_app o info :
  emitFunctionInfo o info =
    emitCommonEntityInfo o (function_entity info)
    ++ little_endian 1 (bool_N (NullabilityAudited info))
    ++ little_endian 1 (NumAdjustedNullable info)
    ++ little_endian 8 (NullabilityPayload info)
    ++ little_endian 2 (N.of_nat (length (Params info)))
    ++ map (λ pi, paramPayload pi mod 256) (Params info).
Proof.
  unfold emitFunctionInfo. rewrite fold_left_write_uint8.
  unfold write_uint8, write_uint16, write_uint64. by rewrite <- !app_assoc.
Qed.

Lemma bool_N_inj a b : bool_N a = bool_N b → a = b.
Proof. by destruct a, b. Qed.

Lemma bool_byte_inj a b :
  little_endian 1 (bool_N a) = little_endian 1 (bool_N b) → a = b.
Proof. by destruct a, b. Qed.

Lemma emitFunctionInfo_inj a b (o r1 r2 : list N) :
  FunctionFits a → FunctionFits b →
  emitFunctionInfo o a ++ r1 = emitFunctionInfo o b ++ r2 →
  a = b ∧ r1 = r2.
Proof.
  intros (Ha & Ha1 & Ha2 & Ha3 & Ha4) (Hb & Hb1 & Hb2 & Hb3 & Hb4).
  rewrite !emitFunctionInfo_app, <- !app_assoc. intros E.
  apply emitCommonEntityInfo_inj in E as [E0 E]; [|done..].
  apply app_inj_1 in E as [E1 E]; [|done]. apply bool_byte_inj in E1.
  apply app_inj_1 in E as [E2 E]; [|done].
  apply little_endian_inj in E2; [|done..].
  apply app_inj_1 in E as [E3 E]; [|done].
  apply little_endian_inj in E3; [|done..].
  apply app_inj_1 in E as [E4 E]; [|done].
  apply little_endian_inj in E4; [|done..].
  apply app_inj_1 in E as [E5 E]; [|rewrite !length_map; lia].
  apply map_paramPayload_inj in E5; [|done..].
  split; [|done]. destruct a, b; simpl in *. by subst.
Qed.

(** ** Table data and keys can be read back *)

Lemma ObjCMethodTableInfo_data_inj env o k k' len len' a b (r1 r2 : list N) :
  FunctionFits (method_function a) → FunctionFits (method_function b) →
  EmitData (ObjCMethodTableInfo env) o k a len ++ r1
  = EmitData (ObjCMethodTableInfo env) o k' b len' ++ r2 →
  a = b ∧ r1 = r2.
Proof.
  intros Ha Hb. expose_emitters. unfold write_uint8.
  rewrite <- !app_assoc. intros E.
  apply emitFunctionInfo_inj in E as [E0 E]; [|done..].
  apply app_inj_1 in E as [E1 E]; [|done]. apply bool_byte_inj in E1.
  apply app_inj_1 in E as [E2 E]; [|done]. apply bool_byte_inj in E2.
  apply app_inj_1 in E as [E3 E]; [|done]. apply bool_byte_inj in E3.
  split; [|done]. destruct a, b; simpl in *. by subst.
Qed.

Lemma ObjCContextTableInfo_data_inj env o k k' len len' a b (r1 r2 : list N) :
  ContextDataFits a → ContextDataFits b →
  EmitData (ObjCContextTableInfo env) o k a len ++ r1
  = EmitData (ObjCContextTableInfo env) o k' b len' ++ r2 →
  a = b ∧ r1 = r2.
Proof.
  intros (Ha & Ha1 & Ha2) (Hb & Hb1 & Hb2). expose_emitters.
  unfold write_uint32. rewrite <- !app_assoc. intros E.
  assert (∀ (x : list N) info rest,
            emitCommonTypeInfo (o ++ x) info ++ rest
            = o ++ x ++ (emitCommonTypeInfo [] info ++ rest)) as Hshift.
  { intros x info rest.
    destruct (emitCommonTypeInfo_bytes info) as (bs & Hbs & _).
    rewrite (Hbs (o ++ x)), (Hbs []). by rewrite <- !app_assoc. }
  rewrite !Hshift in E. apply app_inv_head in E.
  apply app_inj_1 in E as [E1 E]; [|by rewrite !length_little_endian].
  apply little_endian_inj in E1; [|done..].
  apply emitCommonTypeInfo_inj in E as [E2 E]; [|done..].
  apply nullabilityBytes_inj in E as [E3 E]; [|done..].
  apply app_inj_1 in E as [E4 E]; [|done].
  injection E4 as E4%bool_N_inj.
  split; [|done]. destruct a as [h1 [t1 n1 d1]], b as [h2 [t2 n2 d2]].
  simpl in *. by subst.
Qed.

(** X7. What the function, method and context tables store for an entry
    determines the entry: for infos that fit the format (strings and
    the parameter count below 2^16, the adjusted count below 256, the
    nullability payload below 2^64, parameter nullability kinds below
    4, the context handle below 2^32), equal output of [emitFunctionInfo]
    or of [EmitData] of the method and context tables, each continued by
    some bytes, means equal infos (and handles) and equal
    continuations. *)
Theorem table_data_lossless (env : Environment) (o r1 r2 : list N) :
  (∀ a b : FunctionInfo, FunctionFits a → FunctionFits b →
     emitFunctionInfo o a ++ r1 = emitFunctionInfo o b ++ r2 →
     a = b ∧ r1 = r2)
  ∧ (∀ k k' len len' (a b : ObjCMethodInfo),
       FunctionFits (method_function a) → FunctionFits (method_function b) →
       EmitData (ObjCMethodTableInfo env) o k a len ++ r1
       = EmitData (ObjCMethodTableInfo env) o k' b len' ++ r2 →
       a = b ∧ r1 = r2)
  ∧ (∀ k k' len len' (a b : N * ObjCContextInfo),
       ContextDataFits a → ContextDataFits b →
       EmitData (ObjCContextTableInfo env) o k a len ++ r1
       = EmitData (ObjCContextTableInfo env) o k' b len' ++ r2 →
       a = b ∧ r1 = r2).
Proof.
  split; [intros a b; apply emitFunctionInfo_inj|].
  split; [intros k k' len len' a b; apply ObjCMethodTableInfo_data_inj|].
  intros k k' len len' a b; apply ObjCContextTableInfo_data_inj.
Qed.

Lemma table_data_lossless_witness :
  (FunctionFits (method_function designatedMethod)
   ∧ EmitData (ObjCMethodTableInfo sampleEnvironment) [] (1, 0, true)
       designatedMethod 0 ++ []
     = EmitData (ObjCMethodTableInfo sampleEnvironment) [] (2, 5, false)
         designatedMethod 7 ++ [])
  ∧ designatedMethod = designatedMethod ∧ @nil N = [].
Proof.
  assert (FunctionFits (method_function designatedMethod)) as H.
  { split; [split; vm_compute; reflexivity|].
    split; [vm_compute; reflexivity|]. split; [vm_compute; reflexivity|].
    split; [vm_compute; reflexivity|].
    repeat constructor. }
  split; [exact (conj H eq_refl)|].
  exact (proj1 (proj2 (table_data_lossless sampleEnvironment [] [] []))
           (1, 0, true) (2, 5, false) 0 7 designatedMethod designatedMethod
           H H eq_refl).
Defined.

Lemma concat_little_endian_4_inj (xs ys : list N) :
  Forall (λ piece, piece < 2 ^ 32) xs → Forall (λ piece, piece < 2 ^ 32) ys →
  concat (map (little_endian 4) xs) = concat (map (little_endian 4) ys) →
  xs = ys.
Proof.
  intros Hxs. revert ys. induction Hxs as [|x xs Hx Hxs IH]; intros ys Hys E.
  - destruct ys as [|y ys]; [done|]. discriminate E.
  - destruct Hys as [|y ys Hy Hys]; [discriminate E|].
    cbn [map concat] in E.
    apply app_inj_1 in E as [E1 E2]; [|by rewrite !length_little_endian].
    apply little_endian_inj in E1; [|done..].
    f_equal; [done|by apply IH].
Qed.

Lemma member_key_inj (o : list N) (k1 k2 : N * N * bool) :
  MemberKeyFits k1 → MemberKeyFits k2 →
  write_uint8 (bool_N (snd k1))
    (write_uint32 (snd (fst k1)) (write_uint32 (fst (fst k1)) o))
  = write_uint8 (bool_N (snd k2))
      (write_uint32 (snd (fst k2)) (write_uint32 (fst (fst k2)) o)) →
  k1 = k2.
Proof.
  intros [A1 A2] [B1 B2]. unfold write_uint8, write_uint32.
  rewrite <- !app_assoc. intros E%app_inv_head.
  apply app_inj_1 in E as [E1 E]; [|by rewrite !length_little_endian].
  apply little_endian_inj in E1; [|done..].
  apply app_inj_1 in E as [E2 E]; [|by rewrite !length_little_endian].
  apply little_endian_inj in E2; [|done..].
  apply bool_byte_inj in E.
  destruct k1 as [[a1 b1] c1], k2 as [[a2 b2] c2]. simpl in *. by subst.
Qed.

Lemma id_key_inj (o : list N) (k1 k2 : N) :
  k1 < 2 ^ 32 → k2 < 2 ^ 32 → write_uint32 k1 o = write_uint32 k2 o → k1 = k2.
Proof.
  intros H1 H2. unfold write_uint32. intros E%app_inv_head.
  by apply little_endian_inj in E.
Qed.

(** X8. The key encodings tell keys apart: for each of the ten tables,
    two keys whose IDs fit in 32 bits (and whose selector piece count
    fits in 16 bits) and for which [EmitKey] appends the same bytes to
    the same stream are equal. *)
Theorem table_keys_injective (env : Environment) (o : list N) (l1 l2 : N) :
  (∀ k1 k2 : string,
     EmitKey (IdentifierTableInfo env) o k1 l1
     = EmitKey (IdentifierTableInfo env) o k2 l2 → k1 = k2)
  ∧ (∀ k1 k2, ContextKeyFits k1 → ContextKeyFits k2 →
       EmitKey (ObjCContextTableInfo env) o k1 l1
       = EmitKey (ObjCContextTableInfo env) o k2 l2 → k1 = k2)
  ∧ (∀ k1 k2, MemberKeyFits k1 → MemberKeyFits k2 →
       EmitKey (ObjCPropertyTableInfo env) o k1 l1
       = EmitKey (ObjCPropertyTableInfo env) o k2 l2 → k1 = k2)
  ∧ (∀ k1 k2, MemberKeyFits k1 → MemberKeyFits k2 →
       EmitKey (ObjCMethodTableInfo env) o k1 l1
       = EmitKey (ObjCMethodTableInfo env) o k2 l2 → k1 = k2)
  ∧ (∀ k1 k2, SelectorKeyFits k1 → SelectorKeyFits k2 →
       EmitKey (ObjCSelectorTableInfo env) o k1 l1
       = EmitKey (ObjCSelectorTableInfo env) o k2 l2 → k1 = k2)
  ∧ (∀ k1 k2 : N, k1 < 2 ^ 32 → k2 < 2 ^ 32 →
       (EmitKey (GlobalVariableTableInfo env) o k1 l1
        = EmitKey (GlobalVariableTableInfo env) o k2 l2 → k1 = k2)
       ∧ (EmitKey (GlobalFunctionTableInfo env) o k1 l1
          = EmitKey (GlobalFunctionTableInfo env) o k2 l2 → k1 = k2)
       ∧ (EmitKey (EnumConstantTableInfo env) o k1 l1
          = EmitKey (EnumConstantTableInfo env) o k2 l2 → k1 = k2)
       ∧ (EmitKey (TagTableInfo env) o k1 l1
          = EmitKey (TagTableInfo env) o k2 l2 → k1 = k2)
       ∧ (EmitKey (TypedefTableInfo env) o k1 l1
          = EmitKey (TypedefTableInfo env) o k2 l2 → k1 = k2)).
Proof.
  split.
  { intros k1 k2. expose_emitters. unfold write_string.
    intros E%app_inv_head. by apply string_bytes_inj. }
  split.
  { intros k1 k2 H1 H2. expose_emitters. unfold write_uint8, write_uint32.
    rewrite <- !app_assoc. intros E%app_inv_head.
    apply app_inj_1 in E as [E1 E]; [|by rewrite !length_little_endian].
    apply little_endian_inj in E1; [|done..]. apply bool_byte_inj in E.
    destruct k1, k2. simpl in *. by subst. }
  split; [intros k1 k2 H1 H2; expose_emitters; by apply member_key_inj|].
  split; [intros k1 k2 H1 H2; expose_emitters; by apply member_key_inj|].
  split.
  { intros k1 k2 [A1 A2] [B1 B2]. expose_emitters.
    rewrite !fold_left_write_uint32. unfold write_uint16.
    rewrite <- !app_assoc. intros E%app_inv_head.
    apply app_inj_1 in E as [E1 E]; [|by rewrite !length_little_endian].
    apply little_endian_inj in E1; [|done..].
    apply concat_little_endian_4_inj in E; [|done..].
    destruct k1, k2. simpl in *. by subst. }
  intros k1 k2 H1 H2. repeat split; expose_emitters; by apply id_key_inj.
Qed.

Lemma table_keys_injective_witness :
  (SelectorKeyFits (2, [1; 2])
   ∧ EmitKey (ObjCSelectorTableInfo sampleEnvironment) [] (2, [1; 2]) 10
     = EmitKey (ObjCSelectorTableInfo sampleEnvironment) [] (2, [1; 2]) 10)
  ∧ (2, [1; 2]) = (2, [1; 2]).
Proof.
  assert (SelectorKeyFits (2, [1; 2])) as H.
  { split; [vm_compute; reflexivity|].
    repeat constructor; vm_compute; reflexivity. }
  split; [exact (conj H eq_refl)|].
  exact (proj1 (proj2 (proj2 (proj2 (proj2
           (table_keys_injective sampleEnvironment [] 10 10)))))
           (2, [1; 2]) (2, [1; 2]) H H eq_refl).
Defined.

(** ** What a session keeps *)

Lemma recordsKept_refl w : recordsKept w w.
Proof. by repeat split. Qed.

Lemma recordsKept_trans w1 w2 w3 :
  recordsKept w1 w2 → recordsKept w2 w3 → recordsKept w1 w3.
Proof.
  intros (A1 & A2 & A3 & A4 & A5 & A6 & A7) (B1 & B2 & B3 & B4 & B5 & B6 & B7).
  repeat split; eauto.
Qed.

Lemma sameRecords_kept w w' : sameRecords w w' → recordsKept w w'.
Proof.
  intros (_ & R1 & R2 & R3 & R4 & R5 & R6 & R7).
  repeat split; intros k v; congruence.
Qed.

Lemma insert_fresh_keeps `{Countable K} {A : Type} (m : gmap K A) k0 x k v :
  m !! k0 = None → m !! k = Some v → <[k0 := x]> m !! k = Some v.
Proof. intros H0 Hk. rewrite lookup_insert_ne; [done|]. congruence. Qed.

Lemma perform_keeps merge c w w' :
  perform merge c w = Returned tt w' → recordsKept w w'.
Proof.
  destruct c as [name info|name info|contextID name isInstance info
                |contextID selector isInstanceMethod info
                |name info|name info|name info|name info|name info|opts];
    cbn [perform].
  - intros [= <-]. eapply recordsKept_trans;
      [apply sameRecords_kept, (getIdentifier_records name)|].
    change (addObjCClass merge) with (addObjCContext merge false).
    destruct (ObjCContexts w !! (fst (getIdentifier name w), false))
      as [[cid stored]|] eqn:E.
    + rewrite (addObjCContext_known _ _ _ _ _ _ _ E). by repeat split.
    + rewrite (addObjCContext_fresh _ _ _ _ _ E). by repeat split.
  - intros [= <-]. eapply recordsKept_trans;
      [apply sameRecords_kept, (getIdentifier_records name)|].
    change (addObjCProtocol merge) with (addObjCContext merge true).
    destruct (ObjCContexts w !! (fst (getIdentifier name w), true))
      as [[cid stored]|] eqn:E.
    + rewrite (addObjCContext_known _ _ _ _ _ _ _ E). by repeat split.
    + rewrite (addObjCContext_fresh _ _ _ _ _ E). by repeat split.
  - intros Hret. eapply recordsKept_trans;
      [apply sameRecords_kept, (getIdentifier_records name)|].
    unfold addObjCProperty in Hret. destruct (getIdentifier name w) as [id w1].
    cbn [snd]. destruct (ObjCProperties w1 !! _) eqn:E; [done|].
    injection Hret as <-. repeat split; try done.
    intros k v. by apply insert_fresh_keeps.
  - rewrite addObjCMethod_unfold. cbn zeta.
    pose proof (getSelector_records selector w) as R.
    apply sameRecords_kept in R.
    destruct (ObjCMethods w !! _) eqn:E; [done|].
    assert (recordsKept w
              (with_ObjCMethods
                 (<[(Value contextID, fst (getSelector selector w),
                     isInstanceMethod) := info]> (ObjCMethods w))
                 (snd (getSelector selector w)))) as Hm.
    { destruct R as (R1 & R2 & R3 & R4 & R5 & R6 & R7).
      repeat split; try done. intros k v. by apply insert_fresh_keeps. }
    destruct (DesignatedInit info); [|by intros [= <-]].
    destruct (ObjCContexts w !! _); [|done]. intros [= <-].
    by destruct (ObjCContextNames w !! Value contextID).
  - intros Hret. eapply recordsKept_trans;
      [apply sameRecords_kept, (getIdentifier_records name)|].
    unfold addGlobalVariable in Hret. destruct (getIdentifier name w) as [id w1].
    cbn [snd]. destruct (GlobalVariables w1 !! _) eqn:E; [done|].
    injection Hret as <-. repeat split; try done.
    intros k v. by apply insert_fresh_keeps.
  - intros Hret. eapply recordsKept_trans;
      [apply sameRecords_kept, (getIdentifier_records name)|].
    unfold addGlobalFunction in Hret. destruct (getIdentifier name w) as [id w1].
    cbn [snd]. destruct (GlobalFunctions w1 !! _) eqn:E; [done|].
    injection Hret as <-. repeat split; try done.
    intros k v. by apply insert_fresh_keeps.
  - intros Hret. eapply recordsKept_trans;
      [apply sameRecords_kept, (getIdentifier_records name)|].
    unfold addEnumConstant in Hret. destruct (getIdentifier name w) as [id w1].
    cbn [snd]. destruct (EnumConstants w1 !! _) eqn:E; [done|].
    injection Hret as <-. repeat split; try done.
    intros k v. by apply insert_fresh_keeps.
  - intros Hret. eapply recordsKept_trans;
      [apply sameRecords_kept, (getIdentifier_records name)|].
    unfold addTag in Hret. destruct (getIdentifier name w) as [id w1].
    cbn [snd]. destruct (Tags w1 !! _) eqn:E; [done|].
    injection Hret as <-. repeat split; try done.
    intros k v. by apply insert_fresh_keeps.
  - intros Hret. eapply recordsKept_trans;
      [apply sameRecords_kept, (getIdentifier_records name)|].
    unfold addTypedef in Hret. destruct (getIdentifier name w) as [id w1].
    cbn [snd]. destruct (Typedefs w1 !! _) eqn:E; [done|].
    injection Hret as <-. repeat split; try done.
    intros k v. by apply insert_fresh_keeps.
  - intros [= <-]. by repeat split.
Qed.

Lemma performAll_keeps merge calls w w' :
  performAll merge calls w = Returned tt w' → recordsKept w w'.
Proof.
  revert w. induction calls as [|c calls IH]; intros w; cbn [performAll].
  - intros [= <-]. apply recordsKept_refl.
  - destruct (perform merge c w) as [[] w1|w1] eqn:E; [|done].
    intros H. eapply recordsKept_trans; [by eapply perform_keeps|by apply IH].
Qed.

(** X9. No call of the writer removes or alters a record it holds,
    contexts apart: through any run of calls that return, every
    property, method, global variable, global function, enumerator, tag
    and typedef record stays under its key with the info it had, and
    every context stays under its key with its handle (its info may be
    merged into or flagged). *)
Theorem session_keeps_records (merge : ContextMerge) (calls : list Call)
  (w w' : Implementation) :
  performAll merge calls w = Returned tt w' →
  recordsKept w w'
  ∧ ∀ key cid info, ObjCContexts w !! key = Some (cid, info) →
      ∃ info', ObjCContexts w' !! key = Some (cid, info').
Proof.
  intros Hrun. split; [by eapply performAll_keeps|].
  by apply performAll_extends in Hrun as (_ & _ & ? & _).
Qed.

Lemma session_keeps_records_witness :
  performAll orFlags
    [CallAddObjCProperty (mkContextID 1) "bar" false nullableProperty]
    withFooBar
  = Returned tt
      (finalState (addObjCProperty (mkContextID 1) "bar" false
                     nullableProperty withFooBar))
  ∧ recordsKept withFooBar
      (finalState (addObjCProperty (mkContextID 1) "bar" false
                     nullableProperty withFooBar)).
Proof.
  assert (performAll orFlags
            [CallAddObjCProperty (mkContextID 1) "bar" false nullableProperty]
            withFooBar
          = Returned tt
              (finalState (addObjCProperty (mkContextID 1) "bar" false
                             nullableProperty withFooBar))) as H
    by (vm_compute; reflexivity).
  split; [exact H|].
  exact (proj1 (session_keeps_records orFlags _ withFooBar _ H)).
Defined.

Lemma storedIdentifier_kept w w' t :
  (t ≠ "" → is_Some (IdentifierIDs w !! t)) →
  (∀ s id, IdentifierIDs w !! s = Some id → IdentifierIDs w' !! s = Some id) →
  storedIdentifier w' t = storedIdentifier w t.
Proof.
  intros Hin Hkeep. unfold storedIdentifier.
  destruct (decide (t = "")) as [|Hne]; [done|].
  destruct (Hin Hne) as [id Hid]. by rewrite Hid, (Hkeep _ _ Hid).
Qed.

Lemma storedIdentifier_getIdentifier name w :
  storedIdentifier (snd (getIdentifier name w)) name = fst (getIdentifier name w).
Proof.
  unfold storedIdentifier. destruct (decide (name = "")) as [->|Hne]; [done|].
  by rewrite getIdentifier_stored.
Qed.

(** The ID a name was interned to, read in a later state. *)
Lemma storedIdentifier_later name w w1 w' :
  IdentifierIDs w1 = IdentifierIDs (snd (getIdentifier name w)) →
  (∀ s id, IdentifierIDs w1 !! s = Some id → IdentifierIDs w' !! s = Some id) →
  storedIdentifier w' name = fst (getIdentifier name w).
Proof.
  intros E Hkeep. rewrite <- storedIdentifier_getIdentifier.
  rewrite (storedIdentifier_ext (snd (getIdentifier name w)) w1) by done.
  apply storedIdentifier_kept; [|done].
  intros Hne. rewrite E, getIdentifier_stored by done. eauto.
Qed.

(** X10. What a session adds it holds at the end: if a call returns and
    the calls after it return, the final state has the record of that
    call under the key made of the IDs its names are interned to in the
    final state, with the info as given; for a class or protocol, a
    record for that name and kind. *)
Theorem added_is_held (merge : ContextMerge) (c : Call) (later : list Call)
  (w w1 w' : Implementation) :
  perform merge c w = Returned tt w1 →
  performAll merge later w1 = Returned tt w' →
  holds c w'.
Proof.
  intros Hc Hlater.
  pose proof (perform_identifiers _ _ _ _ Hc) as Hids.
  pose proof (performAll_keeps _ _ _ _ Hlater)
    as (K1 & K2 & K3 & K4 & K5 & K6 & K7).
  apply performAll_extends in Hlater as (Hkeep & Hsels & Hctx & _).
  destruct c as [name info|name info|contextID name isInstance info
                |contextID selector isInstanceMethod info
                |name info|name info|name info|name info|name info|opts];
    cbn [perform internedBy holds] in *;
    rewrite ?getIdentifiers_singleton in Hids;
    try rewrite (storedIdentifier_later name w w1 w' Hids Hkeep).
  - injection Hc as <-.
    destruct (addObjCContext_stored merge false name info w) as [st Hst].
    apply Hctx in Hst as [st' Hst']. eauto.
  - injection Hc as <-.
    destruct (addObjCContext_stored merge true name info w) as [st Hst].
    apply Hctx in Hst as [st' Hst']. eauto.
  - apply K1. unfold addObjCProperty in Hc.
    destruct (getIdentifier name w) as [id w0]. cbn [fst].
    destruct (ObjCProperties w0 !! _); [done|]. injection Hc as <-.
    cbn. by rewrite lookup_insert_eq.
  - exists (fst (getSelector selector w)).
    assert (SelectorIDs w1 = SelectorIDs (snd (getSelector selector w))
            ∧ ObjCMethods w1 !! (Value contextID, fst (getSelector selector w),
                                 isInstanceMethod) = Some info) as [Es Em].
    { rewrite addObjCMethod_unfold in Hc. cbn zeta in Hc.
      destruct (ObjCMethods w !! _); [done|].
      destruct (DesignatedInit info).
      - destruct (ObjCContexts w !! _); [|done]. injection Hc as <-.
        destruct (ObjCContextNames w !! Value contextID); cbn;
          by rewrite lookup_insert_eq.
      - injection Hc as <-. cbn. by rewrite lookup_insert_eq. }
    split; [|by apply K2].
    apply Hsels. rewrite Es.
    replace (map (storedIdentifier w') (Identifiers selector))
      with (fst (getIdentifiers (Identifiers selector) w));
      [apply getSelector_stored|].
    rewrite getIdentifiers_returns. apply map_ext_in.
    intros t Ht%list_elem_of_In. symmetry.
    rewrite (storedIdentifier_ext
               (snd (getIdentifiers (Identifiers selector) w)) w1) by done.
    apply storedIdentifier_kept; [|done].
    intros Hne. rewrite Hids. by apply getIdentifiers_interned.
  - apply K3. unfold addGlobalVariable in Hc.
    destruct (getIdentifier name w) as [id w0]. cbn [fst].
    destruct (GlobalVariables w0 !! _); [done|]. injection Hc as <-.
    cbn. by rewrite lookup_insert_eq.
  - apply K4. unfold addGlobalFunction in Hc.
    destruct (getIdentifier name w) as [id w0]. cbn [fst].
    destruct (GlobalFunctions w0 !! _); [done|]. injection Hc as <-.
    cbn. by rewrite lookup_insert_eq.
  - apply K5. unfold addEnumConstant in Hc.
    destruct (getIdentifier name w) as [id w0]. cbn [fst].
    destruct (EnumConstants w0 !! _); [done|]. injection Hc as <-.
    cbn. by rewrite lookup_insert_eq.
  - apply K6. unfold addTag in Hc.
    destruct (getIdentifier name w) as [id w0]. cbn [fst].
    destruct (Tags w0 !! _); [done|]. injection Hc as <-.
    cbn. by rewrite lookup_insert_eq.
  - apply K7. unfold addTypedef in Hc.
    destruct (getIdentifier name w) as [id w0]. cbn [fst].
    destruct (Typedefs w0 !! _); [done|]. injection Hc as <-.
    cbn. by rewrite lookup_insert_eq.
  - done.
Qed.

Lemma added_is_held_witness :
  (perform orFlags (CallAddGlobalVariable "kVar" nullableProperty)
     (newWriter "M")
   = Returned tt (finalState (addGlobalVariable "kVar" nullableProperty
                                (newWriter "M")))
   ∧ performAll orFlags [CallAddObjCClass "Foo" plainContext]
       (finalState (addGlobalVariable "kVar" nullableProperty (newWriter "M")))
     = Returned tt
         (snd (addObjCClass orFlags "Foo" plainContext
                 (finalState (addGlobalVariable "kVar" nullableProperty
                                (newWriter "M"))))))
  ∧ holds (CallAddGlobalVariable "kVar" nullableProperty)
      (snd (addObjCClass orFlags "Foo" plainContext
              (finalState (addGlobalVariable "kVar" nullableProperty
                             (newWriter "M"))))).
Proof.
  assert (perform orFlags (CallAddGlobalVariable "kVar" nullableProperty)
            (newWriter "M")
          = Returned tt (finalState (addGlobalVariable "kVar" nullableProperty
                                       (newWriter "M")))) as H1
    by (vm_compute; reflexivity).
  assert (performAll orFlags [CallAddObjCClass "Foo" plainContext]
            (finalState (addGlobalVariable "kVar" nullableProperty
                           (newWriter "M")))
          = Returned tt
              (snd (addObjCClass orFlags "Foo" plainContext
                      (finalState (addGlobalVariable "kVar" nullableProperty
                                     (newWriter "M")))))) as H2
    by reflexivity.
  split; [exact (conj H1 H2)|].
  exact (added_is_held orFlags _ _ _ _ _ H1 H2).
Defined.

(** ** The records of the file *)

Lemma layoutsEmitted_app ops1 ops2 :
  layoutsEmitted (ops1 ++ ops2) = layoutsEmitted ops1 ++ layoutsEmitted ops2.
Proof. unfold layoutsEmitted. apply omap_app. Qed.

Lemma layoutsEmitted_signature (signature : list N) :
  layoutsEmitted (map (λ byte, Emit byte 8) signature) = [].
Proof. induction signature as [|b l IH]; [done|]. exact IH. Qed.

Lemma writeBlockInfoBlock_layouts env writer :
  (∀ kind, recordValue env kind < 256) →
  ∃ block, writeBlockInfoBlock env writer = Some (writer ++ block)
           ∧ layoutsEmitted block = [].
Proof.
  intros Hsmall. unfold writeBlockInfoBlock, emitBlockID.
  repeat (rewrite emitRecordID_Some by apply Hsmall; cbn [mbind option_bind]).
  repeat match goal with
         | |- context [decide (?s = "")] =>
             destruct (decide (s = "")) as [?|_]; [discriminate|]
         end.
  eexists. split.
  - rewrite <- !app_assoc. cbn [app]. reflexivity.
  - reflexivity.
Qed.

(** X11. The file carries, through record layouts, exactly: the version
    record and the module-name record; the module-options record when
    the infer-import-as-member flag is set; and then one data record for
    each table that is not empty, in the order identifiers, contexts,
    properties, methods, selectors, global variables, global functions,
    enum constants, tags, typedefs. An empty table contributes none. *)
Theorem file_records (env : Environment) (w : Implementation) :
  (∀ kind, recordValue env kind < 256) →
  ∃ ops,
    writeToBitstream env w = Some ops
    ∧ layoutsEmitted ops =
        [METADATA; MODULE_NAME]
        ++ (if SwiftInferImportAsMember w then [MODULE_OPTIONS] else [])
        ++ concat (map (λ t, if decide (tableSize t w = 0%nat) then []
                             else [tableRecord t]) allTables).
Proof.
  intros Hsmall. unfold writeToBitstream.
  rewrite emit_signature. cbn [app].
  destruct (writeBlockInfoBlock_layouts env
              (map (λ byte, Emit byte 8) (API_NOTES_SIGNATURE env)) Hsmall)
    as (blockInfo & -> & HbI).
  cbn [mbind option_bind]. rewrite writeControlBlock_ops.
  match goal with |- context [writeIdentifierBlock env w ?wr] =>
    destruct (writeBlock_isBlock env IdentifierTable w wr)
      as (b1 & E1 & _ & L1) end.
  cbn [writeBlock] in E1. rewrite E1.
  match goal with |- context [writeObjCContextBlock env w ?wr] =>
    destruct (writeBlock_isBlock env ObjCContextTable w wr)
      as (b2 & E2 & _ & L2) end.
  cbn [writeBlock] in E2. rewrite E2.
  match goal with |- context [writeObjCPropertyBlock env w ?wr] =>
    destruct (writeBlock_isBlock env ObjCPropertyTable w wr)
      as (b3 & E3 & _ & L3) end.
  cbn [writeBlock] in E3. rewrite E3.
  match goal with |- context [writeObjCMethodBlock env w ?wr] =>
    destruct (writeBlock_isBlock env ObjCMethodTable w wr)
      as (b4 & E4 & _ & L4) end.
  cbn [writeBlock] in E4. rewrite E4.
  match goal with |- context [writeObjCSelectorBlock env w ?wr] =>
    destruct (writeBlock_isBlock env ObjCSelectorTable w wr)
      as (b5 & E5 & _ & L5) end.
  cbn [writeBlock] in E5. rewrite E5.
  match goal with |- context [writeGlobalVariableBlock env w ?wr] =>
    destruct (writeBlock_isBlock env GlobalVariableTable w wr)
      as (b6 & E6 & _ & L6) end.
  cbn [writeBlock] in E6. rewrite E6.
  match goal with |- context [writeGlobalFunctionBlock env w ?wr] =>
    destruct (writeBlock_isBlock env GlobalFunctionTable w wr)
      as (b7 & E7 & _ & L7) end.
  cbn [writeBlock] in E7. rewrite E7.
  match goal with |- context [writeEnumConstantBlock env w ?wr] =>
    destruct (writeBlock_isBlock env EnumConstantTable w wr)
      as (b8 & E8 & _ & L8) end.
  cbn [writeBlock] in E8. rewrite E8.
  match goal with |- context [writeTagBlock env w ?wr] =>
    destruct (writeBlock_isBlock env TagTable w wr)
      as (b9 & E9 & _ & L9) end.
  cbn [writeBlock] in E9. rewrite E9.
  match goal with |- context [writeTypedefBlock env w ?wr] =>
    destruct (writeBlock_isBlock env TypedefTable w wr)
      as (b10 & E10 & _ & L10) end.
  cbn [writeBlock] in E10. rewrite E10.
  eexists. split; [reflexivity|].
  rewrite !layoutsEmitted_app, layoutsEmitted_signature, HbI,
    L1, L2, L3, L4, L5, L6, L7, L8, L9, L10.
  cbn [allTables map concat app].
  rewrite <- !app_assoc, !app_nil_r.
  by destruct (SwiftInferImportAsMember w).
Qed.

Lemma file_records_witness :
  (∀ kind, recordValue sampleEnvironment kind < 256)
  ∧ ∃ ops,
      writeToBitstream sampleEnvironment withFooBar = Some ops
      ∧ layoutsEmitted ops =
          [METADATA; MODULE_NAME]
          ++ (if SwiftInferImportAsMember withFooBar then [MODULE_OPTIONS]
              else [])
          ++ concat (map (λ t, if decide (tableSize t withFooBar = 0%nat)
                               then [] else [tableRecord t]) allTables).
Proof.
  assert (∀ kind, recordValue sampleEnvironment kind < 256) as H
    by (intros []; vm_compute; reflexivity).
  split; [exact H|].
  exact (file_records sampleEnvironment withFooBar H).
Defined.

Example file_records_demo :
  layoutsEmitted <$> writeToBitstream sampleEnvironment withFooBar
  = Some [METADATA; MODULE_NAME; IDENTIFIER_DATA; OBJC_CONTEXT_DATA;
          OBJC_PROPERTY_DATA].
Proof. vm_compute. reflexivity. Qed.

(** ** When a call returns *)



